(** * Credit-card statement parser front end

    A shallow embedding of the React components of the repository:

    - [ResultsDisplay] with its helper [formatCurrency] (ResultsDisplay.js),
    - [DonutAnalytics], the spending breakdown, with the tooltip callback
      of its chart options (DonutAnalytics.js),
    - [App] with its submit handler [handleSubmit] and the controls of its
      form (App.js),
    - [Banner], the strip of logos (Banner.js).

    JavaScript numbers are IEEE-754 binary64 values; they are modelled by
    Rocq's primitive floats, whose operations the kernel evaluates with the
    same rounding as a JavaScript engine.  Concrete cases are settled by
    evaluation; the general facts about the comparator of the sort and about
    addition (section [Binary64]) rest on the standard library's
    specification of the primitive operations ([FloatAxioms]).

    Arrays are lists; where aliasing matters (module [Heap]) they are
    references into a store. *)

From Stdlib Require Import ZArith QArith Qpower List String Ascii Bool Lia.
From Stdlib Require Import Permutation Sorted DecimalString DecimalN.
From Stdlib Require Import Floats.
From stdpp Require Import base option list gmap.

Set Warnings "-inexact-float".
Local Open Scope string_scope.

(* ===================================================================== *)
(** * Part I: definitions *)
(* ===================================================================== *)

(** ** JavaScript values and built-ins used by the components *)

Module JS.

(** A JS number. *)
Definition number := float.

(** A value that may be [null] or [undefined]. *)
Inductive nullable (A : Type) : Type :=
| Null
| Undefined
| Val (a : A).
Arguments Null {A}.
Arguments Undefined {A}.
Arguments Val {A} a.

(** [s || d] for a string-or-nothing [s]: [null], [undefined] and the empty
    string are falsy. *)
Definition or_else (s : nullable string) (d : string) : string :=
  match s with
  | Val x => if String.eqb x "" then d else x
  | _ => d
  end.

(** Truthiness of a string ([error && ...]). *)
Definition truthy_string (s : string) : bool := negb (String.eqb s "").

(** The mathematical value of a finite number; [None] for NaN and the
    infinities. *)
Definition exact (x : number) : option Q :=
  match Prim2SF x with
  | S754_zero _ => Some 0%Q
  | S754_finite s m e => Some (inject_Z (cond_Zopp s (Zpos m)) * Qpower 2 e)%Q
  | _ => None
  end.

(** Decimal digits of a natural number, ["0"] for zero. *)
Definition digits (n : Z) : string :=
  NilZero.string_of_uint (N.to_uint (Z.to_N n)).

(** The integer nearest to [m * 2^e * k], the larger one on a tie
    ([toFixed] step "pick the larger n"; ECMA-402 rounding mode halfExpand
    on a magnitude). *)
Definition nearest_scaled (m : positive) (e k : Z) : Z :=
  if (0 <=? e)%Z then (Zpos m * 2 ^ e * k)%Z
  else ((2 * Zpos m * k + 2 ^ (- e)) / 2 ^ (1 - e))%Z.

(** [m * 2^e >= b] for a positive integer [b]. *)
Definition magnitude_geb (m : positive) (e b : Z) : bool :=
  if (0 <=? e)%Z then (b <=? Zpos m * 2 ^ e)%Z
  else (b * 2 ^ (- e) <=? Zpos m)%Z.

(** [x.toFixed(1)] (ECMA-262, Number.prototype.toFixed with one fraction
    digit).  For magnitudes of 10^21 and above the standard hands over to
    Number::toString, whose shortest-digits output is outside this model:
    [None]. *)
Definition toFixed1 (x : number) : option string :=
  match Prim2SF x with
  | S754_nan => Some "NaN"
  | S754_infinity false => Some "Infinity"
  | S754_infinity true => Some "-Infinity"
  | S754_zero _ => Some "0.0"
  | S754_finite s m e =>
      if magnitude_geb m e (10 ^ 21) then None
      else
        let n := nearest_scaled m e 10 in
        Some ((if s then "-" else "")
                ++ digits (n / 10) ++ "." ++ digits (n mod 10))
  end.

(** Grouping of the en-IN locale over the digits of an integer, written on
    the reversed digit list: the last three digits, then groups of two. *)
Fixpoint group_pairs (r : list ascii) : list ascii :=
  match r with
  | a :: b :: r' => ","%char :: a :: b :: group_pairs r'
  | [a] => [","%char; a]
  | [] => []
  end.

Definition group_enIN (ds : string) : string :=
  match rev (list_ascii_of_string ds) with
  | a :: b :: c :: r => string_of_list_ascii (rev (a :: b :: c :: group_pairs r))
  | _ => ds
  end.

(** [k] decimal digits of [n], zero-padded on the left. *)
Fixpoint fraction_digits (k : nat) (n : Z) : list ascii :=
  match k with
  | O => []
  | S k' =>
      fraction_digits k' (n / 10)
        ++ list_ascii_of_string (digits (n mod 10))
  end.

(** Drop trailing zeros of a fraction while more than [minfd] digits
    remain (on the reversed digit list). *)
Fixpoint strip_zeros (minfd : nat) (r : list ascii) : list ascii :=
  match r with
  | c :: r' =>
      if Ascii.eqb c "0"%char && (minfd <? List.length r)%nat
      then strip_zeros minfd r' else r
  | [] => []
  end.

(** [x.toLocaleString('en-IN', { minimumFractionDigits: minfd,
    maximumFractionDigits: maxfd })] (ECMA-402 with the CLDR data of
    en-IN): sign, integer part in lakh/crore grouping, and between [minfd]
    and [maxfd] fraction digits of the value rounded half away from zero.
    The standard rounds the mathematical value of the number, as here;
    engines that round its shortest decimal representation instead can
    differ in the last digit next to a tie (they print 1.005 as 1.01), and
    above 2^53 they print zeros where the number has further digits.
    Nothing below depends on such a case. *)
Definition toLocaleString_enIN (minfd maxfd : nat) (x : number) : string :=
  match Prim2SF x with
  | S754_nan => "NaN"
  | S754_infinity s => (if s then "-" else "") ++ "∞"
  | S754_zero s =>
      (if s then "-" else "") ++ "0"
        ++ (if (0 <? minfd)%nat
            then "." ++ string_of_list_ascii (repeat "0"%char minfd) else "")
  | S754_finite s m e =>
      let n := nearest_scaled m e (10 ^ Z.of_nat maxfd) in
      let ip := (n / 10 ^ Z.of_nat maxfd)%Z in
      let fp := (n mod 10 ^ Z.of_nat maxfd)%Z in
      let fr := rev (strip_zeros minfd (rev (fraction_digits maxfd fp))) in
      (if s then "-" else "") ++ group_enIN (digits ip)
        ++ (match fr with
            | [] => ""
            | _ => "." ++ string_of_list_ascii fr
            end)
  end.

(** [Array.prototype.sort(comparefn)].  The sort is stable, and SortCompare
    reads a NaN result of [comparefn] as +0; so [a] is moved behind a later
    element [b] exactly when [comparefn(a, b) > 0].  For a consistent
    comparator the result is the unique stable ordering, computed here by
    insertion from the right.  A comparator that returns NaN for some pairs
    only (here: when an amount is NaN) is not consistent; the standard then
    leaves the order to the implementation, and an engine may order such a
    list differently from the insertion below.  What is stated about the
    order of a sorted list assumes amounts that are numbers. *)
Section ArraySort.
Context {A : Type}.
Variable comparefn : A -> A -> number.

Definition sorts_after (a b : A) : bool := (0 <? comparefn a b)%float.

Fixpoint sort_insert (x : A) (l : list A) : list A :=
  match l with
  | [] => [x]
  | y :: r => if sorts_after x y then y :: sort_insert x r else x :: y :: r
  end.

Fixpoint sort (l : list A) : list A :=
  match l with
  | [] => []
  | x :: r => sort_insert x (sort r)
  end.
End ArraySort.

End JS.

Import JS.

(** ** The data of a parsed statement (the JSON answer of the parsing service) *)

Record Transaction : Type := mkTransaction {
  date : string;
  description : string;
  amount : number;
  type : string
}.

Record StatementResult : Type := mkStatement {
  bank_name : string;
  card_number : nullable string;
  statement_date : nullable string;
  payment_due_date : nullable string;
  credit_limit : nullable number;
  total_amount_due : nullable number;
  minimum_amount_due : nullable number;
  available_credit : nullable number;
  transactions : nullable (list Transaction)
}.

(** ** DonutAnalytics.js: the spending breakdown *)

Module Donut.

(** An entry of [chartItems]: one of the statement's transaction objects,
    or an object literal [{ description, amount }] built by the
    component. *)
Inductive ChartItem : Type :=
| ItemTxn (t : Transaction)
| ItemObj (descr : string) (amt : number).

Definition item_description (i : ChartItem) : string :=
  match i with
  | ItemTxn t => description t
  | ItemObj d _ => d
  end.

Definition item_amount (i : ChartItem) : number :=
  match i with
  | ItemTxn t => amount t
  | ItemObj _ a => a
  end.

(** [t => t.type === 'debit'] *)
Definition is_debit (t : Transaction) : bool := String.eqb (type t) "debit".

(** [(a, b) => b.amount - a.amount] *)
Definition by_amount_desc (a b : Transaction) : number :=
  (amount b - amount a)%float.

(** [data.transactions.filter(...).sort(...)] *)
Definition debitTransactions (txns : list Transaction) : list Transaction :=
  sort by_amount_desc (List.filter is_debit txns).

(** [a.reduce((sum, t) => sum + t.amount, 0)] *)
Definition sum_amounts (a : list Transaction) : number :=
  fold_left (fun sum t => (sum + amount t)%float) a 0%float.

Definition topItems (debit : list Transaction) : list Transaction :=
  take 4 debit.

Definition otherItems (debit : list Transaction) : list Transaction :=
  drop 4 debit.

Definition otherItemsSum (debit : list Transaction) : number :=
  sum_amounts (otherItems debit).

Definition chartItems (debit : list Transaction) : list ChartItem :=
  let items := map ItemTxn (topItems debit) in
  if (0 <? List.length (otherItems debit))%nat
  then (items ++ [ItemObj "Others" (otherItemsSum debit)])%list
  else items.

Definition totalSpent (debit : list Transaction) : number :=
  sum_amounts debit.

(** [((item.amount / totalSpent) * 100).toFixed(1)] *)
Definition percentage (total : number) (item : ChartItem) : option string :=
  toFixed1 (item_amount item / total * 100)%float.

Definition backgroundColor : list string :=
  ["#FF6384"; "#36A2EB"; "#FFCE56"; "#4BC0C0"; "#9966FF"].

(** One row of the legend. *)
Record LegendItem : Type := mkLegendItem {
  legend_color : option string;
  legend_description : string;
  legend_amount : string;
  legend_percentage : option string
}.

Definition legend_item (total : number) (index : nat) (item : ChartItem)
  : LegendItem :=
  {| legend_color := backgroundColor !! index;
     legend_description := item_description item;
     legend_amount := "₹" ++ toLocaleString_enIN 0 3 (item_amount item);
     legend_percentage := percentage total item |}.

(** What the component hands to the chart and renders around it. *)
Record Chart : Type := mkChart {
  chart_items : list ChartItem;
  chart_total : number;
  chart_labels : list string;
  chart_data : list number;
  chart_center_text : string;
  chart_legend : list LegendItem
}.

(** The three things the component can return. *)
Inductive View : Type :=
| RenderNothing
| NoSpendingMessage (message : string)
| RenderChart (c : Chart).

Definition no_spending_text : string :=
  "No spending transactions found in this statement.".

Definition DonutAnalytics (data : nullable StatementResult) : View :=
  match data with
  | Val d =>
      match transactions d with
      | Val ((_ :: _) as txns) =>
          let debit := debitTransactions txns in
          if (List.length debit =? 0)%nat then NoSpendingMessage no_spending_text
          else
            let items := chartItems debit in
            let total := totalSpent debit in
            RenderChart
              {| chart_items := items;
                 chart_total := total;
                 chart_labels := map item_description items;
                 chart_data := map item_amount items;
                 chart_center_text := "₹" ++ toLocaleString_enIN 0 3 total;
                 chart_legend := imap (legend_item total) items |}
      | _ => RenderNothing
      end
  | _ => RenderNothing
  end.

(** The slices a view shows (none unless a chart is rendered). *)
Definition slices (v : View) : list ChartItem :=
  match v with
  | RenderChart c => chart_items c
  | _ => []
  end.

End Donut.

(** ** ResultsDisplay.js: the detail view *)

Module Results.

(** [formatCurrency]: the helper that formats currency. *)
Definition formatCurrency (amount : nullable number) : string :=
  match amount with
  | Null | Undefined => "N/A"
  | Val a => "₹" ++ toLocaleString_enIN 2 2 a
  end.

(** A row of the transactions table. *)
Record Row : Type := mkRow {
  row_class : string;
  row_date : string;
  row_description : string;
  row_amount : string
}.

Definition row_of (txn : Transaction) : Row :=
  {| row_class := type txn;
     row_date := date txn;
     row_description := description txn;
     row_amount := formatCurrency (Val (amount txn)) |}.

Inductive TransactionsSection : Type :=
| TransactionsTable (rows : list Row)
| NoTransactions (text : string).

(** The texts the component renders, by place. *)
Record Panel : Type := mkPanel {
  heading : string;
  card_line : string;
  statement_date_value : string;
  total_due_value : string;
  due_date_value : string;
  credit_limit_value : string;
  available_credit_value : string;
  minimum_due_value : string;
  transactions_section : TransactionsSection
}.

(** [None] is the component's [return null]. *)
Definition ResultsDisplay (data : nullable StatementResult) : option Panel :=
  match data with
  | Val d =>
      Some
        {| heading := bank_name d ++ " Statement";
           card_line := "Card: " ++ or_else (card_number d) "N/A";
           statement_date_value := or_else (statement_date d) "N/A";
           total_due_value := formatCurrency (total_amount_due d);
           due_date_value := or_else (payment_due_date d) "N/A";
           credit_limit_value := formatCurrency (credit_limit d);
           available_credit_value := formatCurrency (available_credit d);
           minimum_due_value := formatCurrency (minimum_amount_due d);
           transactions_section :=
             match transactions d with
             | Val ((_ :: _) as txns) => TransactionsTable (map row_of txns)
             | _ => NoTransactions "No transactions found in this statement."
             end |}
  | _ => None
  end.

End Results.

(** ** App.js: the form, its state and the submit handler *)

Module App.

(** The file picked in the form (only its identity matters here). *)
Record File : Type := mkFile { file_name : string }.

(** The five [useState] cells of the component. *)
Record State : Type := mkState {
  bank : string;
  file : nullable File;
  parsedData : nullable StatementResult;
  isLoading : bool;
  error : string
}.

Definition initial : State :=
  {| bank := "axis"; file := Null; parsedData := Null;
     isLoading := false; error := "" |}.

(** What [response.json()] gives: a rejection, [null], or an object, read
    both through its [error] field and as a statement.  These are the
    answers of the parsing service.  A body that is another JSON value (a
    string, a number, a boolean or an array) is not among them: the handler
    would store such a value as it is. *)
Inductive Body : Type :=
| BodyUnparseable (message : string)
| BodyNull
| BodyObject (error_field : nullable string) (statement : StatementResult).

Record Response : Type := mkResponse {
  ok : bool;
  statusText : string;
  body : Body
}.

(** How the one request ends, when it ends: [fetch] rejects, or it
    resolves and [response.json()] rejects or resolves.  The handler sets
    no timeout; a request that never settles has no outcome, the handler
    then stays at its [await]. *)
Inductive FetchOutcome : Type :=
| FetchRejects (message : string)
| FetchResolves (r : Response).

(** What the handler does to the outside, in order. *)
Inductive Event : Type :=
| PreventDefault
| SetError (s : string)
| SetIsLoading (b : bool)
| SetParsedData (d : nullable StatementResult)
| Fetch (url method bank_field : string) (file_field : File).

(** The handler threads the state cells and logs its events. *)
Definition Handler (A : Type) : Type := State -> A * State * list Event.

Definition ret {A} (a : A) : Handler A := fun st => (a, st, []).

Definition bind {A B} (m : Handler A) (k : A -> Handler B) : Handler B :=
  fun st =>
    let '(a, st1, ev1) := m st in
    let '(b, st2, ev2) := k a st1 in
    (b, st2, (ev1 ++ ev2)%list).

Declare Scope handler_scope.
Delimit Scope handler_scope with handler.
Bind Scope handler_scope with Handler.
Notation "'let*' x := m 'in' k" := (bind m (fun x => k))
  (at level 10, x name, m at level 100, k at level 200) : handler_scope.
Notation "m ;; k" := (bind m (fun _ => k))
  (at level 100, k at level 200, right associativity) : handler_scope.
Local Open Scope handler_scope.

Definition get : Handler State := fun st => (st, st, []).

Definition emit (e : Event) : Handler unit := fun st => (tt, st, [e]).

Definition setError (s : string) : Handler unit :=
  fun st =>
    (tt, {| bank := bank st; file := file st; parsedData := parsedData st;
            isLoading := isLoading st; error := s |}, [SetError s]).

Definition setIsLoading (b : bool) : Handler unit :=
  fun st =>
    (tt, {| bank := bank st; file := file st; parsedData := parsedData st;
            isLoading := b; error := error st |}, [SetIsLoading b]).

Definition setParsedData (d : nullable StatementResult) : Handler unit :=
  fun st =>
    (tt, {| bank := bank st; file := file st; parsedData := d;
            isLoading := isLoading st; error := error st |}, [SetParsedData d]).

Definition apiUrl : string :=
  "https://credit-card-statement-parser.onrender.com/parse-statement/".

(** Reading [.error] of [null] throws a TypeError (the text is V8's). *)
Definition null_error_text : string :=
  "Cannot read properties of null (reading 'error')".

(** The [try] block; [Some message] is an exception with that message. *)
Definition try_block (net : FetchOutcome) (b : string) (f : File)
  : Handler (option string) :=
  emit (Fetch apiUrl "POST" b f) ;;
  match net with
  | FetchRejects message => ret (Some message)
  | FetchResolves response =>
      if negb (ok response) then
        match body response with
        | BodyUnparseable message => ret (Some message)
        | BodyNull => ret (Some null_error_text)
        | BodyObject e _ =>
            ret (Some (or_else e ("API Error: " ++ statusText response)))
        end
      else
        match body response with
        | BodyUnparseable message => ret (Some message)
        | BodyNull => setParsedData Null ;; ret None
        | BodyObject _ d => setParsedData (Val d) ;; ret None
        end
  end.

Definition handleSubmit (net : FetchOutcome) : Handler unit :=
  emit PreventDefault ;;
  let* st := get in
  match file st with
  | Val f =>
      setIsLoading true ;;
      setParsedData Null ;;
      setError "" ;;
      (let* thrown := try_block net (bank st) f in
       match thrown with
       | Some message =>
           setError (or_else (Val message) "An unexpected error occurred.")
       | None => ret tt
       end) ;;
      setIsLoading false
  | _ => setError "Please select a PDF file to upload."
  end.

(** The parts of the rendered page that depend on the state. *)
Record Page : Type := mkPage {
  submit_disabled : bool;
  submit_label : string;
  loading_notice : option string;
  error_notice : option string;
  results : option (option Results.Panel * Donut.View)
}.

Definition render (st : State) : Page :=
  {| submit_disabled := isLoading st;
     submit_label := if isLoading st then "Parsing..." else "Parse Statement";
     loading_notice :=
       if isLoading st then Some "Parsing your statement... 🚀" else None;
     error_notice := if truthy_string (error st) then Some (error st) else None;
     results :=
       match parsedData st with
       | Val d =>
           Some (Results.ResultsDisplay (Val d), Donut.DonutAnalytics (Val d))
       | _ => None
       end |}.

End App.

(** ** DonutAnalytics.js over a store of arrays

    The same component with arrays as references, so that what is a fresh
    array and what is an update in place is explicit: [filter], [slice] and
    the spread allocate, [sort] and [push] write to the array they are
    called on.  The objects inside the arrays are never assigned to, so they
    are kept as values. *)

Module Heap.

Import Donut.

(** References to arrays, and the store of the arrays alive. *)
Abbreviation loc := positive.

Abbreviation store := (gmap loc (list ChartItem)).

(** A computation on the store; [None] is a read or write of a reference
    that is not an array of the store. *)
Definition Mem (A : Type) : Type := store -> option (A * store).

Definition ret {A} (a : A) : Mem A := fun s => Some (a, s).

Definition bind {A B} (m : Mem A) (k : A -> Mem B) : Mem B :=
  fun s =>
    match m s with
    | Some (a, s1) => k a s1
    | None => None
    end.

Declare Scope mem_scope.
Delimit Scope mem_scope with mem.
Bind Scope mem_scope with Mem.
Notation "'let*' x := m 'in' k" := (bind m (fun x => k))
  (at level 10, x name, m at level 100, k at level 200) : mem_scope.
Notation "m ;; k" := (bind m (fun _ => k))
  (at level 100, k at level 200, right associativity) : mem_scope.
Local Open Scope mem_scope.

Definition read (a : loc) : Mem (list ChartItem) :=
  fun s =>
    match s !! a with
    | Some l => Some (l, s)
    | None => None
    end.

Definition write (a : loc) (l : list ChartItem) : Mem unit :=
  fun s =>
    match s !! a with
    | Some _ => Some (tt, <[a := l]> s)
    | None => None
    end.

Definition alloc (l : list ChartItem) : Mem loc :=
  fun s => let a := fresh (dom s) in Some (a, <[a := l]> s).

(** *** Array methods *)

Definition array_length (a : loc) : Mem nat :=
  let* l := read a in ret (List.length l).

Definition array_filter (p : ChartItem -> bool) (a : loc) : Mem loc :=
  let* l := read a in alloc (List.filter p l).

(** Sorts the array in place and returns the same reference. *)
Definition array_sort (comparefn : ChartItem -> ChartItem -> number) (a : loc)
  : Mem loc :=
  let* l := read a in
  write a (JS.sort comparefn l) ;;
  ret a.

(** [a.slice(start, end)]; [None] for a missing [end]. *)
Definition array_slice (a : loc) (start : nat) (stop : option nat) : Mem loc :=
  let* l := read a in
  alloc (match stop with
         | Some e => take (e - start) (drop start l)
         | None => drop start l
         end).

Definition array_reduce {B} (f : B -> ChartItem -> B) (a : loc) (init : B)
  : Mem B :=
  let* l := read a in ret (fold_left f l init).

(** [[...a]] *)
Definition array_spread (a : loc) : Mem loc :=
  let* l := read a in alloc l.

Definition array_push (a : loc) (x : ChartItem) : Mem unit :=
  let* l := read a in write a (l ++ [x])%list.

(** [a.map(f)], read off as the list of results. *)
Definition array_map {B} (f : nat -> ChartItem -> B) (a : loc) : Mem (list B) :=
  let* l := read a in ret (imap f l).

(** *** The component *)

(** [t.type === 'debit']: an object without a [type] is no debit. *)
Definition is_debit (i : ChartItem) : bool :=
  match i with
  | ItemTxn t => Donut.is_debit t
  | ItemObj _ _ => false
  end.

Definition by_amount_desc (a b : ChartItem) : number :=
  (item_amount b - item_amount a)%float.

Definition add_amount (sum : number) (t : ChartItem) : number :=
  (sum + item_amount t)%float.

(** [data] is an object whose [transactions] is a reference (or missing). *)
Definition DonutAnalytics (data : nullable (nullable loc)) : Mem View :=
  match data with
  | Val (Val txns) =>
      let* n := array_length txns in
      if (n =? 0)%nat then ret RenderNothing
      else
        let* filtered := array_filter is_debit txns in
        let* debitTransactions := array_sort by_amount_desc filtered in
        let* n := array_length debitTransactions in
        if (n =? 0)%nat then ret (NoSpendingMessage no_spending_text)
        else
          let* topItems := array_slice debitTransactions 0 (Some 4) in
          let* otherItems := array_slice debitTransactions 4 None in
          let* otherItemsSum := array_reduce add_amount otherItems 0%float in
          let* chartItems := array_spread topItems in
          let* n := array_length otherItems in
          (if (0 <? n)%nat
           then array_push chartItems (ItemObj "Others" otherItemsSum)
           else ret tt) ;;
          let* totalSpent := array_reduce add_amount debitTransactions 0%float in
          let* labels := array_map (fun _ => item_description) chartItems in
          let* values := array_map (fun _ => item_amount) chartItems in
          let* legend := array_map (legend_item totalSpent) chartItems in
          let* items := read chartItems in
          ret (RenderChart
                 {| chart_items := items;
                    chart_total := totalSpent;
                    chart_labels := labels;
                    chart_data := values;
                    chart_center_text :=
                      "₹" ++ toLocaleString_enIN 0 3 totalSpent;
                    chart_legend := legend |})
  | _ => ret RenderNothing
  end.

End Heap.

(** ** Notions used to state the properties *)

Module Notions.

Import Donut.

(** The statement [d] with [l] as its transactions. *)
Definition with_transactions (d : StatementResult) (l : list Transaction)
  : StatementResult :=
  {| bank_name := bank_name d;
     card_number := card_number d;
     statement_date := statement_date d;
     payment_due_date := payment_due_date d;
     credit_limit := credit_limit d;
     total_amount_due := total_amount_due d;
     minimum_amount_due := minimum_amount_due d;
     available_credit := available_credit d;
     transactions := Val l |}.

(** The chart the component builds from a non-empty sorted debit list. *)
Definition chart_of (debit : list Transaction) : Chart :=
  {| chart_items := chartItems debit;
     chart_total := totalSpent debit;
     chart_labels := map item_description (chartItems debit);
     chart_data := map item_amount (chartItems debit);
     chart_center_text := "₹" ++ toLocaleString_enIN 0 3 (totalSpent debit);
     chart_legend := imap (legend_item (totalSpent debit)) (chartItems debit) |}.

(** The grand total a view shows, if it shows a chart. *)
Definition grand_total (v : View) : option number :=
  match v with
  | RenderChart c => Some (chart_total c)
  | _ => None
  end.

Definition legend_of (v : View) : list LegendItem :=
  match v with
  | RenderChart c => chart_legend c
  | _ => []
  end.

(** A slice the component built itself, as opposed to a transaction. *)
Definition synthetic (i : ChartItem) : bool :=
  match i with
  | ItemObj _ _ => true
  | ItemTxn _ => false
  end.

(** The sum of the slice amounts, added up the way the component adds:
    [items.reduce((sum, i) => sum + i.amount, 0)]. *)
Definition sum_items (items : list ChartItem) : number :=
  fold_left (fun sum i => (sum + item_amount i)%float) items 0%float.

(** [l.reduce((sum, x) => sum + x, acc)] on plain numbers. *)
Definition reduce_add (acc : number) (l : list number) : number :=
  fold_left (fun sum x => (sum + x)%float) l acc.

(** The addition [a + b] is exact: both operands and the result are
    finite and no rounding takes place. *)
Definition add_exact (a b : number) : bool :=
  match exact a, exact b, exact (a + b)%float with
  | Some p, Some q, Some r => Qeq_bool (p + q) r
  | _, _, _ => false
  end.

(** Every addition of [reduce_add acc l] is exact. *)
Fixpoint reduce_exact (acc : number) (l : list number) : bool :=
  match l with
  | [] => true
  | x :: r => add_exact acc x && reduce_exact (acc + x)%float r
  end.

(** The sum of a list of rationals. *)
Definition Qsum (l : list Q) : Q := fold_right Qplus 0%Q l.

(** The value of a number, 0 where it has none. *)
Definition value (x : number) : Q :=
  match exact x with
  | Some q => q
  | None => 0%Q
  end.

(** Two finite numbers with the same value ([===] on finite numbers). *)
Definition same_value (x y : number) : Prop :=
  match exact x, exact y with
  | Some p, Some q => (p == q)%Q
  | _, _ => False
  end.

(** Under [comparefn], [x] may stand before [y]. *)
Definition keeps {A} (cmp : A -> A -> number) (x y : A) : Prop :=
  sorts_after cmp x y = false.

Definition asym_on {A} (cmp : A -> A -> number) (l : list A) : Prop :=
  forall a b, In a l -> In b l ->
    sorts_after cmp a b = true -> sorts_after cmp b a = false.

Definition trans_on {A} (cmp : A -> A -> number) (l : list A) : Prop :=
  forall a b c, In a l -> In b l -> In c l ->
    keeps cmp a b -> keeps cmp b c -> keeps cmp a c.

(** [sorts_after] of the comparator [(a, b) => b.amount - a.amount], on the
    amounts alone. *)
Definition after (a b : number) : bool := (0 <? b - a)%float.

(** The place of a binary64 value among the values: its value in units of
    2^-1074, the smallest positive number; the infinities stand beyond
    every finite value.  (NaN has no place; it is given 0.) *)
Definition rank (x : spec_float) : Z :=
  match x with
  | S754_zero _ => 0
  | S754_finite s m e => cond_Zopp s (Zpos m * 2 ^ (e + 1074))
  | S754_infinity s => cond_Zopp s (2 ^ 2098)
  | S754_nan => 0
  end.

Definition place (a : number) : Z := rank (Prim2SF a).

(** [x] is finite and not zero, or infinite, with sign [s]. *)
Definition signed (s : bool) (x : spec_float) : Prop :=
  match x with
  | S754_finite s' _ _ => s' = s
  | S754_infinity s' => s' = s
  | _ => False
  end.

(** [a] is not NaN. *)
Definition is_number (a : number) : Prop := Prim2SF a <> S754_nan.

(** [a] is +0 or -0. *)
Definition is_zero (a : number) : Prop := exists s, Prim2SF a = S754_zero s.

(** The same number, up to the sign of zero. *)
Definition similar (x y : number) : Prop := x = y \/ (is_zero x /\ is_zero y).

(** [x] is finite or zero. *)
Definition finite (x : spec_float) : Prop :=
  match x with
  | S754_zero _ | S754_finite _ _ _ => True
  | _ => False
  end.

(** The integer a number stands for, if it is a finite whole number. *)
Definition whole (a : number) : option Z :=
  match Prim2SF a with
  | S754_zero _ => Some 0%Z
  | S754_finite s m e =>
      if (0 <=? e)%Z then Some (cond_Zopp s (Zpos m * 2 ^ e))
      else if (Zpos m mod 2 ^ (- e) =? 0)%Z
           then Some (cond_Zopp s (Zpos m / 2 ^ (- e)))
           else None
  | _ => None
  end.

(** The sum of a list of non-negative whole numbers; [None] if an entry is
    not one. *)
Fixpoint whole_total (l : list number) : option Z :=
  match l with
  | [] => Some 0%Z
  | x :: r =>
      match whole x, whole_total r with
      | Some k, Some K => if (0 <=? k)%Z then Some (k + K)%Z else None
      | _, _ => None
      end
  end.

(** The computation [m] started in store [s] ends, with a result and a
    final store that satisfy [P]. *)
Definition runs_to {A} (m : Heap.Mem A) (s : Heap.store)
    (P : A -> Heap.store -> Prop) : Prop :=
  match m s with
  | Some (a, s') => P a s'
  | None => False
  end.

(** Every array of [s] is an array of [s'], with the same elements in the
    same order. *)
Definition preserved (s s' : Heap.store) : Prop :=
  forall (b : Heap.loc) (x : list ChartItem), s !! b = Some x -> s' !! b = Some x.

(** No file is selected: the [file] cell is [null] or [undefined]. *)
Definition no_file (st : App.State) : Prop :=
  match App.file st with
  | Val _ => False
  | _ => True
  end.

Definition is_fetch (e : App.Event) : bool :=
  match e with
  | App.Fetch _ _ _ _ => true
  | _ => false
  end.

Definition is_set_loading (e : App.Event) : bool :=
  match e with
  | App.SetIsLoading _ => true
  | _ => false
  end.

Definition validation_text : string := "Please select a PDF file to upload.".

(** The state [st] with [s] in its [error] cell. *)
Definition with_error (st : App.State) (s : string) : App.State :=
  {| App.bank := App.bank st; App.file := App.file st;
     App.parsedData := App.parsedData st;
     App.isLoading := App.isLoading st; App.error := s |}.

(** Sample data for the concrete cases. *)
Definition debit (descr : string) (a : number) : Transaction :=
  {| date := "2024-04-01"; description := descr; amount := a; type := "debit" |}.

Definition credit (descr : string) (a : number) : Transaction :=
  {| date := "2024-04-02"; description := descr; amount := a; type := "credit" |}.

Definition statement_of (l : list Transaction) : StatementResult :=
  {| bank_name := "Axis Bank";
     card_number := Val "4111 XXXX XXXX 1111";
     statement_date := Val "2024-04-30";
     payment_due_date := Val "2024-05-20";
     credit_limit := Val 100000%float;
     total_amount_due := Val 2100%float;
     minimum_amount_due := Val 105%float;
     available_credit := Val 97900%float;
     transactions := Val l |}.

End Notions.

(** ** DonutAnalytics.js: the options handed to the chart *)

Module ChartOptions.

(** The sign a number is printed with: set for negative numbers and for -0,
    never for NaN. *)
Definition sign_bit (x : number) : bool :=
  match Prim2SF x with
  | S754_zero s | S754_infinity s | S754_finite s _ _ => s
  | S754_nan => false
  end.

(** [new Intl.NumberFormat('en-IN', { style: 'currency', currency: 'INR' })
    .format(x)]: the rupee sign in front of the magnitude, printed with the
    two fraction digits of the currency, and a minus sign before the rupee
    sign. *)
Definition format_INR (x : number) : string :=
  (if sign_bit x then "-" else "") ++ "₹" ++ toLocaleString_enIN 2 2 (abs x).

(** [tooltip.callbacks.label], a function of [context.label] and
    [context.parsed].  [format] of [undefined] formats NaN. *)
Definition label (context_label : nullable string)
    (context_parsed : nullable number) : string :=
  let label := or_else context_label "" in
  let label := if truthy_string label then label ++ ": " else label in
  match context_parsed with
  | Null => label
  | Undefined => label ++ format_INR nan
  | Val parsed => label ++ format_INR parsed
  end.

End ChartOptions.

(** ** Banner.js: the strip of bank logos *)

Module Logos.

Record Logo : Type := mkLogo { name : string; url : string }.

Definition logos : list Logo :=
  [ {| name := "Kotak";
       url := "https://zerocreativity0.wordpress.com/wp-content/uploads/2016/05/kotak-logo.jpg?w=736" |};
    {| name := "SBI";
       url := "https://encrypted-tbn0.gstatic.com/images?q=tbn:ANd9GcRhYRXE6uVI5pYMigHf_QpMYtLBobOMXs2kCg&s" |};
    {| name := "Yes Bank";
       url := "https://www.livemint.com/lm-img/img/2024/06/27/1600x900/YES_BANK_logo_1718090520171_1719461044556.jpg" |};
    {| name := "Bank of Baroda";
       url := "https://encrypted-tbn0.gstatic.com/images?q=tbn:ANd9GcT2La5Q_xYCFAJqeytE2pf6SsJAOuo9Pu5KZQ&s" |};
    {| name := "Axis Bank";
       url := "https://encrypted-tbn0.gstatic.com/images?q=tbn:ANd9GcRV-cq_bSdsBTQQEsGwA-QKFR_tu32wL1f0Yg&s" |} ].

(** One [banner-item]: its React key and the image it shows. *)
Record Item : Type := mkItem { key : nat; src : string; alt : string }.

(** [extendedLogos.map((logo, index) => ...)] *)
Definition banner_track (extendedLogos : list Logo) : list Item :=
  imap (fun index logo =>
          {| key := index; src := url logo; alt := name logo ++ " logo" |})
    extendedLogos.

Definition Banner : list Item :=
  let extendedLogos := (logos ++ logos)%list in
  banner_track extendedLogos.

End Logos.

(** ** App.js: the controls of the form *)

Module Form.

Import App.

(** The setters of the [bank] and [file] cells. *)
Definition setBank (b : string) (st : State) : State :=
  {| bank := b; file := file st; parsedData := parsedData st;
     isLoading := isLoading st; error := error st |}.

Definition setFile (f : nullable File) (st : State) : State :=
  {| bank := bank st; file := f; parsedData := parsedData st;
     isLoading := isLoading st; error := error st |}.

(** The [<option>]s of the bank selector: value and text. *)
Definition bank_options : list (string * string) :=
  [("axis", "Axis Bank"); ("bob", "Bank of Baroda"); ("kotak", "Kotak Bank");
   ("sbi", "SBI"); ("yes", "Yes Bank")].

(** [files[0]]: [undefined] on an empty file list. *)
Definition first_file (files : list File) : nullable File :=
  match files with
  | f :: _ => Val f
  | [] => Undefined
  end.

(** [onChange] of the selector: [(e) => setBank(e.target.value)]. *)
Definition onBankChange (value : string) : State -> State := setBank value.

(** [onChange] of the file input: [(e) => setFile(e.target.files[0])]. *)
Definition onFileChange (files : list File) : State -> State :=
  setFile (first_file files).

(** What the user does with the form.  A submit is handled to its end before
    the next action. *)
Inductive Action : Type :=
| SelectBank (value : string)
| PickFiles (files : list File)
| Submit (net : FetchOutcome).

Definition act (a : Action) (st : State) : State * list Event :=
  match a with
  | SelectBank value => (onBankChange value st, [])
  | PickFiles files => (onFileChange files st, [])
  | Submit net => let '(_, st', events) := handleSubmit net st in (st', events)
  end.

(** A sequence of actions from state [st]: the state reached and the events
    of the submits, in order. *)
Fixpoint session (actions : list Action) (st : State) : State * list Event :=
  match actions with
  | [] => (st, [])
  | a :: rest =>
      let '(st1, ev1) := act a st in
      let '(st2, ev2) := session rest st1 in
      (st2, (ev1 ++ ev2)%list)
  end.

End Form.

(** ** Further notions used to state the properties *)

Module More.

Import Donut Notions.

(** The transactions a component is given; none when [data] or its
    [transactions] is missing. *)
Definition listed (data : nullable StatementResult) : list Transaction :=
  match data with
  | Val d =>
      match transactions d with
      | Val txns => txns
      | _ => []
      end
  | _ => []
  end.

(** The debit entries of the statement, in the order of the statement. *)
Definition debits (data : nullable StatementResult) : list Transaction :=
  List.filter is_debit (listed data).

(** The text a view draws in the middle of the chart. *)
Definition center_text (v : View) : option string :=
  match v with
  | RenderChart c => Some (chart_center_text c)
  | _ => None
  end.

(** The transactions whose amount has place [k]: the entries of one amount
    (the two zeros count as one amount). *)
Definition with_place (k : Z) (l : list Transaction) : list Transaction :=
  List.filter (fun t => (place (amount t) =? k)%Z) l.

(** A grouped number without its separators. *)
Definition ungroup (s : string) : string :=
  string_of_list_ascii
    (List.filter (fun c => negb (Ascii.eqb c ","%char)) (list_ascii_of_string s)).

(** Reading back a grouped natural number. *)
Definition read_grouped (s : string) : option Z :=
  match NilZero.uint_of_string (ungroup s) with
  | Some d => Some (Z.of_N (N.of_uint d))
  | None => None
  end.

(** The statement a successful answer carries: the response is [ok] and its
    body is an object. *)
Definition answer (net : App.FetchOutcome) : option StatementResult :=
  match net with
  | App.FetchResolves r =>
      if App.ok r then
        match App.body r with
        | App.BodyObject _ d => Some d
        | _ => None
        end
      else None
  | App.FetchRejects _ => None
  end.

(** An [ok] response whose body is the JSON value [null]. *)
Definition answers_null (net : App.FetchOutcome) : bool :=
  match net with
  | App.FetchResolves r =>
      App.ok r && match App.body r with App.BodyNull => true | _ => false end
  | App.FetchRejects _ => false
  end.

(** What a state setter among the events does to the state cells. *)
Definition apply_event (e : App.Event) (st : App.State) : App.State :=
  match e with
  | App.SetError s => with_error st s
  | App.SetIsLoading b =>
      {| App.bank := App.bank st; App.file := App.file st;
         App.parsedData := App.parsedData st;
         App.isLoading := b; App.error := App.error st |}
  | App.SetParsedData d =>
      {| App.bank := App.bank st; App.file := App.file st;
         App.parsedData := d;
         App.isLoading := App.isLoading st; App.error := App.error st |}
  | _ => st
  end.

(** The state after a sequence of events. *)
Definition replay (events : list App.Event) (st : App.State) : App.State :=
  fold_left (fun st e => apply_event e st) events st.

(** The events that come before the first request. *)
Fixpoint before_fetch (events : list App.Event) : list App.Event :=
  match events with
  | [] => []
  | e :: rest => if is_fetch e then [] else e :: before_fetch rest
  end.

(** The bank a selector action picks is one of the offered ones. *)
Definition offered (a : Form.Action) : Prop :=
  match a with
  | Form.SelectBank value => In value (map fst Form.bank_options)
  | _ => True
  end.

(** A request to the parsing service for one of the offered banks. *)
Definition request_ok (e : App.Event) : Prop :=
  match e with
  | App.Fetch url method b _ =>
      url = App.apiUrl /\ method = "POST" /\ In b (map fst Form.bank_options)
  | _ => True
  end.

(** The shift record [r] stands for the number [P / Dn]: [shr_m r] is its
    integer part, the round bit tells whether the rest is at least a half,
    the sticky bit whether the rest is neither nothing nor a half. *)
Definition stands_for (r : shr_record) (P Dn : Z) : Prop :=
  (0 < Dn
   /\ shr_m r * Dn <= P < (shr_m r + 1) * Dn
   /\ (shr_r r = true <-> (2 * shr_m r + 1) * Dn <= 2 * P)
   /\ (shr_s r = true
       <-> 2 * P <> 2 * shr_m r * Dn /\ 2 * P <> (2 * shr_m r + 1) * Dn))%Z.

(** The location [l] says where the number [P / Dn] lies between the
    integers [m] and [m + 1]. *)
Definition located (l : location) (m P Dn : Z) : Prop :=
  match l with
  | loc_Exact => P = m * Dn
  | loc_Inexact Lt => m * Dn < P /\ 2 * P < (2 * m + 1) * Dn
  | loc_Inexact Eq => 2 * P = (2 * m + 1) * Dn
  | loc_Inexact Gt => (2 * m + 1) * Dn < 2 * P /\ P < (m + 1) * Dn
  end%Z.

(** A number that is zero or above zero: +0, a positive finite number or
    +infinity. *)
Definition not_negative (x : spec_float) : Prop :=
  match x with
  | S754_zero false | S754_finite false _ _ | S754_infinity false => True
  | _ => False
  end.

(** A finite number that is not negative: a zero or a positive finite
    number. *)
Definition amount_like (x : spec_float) : Prop :=
  match x with
  | S754_zero _ | S754_finite false _ _ => True
  | _ => False
  end.

End More.

(* ===================================================================== *)
(** * Part II: properties *)
(* ===================================================================== *)

Import Donut Notions.

(** ** ResultsDisplay: currency formatting *)

Section Currency.

Import Results.

Lemma formatCurrency_number_prefix (x : number) :
  exists rest, formatCurrency (Val x) = "₹" ++ rest.
Proof. eexists. reflexivity. Qed.

Lemma formatCurrency_number_not_placeholder (x : number) :
  formatCurrency (Val x) <> "N/A".
Proof.
  destruct (formatCurrency_number_prefix x) as [rest ->].
  discriminate.
Qed.

(** C6: [formatCurrency] of [null] and of [undefined] is the placeholder
    "N/A", which is neither "0" nor "₹0.00" (the function is total, so no
    exception is possible); and a statement whose [credit_limit] is [null]
    (or missing) shows "N/A" as its credit limit in the detail view. *)
Theorem formatCurrency_missing_amount :
  formatCurrency Null = "N/A"
  /\ formatCurrency Undefined = "N/A"
  /\ "N/A" <> "0"
  /\ "N/A" <> "₹0.00"
  /\ (forall bn cn sd pd tad mad ac txns,
        credit_limit_value
          <$> ResultsDisplay
                (Val (mkStatement bn cn sd pd Null tad mad ac txns))
        = Some "N/A")
  /\ (forall bn cn sd pd tad mad ac txns,
        credit_limit_value
          <$> ResultsDisplay
                (Val (mkStatement bn cn sd pd Undefined tad mad ac txns))
        = Some "N/A").
Proof.
  repeat split; try reflexivity; discriminate.
Qed.

(** C10: [formatCurrency] of the number 0 is "₹0.00", not the placeholder;
    the placeholder is returned for [null] and [undefined] only. *)
Theorem formatCurrency_zero :
  formatCurrency (Val 0%float) = "₹0.00"
  /\ formatCurrency (Val 0%float) <> "N/A"
  /\ forall a, formatCurrency a = "N/A" <-> a = Null \/ a = Undefined.
Proof.
  split; [reflexivity|].
  split; [apply formatCurrency_number_not_placeholder|].
  intros [ | | x]; split; intros H; auto.
  - exfalso. revert H. apply formatCurrency_number_not_placeholder.
  - destruct H; discriminate.
Qed.

End Currency.

(** ** App: submitting without a file *)

Section Submit.

Import App.

Lemma handleSubmit_no_file (net : FetchOutcome) (st : State) :
  no_file st ->
  handleSubmit net st
  = (tt, with_error st validation_text,
     [PreventDefault; SetError validation_text]).
Proof.
  unfold no_file, handleSubmit, bind, get, emit. simpl.
  destruct (file st) eqn:E; intros H; try contradiction; reflexivity.
Qed.

(** C7: a submit with no file selected only prevents the default action and
    sets the validation message: the loading flag keeps its value (no
    Submitting state is entered), no request is sent and [setIsLoading] is
    never called, whatever the network would have answered. *)
Theorem submit_without_file_stays_idle (net : FetchOutcome) (st : State) :
  no_file st ->
  let '(_, st', events) := handleSubmit net st in
  isLoading st' = isLoading st
  /\ error st' = validation_text
  /\ st' = with_error st validation_text
  /\ forallb (fun e => negb (is_fetch e)) events = true
  /\ forallb (fun e => negb (is_set_loading e)) events = true
  /\ events = [PreventDefault; SetError validation_text].
Proof.
  intros H. rewrite (handleSubmit_no_file net st H).
  repeat split.
Qed.

Lemma submit_without_file_stays_idle_witness :
  no_file initial
  /\ let '(_, st', events) := handleSubmit (FetchRejects "offline") initial in
     isLoading st' = isLoading initial
     /\ error st' = validation_text
     /\ st' = with_error initial validation_text
     /\ forallb (fun e => negb (is_fetch e)) events = true
     /\ forallb (fun e => negb (is_set_loading e)) events = true
     /\ events = [PreventDefault; SetError validation_text].
Proof.
  split; [exact I|].
  apply (submit_without_file_stays_idle (FetchRejects "offline") initial).
  exact I.
Defined.

(** C8: a submit with no file selected leaves the stored result untouched
    (only the [error] cell changes), so a result shown before is still
    rendered, now together with the validation message. *)
Theorem submit_without_file_keeps_result (net : FetchOutcome) (st : State) :
  no_file st ->
  let st' := (handleSubmit net st).1.2 in
  parsedData st' = parsedData st
  /\ bank st' = bank st /\ file st' = file st /\ isLoading st' = isLoading st
  /\ results (render st') = results (render st)
  /\ error_notice (render st') = Some validation_text
  /\ forall d, parsedData st = Val d ->
       results (render st')
       = Some (Results.ResultsDisplay (Val d), Donut.DonutAnalytics (Val d)).
Proof.
  intros H. rewrite (handleSubmit_no_file net st H). cbn [fst snd].
  repeat split.
  intros d Hd. unfold render. cbn. rewrite Hd. reflexivity.
Qed.

Lemma submit_without_file_keeps_result_witness :
  let st := {| bank := "sbi"; file := Undefined;
               parsedData := Val (statement_of [debit "Groceries" 500%float]);
               isLoading := false; error := "" |} in
  no_file st
  /\ let st' := (handleSubmit (FetchRejects "offline") st).1.2 in
     parsedData st' = parsedData st
     /\ bank st' = bank st /\ file st' = file st /\ isLoading st' = isLoading st
     /\ results (render st') = results (render st)
     /\ error_notice (render st') = Some validation_text
     /\ forall d, parsedData st = Val d ->
          results (render st')
          = Some (Results.ResultsDisplay (Val d), Donut.DonutAnalytics (Val d)).
Proof.
  intros st. split; [exact I|].
  apply (submit_without_file_keeps_result (FetchRejects "offline") st).
  exact I.
Defined.

End Submit.

(** ** DonutAnalytics: what is rendered when *)

Section Rendering.

Lemma DonutAnalytics_cases (d : StatementResult) :
  DonutAnalytics (Val d)
  = match transactions d with
    | Val [] => RenderNothing
    | Val txns =>
        match debitTransactions txns with
        | [] => NoSpendingMessage no_spending_text
        | debit => RenderChart (chart_of debit)
        end
    | _ => RenderNothing
    end.
Proof.
  unfold DonutAnalytics.
  destruct (transactions d) as [ | | [ | t txns]]; try reflexivity.
  destruct (debitTransactions (t :: txns)); reflexivity.
Qed.

Lemma sort_insert_length {A} (cmp : A -> A -> number) (x : A) (l : list A) :
  List.length (sort_insert cmp x l) = S (List.length l).
Proof.
  induction l as [ | y r IH]; simpl; [reflexivity|].
  destruct (sorts_after cmp x y); simpl; congruence.
Qed.

Lemma sort_length {A} (cmp : A -> A -> number) (l : list A) :
  List.length (sort cmp l) = List.length l.
Proof.
  induction l as [ | x r IH]; simpl; [reflexivity|].
  rewrite sort_insert_length. congruence.
Qed.

Lemma sort_nil_inv {A} (cmp : A -> A -> number) (l : list A) :
  sort cmp l = [] -> l = [].
Proof.
  intros H. apply (f_equal (@List.length A)) in H.
  rewrite sort_length in H. destruct l; [reflexivity|discriminate].
Qed.

Lemma legend_percentages (total : number) (items : list ChartItem) :
  map legend_percentage (imap (legend_item total) items)
  = map (percentage total) items.
Proof.
  unfold legend_item.
  assert (G : forall (f : nat -> option string) (l : list ChartItem),
             map legend_percentage
               (imap (fun i item =>
                        {| legend_color := f i;
                           legend_description := item_description item;
                           legend_amount :=
                             "₹" ++ toLocaleString_enIN 0 3 (item_amount item);
                           legend_percentage := percentage total item |}) l)
             = map (percentage total) l).
  { intros f l. revert f. induction l as [ | i l IH]; intros f; simpl.
    - reflexivity.
    - f_equal. apply (IH (fun n => f (S n))). }
  apply (G (fun i => backgroundColor !! i)).
Qed.

(** C4 (as the code has it): with no debit entry among the transactions the
    component builds no chart, hence no slice at all and no total: a
    non-empty list gives the message "No spending transactions found in this
    statement.", the empty list makes the component render nothing. *)
Theorem no_debit_no_chart (d : StatementResult) (txns : list Transaction) :
  transactions d = Val txns ->
  List.filter is_debit txns = [] ->
  DonutAnalytics (Val d)
  = match txns with
    | [] => RenderNothing
    | _ :: _ => NoSpendingMessage no_spending_text
    end
  /\ slices (DonutAnalytics (Val d)) = []
  /\ grand_total (DonutAnalytics (Val d)) = None.
Proof.
  intros Ht Hf. rewrite DonutAnalytics_cases, Ht.
  unfold debitTransactions. rewrite Hf. simpl.
  destruct txns; repeat split.
Qed.

Lemma no_debit_no_chart_witness :
  let txns := [credit "Refund" 200%float; credit "Cashback" 35.5%float] in
  transactions (statement_of txns) = Val txns
  /\ List.filter is_debit txns = []
  /\ (DonutAnalytics (Val (statement_of txns))
      = NoSpendingMessage no_spending_text
      /\ slices (DonutAnalytics (Val (statement_of txns))) = []
      /\ grand_total (DonutAnalytics (Val (statement_of txns))) = None).
Proof.
  intros txns.
  split; [reflexivity|]. split; [reflexivity|].
  apply (no_debit_no_chart (statement_of txns) txns); reflexivity.
Defined.

(** C4, the claim as stated, fails on the empty list: the component returns
    [null] there, not the "no spending" message. *)
Lemma empty_list_renders_nothing :
  transactions (statement_of []) = Val []
  /\ List.filter is_debit [] = []
  /\ DonutAnalytics (Val (statement_of [])) = RenderNothing
  /\ DonutAnalytics (Val (statement_of []))
     <> NoSpendingMessage no_spending_text.
Proof.
  repeat split. discriminate.
Qed.

(** C1: every legend row, the one of the "Others" slice included, shows
    [((amount / total) * 100).toFixed(1)] of its slice.  In the degenerate
    case the division is not guarded: one debit of amount 0 passes the
    empty-check, the grand total is 0 and the legend shows "NaN" as the
    percentage (0/0 is NaN, and [toFixed] prints NaN as "NaN"), not "0.0". *)
Theorem zero_total_percentage_is_NaN :
  (forall debit : list Transaction,
     map legend_percentage (chart_legend (chart_of debit))
     = map (fun item =>
              toFixed1 (item_amount item / totalSpent debit * 100)%float)
         (chartItems debit))
  /\ let v := DonutAnalytics (Val (statement_of [debit "Fee reversal" 0%float])) in
     grand_total v = Some 0%float
     /\ map legend_percentage (legend_of v) = [Some "NaN"]
     /\ map legend_percentage (legend_of v) <> [Some "0.0"].
Proof.
  split; [intros debit; apply legend_percentages|].
  cbv zeta. split; [reflexivity|]. split; [reflexivity|].
  intros H. vm_compute in H. discriminate H.
Qed.

(** The two worked examples of the specification. *)
Example two_debits_and_a_credit :
  let v := DonutAnalytics
             (Val (statement_of [debit "Books" 500%float;
                                 debit "Rent" 1500%float;
                                 credit "Refund" 200%float])) in
  map item_amount (slices v) = [1500; 500]%float
  /\ forallb (fun i => negb (synthetic i)) (slices v) = true
  /\ grand_total v = Some 2000%float.
Proof. repeat split. Qed.

Example six_debits :
  let v := DonutAnalytics
             (Val (statement_of [debit "Fuel" 100%float; debit "Books" 200%float;
                                 debit "Rent" 300%float; debit "Phone" 400%float;
                                 debit "Dinner" 500%float;
                                 debit "Flight" 600%float])) in
  map item_amount (slices v) = [600; 500; 400; 300; 300]%float
  /\ map item_description (slices v)
     = ["Flight"; "Dinner"; "Phone"; "Rent"; "Others"]
  /\ grand_total v = Some 2100%float
  /\ map legend_percentage (legend_of v)
     = [Some "28.6"; Some "23.8"; Some "19.0"; Some "14.3"; Some "14.3"].
Proof. repeat split. Qed.

End Rendering.

(** ** Array.prototype.sort: permutation, order, uniqueness *)

Section SortFacts.

Context {A : Type} (cmp : A -> A -> number).

Lemma sort_insert_perm (x : A) (l : list A) :
  Permutation (sort_insert cmp x l) (x :: l).
Proof.
  induction l as [ | y r IH]; simpl; [reflexivity|].
  destruct (sorts_after cmp x y); [|reflexivity].
  rewrite IH. apply perm_swap.
Qed.

Lemma sort_perm (l : list A) : Permutation (sort cmp l) l.
Proof.
  induction l as [ | x r IH]; simpl; [reflexivity|].
  rewrite sort_insert_perm. now apply perm_skip.
Qed.

Lemma sort_insert_sorted (x : A) (s : list A) :
  asym_on cmp (x :: s) -> trans_on cmp (x :: s) ->
  StronglySorted (keeps cmp) s ->
  StronglySorted (keeps cmp) (sort_insert cmp x s).
Proof.
  intros Hasym Htrans Hs.
  induction Hs as [ | y r Hr IH Hy]; simpl.
  - repeat constructor.
  - destruct (sorts_after cmp x y) eqn:E.
    + constructor.
      * apply IH.
        -- intros a b Ha Hb. apply Hasym; simpl in *; tauto.
        -- intros a b c Ha Hb Hc. apply Htrans; simpl in *; tauto.
      * apply List.Forall_forall. intros z Hz.
        apply (Permutation_in _ (sort_insert_perm x r)) in Hz.
        destruct Hz as [<- | Hz].
        -- apply Hasym; simpl; auto.
        -- rewrite List.Forall_forall in Hy. now apply Hy.
    + constructor; [now constructor|].
      constructor; [exact E|].
      apply List.Forall_forall. intros z Hz.
      rewrite List.Forall_forall in Hy.
      apply (Htrans x y z); simpl; auto.
Qed.

Lemma sort_sorted (l : list A) :
  asym_on cmp l -> trans_on cmp l -> StronglySorted (keeps cmp) (sort cmp l).
Proof.
  induction l as [ | x r IH]; intros Hasym Htrans; simpl.
  - constructor.
  - apply sort_insert_sorted.
    + intros a b Ha Hb. apply Hasym.
      * destruct Ha as [<- | Ha]; [now left|].
        right. now apply (Permutation_in _ (sort_perm r)).
      * destruct Hb as [<- | Hb]; [now left|].
        right. now apply (Permutation_in _ (sort_perm r)).
    + intros a b c Ha Hb Hc. apply Htrans.
      * destruct Ha as [<- | Ha]; [now left|].
        right. now apply (Permutation_in _ (sort_perm r)).
      * destruct Hb as [<- | Hb]; [now left|].
        right. now apply (Permutation_in _ (sort_perm r)).
      * destruct Hc as [<- | Hc]; [now left|].
        right. now apply (Permutation_in _ (sort_perm r)).
    + apply IH.
      * intros a b Ha Hb. apply Hasym; now right.
      * intros a b c Ha Hb Hc. apply Htrans; now right.
Qed.

End SortFacts.

Section Uniqueness.

Context {A : Type} (R : A -> A -> Prop).

(** Two sorted arrangements of the same elements agree when the order
    separates different elements. *)
Lemma sorted_perm_unique (s1 s2 : list A) :
  (forall a b, In a s1 -> In b s1 -> R a b -> R b a -> a = b) ->
  StronglySorted R s1 -> StronglySorted R s2 ->
  Permutation s1 s2 -> s1 = s2.
Proof.
  intros Hanti H1. revert s2.
  induction H1 as [ | a r1 Hr1 IH Ha]; intros s2 H2 Hp.
  - now apply Permutation_nil in Hp.
  - destruct H2 as [ | b r2 Hr2 Hb].
    + symmetry in Hp. now apply Permutation_nil in Hp.
    + assert (a = b) as <-.
      { assert (Hab : In a (b :: r2)) by (apply (Permutation_in _ Hp); now left).
        assert (Hba : In b (a :: r1)).
        { symmetry in Hp. apply (Permutation_in _ Hp). now left. }
        destruct Hab as [-> | Hab]; [reflexivity|].
        destruct Hba as [-> | Hba]; [reflexivity|].
        rewrite List.Forall_forall in Ha, Hb.
        apply Hanti; simpl; auto. }
      f_equal. apply IH; auto.
      * intros x y Hx Hy. apply Hanti; now right.
      * now apply Permutation_cons_inv in Hp.
Qed.

End Uniqueness.

(** ** Binary64: the comparator of the sort and the additions *)

Section Binary64.

Local Open Scope Z_scope.

Lemma digits2_size (p : positive) : digits2_pos p = Pos.size p.
Proof. induction p; simpl; congruence. Qed.

Lemma Zdigits2_log2 (m : Z) : 0 < m -> Zdigits2 m = Z.log2 m + 1.
Proof.
  destruct m as [ | p | p]; try lia. intros _. simpl.
  rewrite digits2_size. destruct p; simpl; lia.
Qed.

Lemma iter_pos_nat {A} (f : A -> A) (p : positive) (x : A) :
  SpecFloat.iter_pos f p x = Nat.iter (Pos.to_nat p) f x.
Proof.
  revert x. induction p as [p IH | p IH | ]; intros x;
    cbn [SpecFloat.iter_pos].
  - rewrite !IH, Pos2Nat.inj_xI.
    replace (S (2 * Pos.to_nat p))%nat
      with (Pos.to_nat p + (Pos.to_nat p + 1))%nat by lia.
    rewrite !Nat.iter_add. simpl. reflexivity.
  - rewrite !IH, Pos2Nat.inj_xO.
    replace (2 * Pos.to_nat p)%nat
      with (Pos.to_nat p + Pos.to_nat p)%nat by lia.
    rewrite Nat.iter_add. reflexivity.
  - reflexivity.
Qed.

Lemma shr_1_m (r : shr_record) : 0 <= shr_m r -> shr_m (shr_1 r) = shr_m r / 2.
Proof.
  destruct r as [m b s]. cbn [shr_m]. intros Hm.
  destruct m as [ | [p | p | ] | p]; cbn [shr_1 shr_m]; try lia.
  - reflexivity.
  - rewrite Pos2Z.inj_xI. apply (Z.div_unique _ _ _ 1); lia.
  - rewrite Pos2Z.inj_xO. apply (Z.div_unique _ _ _ 0); lia.
  - reflexivity.
Qed.

Lemma shr_iter_m (k : nat) (r : shr_record) :
  0 <= shr_m r ->
  shr_m (Nat.iter k shr_1 r) = shr_m r / 2 ^ Z.of_nat k.
Proof.
  intros Hm. induction k as [ | k IH].
  - simpl. now rewrite Z.div_1_r.
  - rewrite Nat.iter_succ, shr_1_m, IH.
    + rewrite Nat2Z.inj_succ, Z.pow_succ_r by lia.
      rewrite Z.div_div by lia. f_equal. lia.
    + rewrite IH. apply Z.div_pos; lia.
Qed.

Lemma shr_positive (mrs : shr_record) (e n : Z) :
  0 < shr_m mrs -> n < Zdigits2 (shr_m mrs) ->
  0 < shr_m (fst (shr mrs e n)) /\ e <= snd (shr mrs e n).
Proof.
  intros Hm Hn. unfold shr.
  destruct n as [ | p | p]; simpl; try lia.
  split; [|lia].
  rewrite iter_pos_nat, shr_iter_m, positive_nat_Z by lia.
  rewrite Zdigits2_log2 in Hn by lia.
  apply Z.div_str_pos. split; [lia|].
  transitivity (2 ^ Z.log2 (shr_m mrs)).
  - apply Z.pow_le_mono_r; lia.
  - apply Z.log2_spec. lia.
Qed.

Lemma shr_record_of_loc_m (m : Z) (l : location) :
  shr_m (shr_record_of_loc m l) = m.
Proof. destruct l as [ | []]; reflexivity. Qed.

Lemma shr_fexp_positive (m e : Z) (l : location) :
  0 < m -> -1074 <= e ->
  0 < shr_m (fst (shr_fexp prec emax m e l))
  /\ -1074 <= snd (shr_fexp prec emax m e l).
Proof.
  intros Hm He. unfold shr_fexp.
  destruct (shr_positive (shr_record_of_loc m l) e
              (fexp prec emax (Zdigits2 m + e) - e)) as [H1 H2].
  - now rewrite shr_record_of_loc_m.
  - rewrite shr_record_of_loc_m.
    pose proof (Zdigits2_log2 m Hm). pose proof (Z.log2_nonneg m).
    unfold fexp, SpecFloat.emin, prec, emax. lia.
  - split; [exact H1|lia].
Qed.

Lemma round_nearest_even_positive (m : Z) (l : location) :
  0 < m -> 0 < round_nearest_even m l.
Proof.
  intros Hm. destruct l as [ | []]; simpl; try lia.
  destruct (Z.even m); lia.
Qed.

Lemma binary_round_aux_signed (s : bool) (m e : Z) (l : location) :
  0 < m -> -1074 <= e -> signed s (binary_round_aux prec emax s m e l).
Proof.
  intros Hm He. unfold binary_round_aux.
  pose proof (shr_fexp_positive m e l Hm He) as [H1 H2].
  destruct (shr_fexp prec emax m e l) as [mrs' e']. simpl in H1, H2.
  pose proof (round_nearest_even_positive (shr_m mrs') (loc_of_shr_record mrs') H1) as H3.
  pose proof (shr_fexp_positive _ e' loc_Exact H3 H2) as [H4 H5].
  destruct (shr_fexp prec emax _ e' loc_Exact) as [mrs'' e'']. simpl in H4, H5.
  destruct (shr_m mrs'') as [ | p | p]; try lia.
  destruct (e'' <=? emax - prec); reflexivity.
Qed.

Lemma binary_round_signed (s : bool) (m : positive) (e : Z) :
  -1074 <= e -> signed s (binary_round prec emax s m e).
Proof.
  intros He. unfold binary_round.
  destruct (shl_align m e (fexp prec emax (Z.pos (digits2_pos m) + e)))
    as [mz ez] eqn:E.
  apply binary_round_aux_signed; [lia|].
  unfold shl_align in E.
  assert (-1074 <= fexp prec emax (Z.pos (digits2_pos m) + e)).
  { unfold fexp, SpecFloat.emin, prec, emax. lia. }
  destruct (fexp prec emax (Z.pos (digits2_pos m) + e) - e);
    injection E as <- <-; lia.
Qed.


Lemma valid_finite (s : bool) (m : positive) (e : Z) :
  valid_binary (S754_finite s m e) = true ->
  -1074 <= e <= 971
  /\ Z.log2 (Z.pos m) + 1 <= 53
  /\ e = Z.max (Z.log2 (Z.pos m) + 1 + e - 53) (-1074).
Proof.
  unfold SpecFloat.valid_binary, bounded, canonical_mantissa.
  intros H. apply andb_prop in H as [H1 H2].
  apply Z.eqb_eq in H1. apply Z.leb_le in H2.
  change (Z.pos (digits2_pos m)) with (Zdigits2 (Z.pos m)) in H1.
  rewrite Zdigits2_log2 in H1 by lia.
  unfold fexp, SpecFloat.emin, prec, emax in *. lia.
Qed.

Lemma rank_finite_bound (s : bool) (m : positive) (e : Z) :
  valid_binary (S754_finite s m e) = true ->
  0 < Z.pos m * 2 ^ (e + 1074) < 2 ^ 2098.
Proof.
  intros H. apply valid_finite in H as (He & Hd & _).
  assert (Hm : Z.pos m < 2 ^ 53) by (apply Z.log2_lt_pow2; lia).
  assert (Hp : 0 < 2 ^ (e + 1074)) by (apply Z.pow_pos_nonneg; lia).
  split; [lia|].
  apply Z.lt_le_trans with (2 ^ 53 * 2 ^ (e + 1074)).
  - apply Z.mul_lt_mono_pos_r; lia.
  - rewrite <- Z.pow_add_r by lia. apply Z.pow_le_mono_r; lia.
Qed.

Lemma pos_iter_xO (m d : positive) :
  Z.pos (Pos.iter xO m d) = Z.pos m * 2 ^ Z.pos d.
Proof.
  induction d as [ | d IH] using Pos.peano_ind.
  - simpl. lia.
  - rewrite Pos.iter_succ, Pos2Z.inj_xO, IH, Pos2Z.inj_succ, Z.pow_succ_r; lia.
Qed.

Lemma shl_align_fst (m : positive) (e ez : Z) :
  ez <= e -> Z.pos (fst (shl_align m e ez)) = Z.pos m * 2 ^ (e - ez).
Proof.
  intros H. unfold shl_align.
  destruct (ez - e) as [ | d | d] eqn:E; cbn [fst].
  - replace (e - ez) with 0 by lia. lia.
  - lia.
  - rewrite pos_iter_xO. f_equal. f_equal. lia.
Qed.

(** Whether a float is above zero. *)
Lemma positive_signed (s : bool) (x : spec_float) :
  signed s x -> SFltb (S754_zero false) x = negb s.
Proof.
  destruct x as [ | s' | | s' m e]; simpl; try contradiction;
    intros ->; now destruct s.
Qed.

Lemma positive_normalize (d e : Z) :
  -1074 <= e ->
  SFltb (S754_zero false) (binary_normalize prec emax d e false) = (0 <? d).
Proof.
  intros He. destruct d as [ | p | p]; cbn [binary_normalize].
  - reflexivity.
  - now rewrite (positive_signed false) by now apply binary_round_signed.
  - now rewrite (positive_signed true) by now apply binary_round_signed.
Qed.

Lemma cond_Zopp_mul (s : bool) (a b : Z) :
  cond_Zopp s a * b = cond_Zopp s (a * b).
Proof. destruct s; simpl; lia. Qed.

Lemma aligned_rank (s : bool) (m : positive) (e ez : Z) :
  -1074 <= ez <= e ->
  cond_Zopp s (Z.pos (fst (shl_align m e ez))) * 2 ^ (ez + 1074)
  = rank (S754_finite s m e).
Proof.
  intros H. rewrite cond_Zopp_mul, shl_align_fst by lia. simpl. f_equal.
  rewrite <- Z.mul_assoc, <- Z.pow_add_r by lia. do 2 f_equal. lia.
Qed.

(** The comparator's test [b - a > 0] compares ranks. *)
Lemma sub_positive_rank (A B : spec_float) :
  valid_binary A = true -> valid_binary B = true ->
  A <> S754_nan -> B <> S754_nan ->
  SFltb (S754_zero false) (SF64sub B A) = (rank A <? rank B).
Proof.
  intros VA VB NA NB.
  destruct A as [sa | sa | | sa ma ea]; try contradiction;
    destruct B as [sb | sb | | sb mb eb]; try contradiction.
  - destruct sa, sb; reflexivity.
  - destruct sb; reflexivity.
  - pose proof (rank_finite_bound sb mb eb VB).
    destruct sb; simpl; symmetry; [apply Z.ltb_ge|apply Z.ltb_lt]; lia.
  - destruct sa; reflexivity.
  - destruct sa, sb; reflexivity.
  - pose proof (rank_finite_bound sb mb eb VB).
    destruct sa, sb; simpl; symmetry;
      first [apply Z.ltb_ge; lia | apply Z.ltb_lt; lia].
  - pose proof (rank_finite_bound sa ma ea VA).
    destruct sa; simpl; symmetry; [apply Z.ltb_lt|apply Z.ltb_ge]; lia.
  - pose proof (rank_finite_bound sa ma ea VA).
    destruct sa, sb; simpl; symmetry;
      first [apply Z.ltb_ge; lia | apply Z.ltb_lt; lia].
  - pose proof (valid_finite _ _ _ VA) as (HeA & _).
    pose proof (valid_finite _ _ _ VB) as (HeB & _).
    unfold SF64sub, SFsub.
    rewrite positive_normalize by lia.
    rewrite <- (aligned_rank sa ma ea (Z.min eb ea)) by lia.
    rewrite <- (aligned_rank sb mb eb (Z.min eb ea)) by lia.
    assert (Hp : 0 < 2 ^ (Z.min eb ea + 1074)) by (apply Z.pow_pos_nonneg; lia).
    destruct (Z.ltb_spec 0
                (cond_Zopp sb (Z.pos (fst (shl_align mb eb (Z.min eb ea))))
                 - cond_Zopp sa (Z.pos (fst (shl_align ma ea (Z.min eb ea))))));
      symmetry; [apply Z.ltb_lt|apply Z.ltb_ge]; nia.
Qed.


Lemma rank_inj (A B : spec_float) :
  valid_binary A = true -> valid_binary B = true ->
  A <> S754_nan -> B <> S754_nan ->
  rank A = rank B ->
  A = B \/ (exists s1 s2, A = S754_zero s1 /\ B = S754_zero s2).
Proof.
  intros VA VB NA NB.
  destruct A as [sa | sa | | sa ma ea]; try contradiction;
    destruct B as [sb | sb | | sb mb eb]; try contradiction.
  - intros _. right. now exists sa, sb.
  - destruct sb; simpl; lia.
  - pose proof (rank_finite_bound sb mb eb VB). destruct sb; simpl; lia.
  - destruct sa; simpl; lia.
  - destruct sa, sb; simpl; intros H; try lia; now left.
  - pose proof (rank_finite_bound sb mb eb VB).
    destruct sa, sb; simpl; lia.
  - pose proof (rank_finite_bound sa ma ea VA). destruct sa; simpl; lia.
  - pose proof (rank_finite_bound sa ma ea VA).
    destruct sa, sb; simpl; lia.
  - pose proof (rank_finite_bound sa ma ea VA) as BA.
    pose proof (rank_finite_bound sb mb eb VB) as BB.
    pose proof (valid_finite _ _ _ VA) as (HeA & _ & HcA).
    pose proof (valid_finite _ _ _ VB) as (HeB & _ & HcB).
    intros H. left.
    assert (Hs : sa = sb) by (destruct sa, sb; simpl in H; lia || reflexivity).
    subst sb.
    assert (Hm : Z.pos ma * 2 ^ (ea + 1074) = Z.pos mb * 2 ^ (eb + 1074))
      by (destruct sa; simpl in H; lia).
    assert (Hl : Z.log2 (Z.pos ma) + ea = Z.log2 (Z.pos mb) + eb).
    { apply (f_equal Z.log2) in Hm.
      rewrite !Z.log2_mul_pow2 in Hm by lia. lia. }
    assert (He : ea = eb) by lia. subst eb.
    assert (Hp : 0 < 2 ^ (ea + 1074)) by (apply Z.pow_pos_nonneg; lia).
    assert (Z.pos ma = Z.pos mb) by nia.
    congruence.
Qed.

End Binary64.

Section Numbers.

Lemma after_place (a b : number) :
  is_number a -> is_number b -> after a b = (place a <? place b)%Z.
Proof.
  intros Ha Hb. unfold after, place.
  rewrite ltb_spec, sub_spec.
  change (Prim2SF 0%float) with (S754_zero false).
  apply sub_positive_rank; auto using Prim2SF_valid.
Qed.

(** The place of a finite number is its value, scaled by 2^1074. *)
Lemma place_value (a : number) (q : Q) :
  exact a = Some q -> (inject_Z (place a) == q * 2 ^ 1074)%Q.
Proof.
  unfold exact, place. pose proof (Prim2SF_valid a) as V.
  destruct (Prim2SF a) as [s | s | | s m e]; try discriminate.
  - intros [= <-]. simpl. ring.
  - intros [= <-]. apply valid_finite in V as (He & _).
    cbn [rank]. rewrite <- cond_Zopp_mul, inject_Z_mult.
    rewrite Zpower_Qpower by lia.
    rewrite Qpower_plus by discriminate.
    change (inject_Z 2) with 2%Q.
    generalize (2 ^ e)%Q, (2 ^ 1074)%Q. intros x y. ring.
Qed.

Lemma place_inj (a b : number) :
  is_number a -> is_number b -> place a = place b ->
  a = b \/ (is_zero a /\ is_zero b).
Proof.
  intros Ha Hb H.
  destruct (rank_inj (Prim2SF a) (Prim2SF b)) as [E | (s1 & s2 & E1 & E2)];
    auto using Prim2SF_valid.
  - left. now apply Prim2SF_inj.
  - right. split; eexists; eassumption.
Qed.

Lemma nan_unique (a : number) : ~ is_number a -> a = nan.
Proof.
  intros H. apply Prim2SF_inj. change (Prim2SF nan) with S754_nan.
  unfold is_number in H. destruct (Prim2SF a); try reflexivity;
    exfalso; apply H; discriminate.
Qed.

Lemma add_nan_l (x : number) : (nan + x)%float = nan.
Proof.
  apply Prim2SF_inj. rewrite add_spec. change (Prim2SF nan) with S754_nan.
  reflexivity.
Qed.

Lemma add_nan_r (x : number) : (x + nan)%float = nan.
Proof.
  apply Prim2SF_inj. rewrite add_spec. change (Prim2SF nan) with S754_nan.
  now destruct (Prim2SF x).
Qed.

(** Adding a zero of either sign gives the same result, unless the other
    operand is -0. *)
Lemma add_zero_sign (acc z1 z2 : number) :
  Prim2SF acc <> S754_zero true -> is_zero z1 -> is_zero z2 ->
  (acc + z1)%float = (acc + z2)%float.
Proof.
  intros Hacc [s1 H1] [s2 H2]. apply Prim2SF_inj.
  rewrite !add_spec, H1, H2.
  destruct (Prim2SF acc) as [[] | | | ]; try reflexivity.
  - contradiction.
  - now destruct s1, s2.
Qed.

(** A sum is -0 only if its first operand is. *)
Lemma add_not_neg_zero (acc x : number) :
  Prim2SF acc <> S754_zero true -> Prim2SF (acc + x)%float <> S754_zero true.
Proof.
  intros Hacc. rewrite add_spec.
  pose proof (Prim2SF_valid acc) as VA. pose proof (Prim2SF_valid x) as VX.
  destruct (Prim2SF acc) as [[] | sa | | sa ma ea];
    destruct (Prim2SF x) as [sx | sx | | sx mx ex];
    try contradiction; try discriminate;
    try (destruct sx; discriminate); try (destruct sa, sx; discriminate).
  pose proof (valid_finite _ _ _ VA) as (HeA & _).
  pose proof (valid_finite _ _ _ VX) as (HeX & _).
  unfold SF64add, SFadd.
  destruct (cond_Zopp sa (Z.pos (fst (shl_align ma ea (Z.min ea ex))))
            + cond_Zopp sx (Z.pos (fst (shl_align mx ex (Z.min ea ex)))))%Z
    as [ | p | p]; cbn [binary_normalize]; [discriminate| | ].
  - pose proof (binary_round_signed false p (Z.min ea ex)) as S.
    destruct (binary_round prec emax false p (Z.min ea ex));
      try discriminate. simpl in S. lia.
  - pose proof (binary_round_signed true p (Z.min ea ex)) as S.
    destruct (binary_round prec emax true p (Z.min ea ex));
      try discriminate. simpl in S. lia.
Qed.

End Numbers.

(** ** The grand total does not depend on the order of the input *)

Section Reordering.

Lemma filter_perm {A} (f : A -> bool) (l l' : list A) :
  Permutation l l' -> Permutation (List.filter f l) (List.filter f l').
Proof.
  induction 1 as [ | x l l' _ IH | x y l | l l' l'' _ IH1 _ IH2]; simpl.
  - reflexivity.
  - destruct (f x); [now apply perm_skip|exact IH].
  - destruct (f x), (f y); try reflexivity. apply perm_swap.
  - now rewrite IH1.
Qed.

Lemma sum_amounts_reduce (debit : list Transaction) :
  sum_amounts debit = reduce_add 0%float (map amount debit).
Proof.
  unfold sum_amounts, reduce_add. generalize 0%float.
  induction debit as [ | t r IH]; intros acc; simpl; [reflexivity|].
  apply IH.
Qed.

Lemma sorts_after_amount (t u : Transaction) :
  sorts_after by_amount_desc t u = after (amount t) (amount u).
Proof. reflexivity. Qed.

Local Open Scope Z_scope.

Lemma numbers_or_nan (l : list number) :
  List.Forall is_number l \/ List.Exists (fun x => ~ is_number x) l.
Proof.
  induction l as [ | x r [IH | IH]].
  - left. constructor.
  - assert (D : is_number x \/ ~ is_number x).
    { unfold is_number. destruct (Prim2SF x); (left; discriminate) || (right; tauto). }
    destruct D as [D | D]; [left|right]; now constructor.
  - right. now apply List.Exists_cons_tl.
Qed.

Lemma reduce_add_from_nan (l : list number) : reduce_add nan l = nan.
Proof.
  induction l as [ | x r IH]; simpl; [reflexivity|].
  now rewrite add_nan_l.
Qed.

(** A NaN among the amounts makes the sum NaN, wherever it stands. *)
Lemma reduce_add_with_nan (l : list number) (acc : number) :
  List.Exists (fun x => ~ is_number x) l -> reduce_add acc l = nan.
Proof.
  intros H. revert acc. induction H as [x r Hx | x r _ IH]; intros acc; simpl.
  - rewrite (nan_unique x Hx), add_nan_r. apply reduce_add_from_nan.
  - apply IH.
Qed.

(** The sum does not see which of the two zeros stands in a place. *)
Lemma reduce_add_similar (l1 l2 : list number) :
  Forall2 similar l1 l2 ->
  forall acc, Prim2SF acc <> S754_zero true ->
  reduce_add acc l1 = reduce_add acc l2.
Proof.
  induction 1 as [ | x y r1 r2 Hxy _ IH]; intros acc Hacc; simpl.
  - reflexivity.
  - assert (E : (acc + x)%float = (acc + y)%float).
    { destruct Hxy as [-> | [Hx Hy]]; [reflexivity|].
      now apply add_zero_sign. }
    rewrite <- E. apply IH. now apply add_not_neg_zero.
Qed.

Lemma sorts_after_place (t u : Transaction) :
  is_number (amount t) -> is_number (amount u) ->
  sorts_after by_amount_desc t u = (place (amount t) <? place (amount u)).
Proof. intros Ht Hu. rewrite sorts_after_amount. now apply after_place. Qed.

Lemma numbers_in (l : list Transaction) (t : Transaction) :
  List.Forall is_number (map amount l) -> In t l -> is_number (amount t).
Proof.
  intros H Ht. rewrite List.Forall_forall in H. apply H. now apply in_map.
Qed.

(** On numbers the comparator sorts into descending order. *)
Lemma sort_descending (l : list Transaction) :
  List.Forall is_number (map amount l) ->
  StronglySorted (fun t u => place (amount u) <= place (amount t))
    (sort by_amount_desc l).
Proof.
  intros Hn.
  assert (Hs : StronglySorted (keeps by_amount_desc) (sort by_amount_desc l)).
  { apply sort_sorted.
    - intros t u Ht Hu. rewrite !sorts_after_place by eauto using numbers_in.
      intros H. apply Z.ltb_lt in H. apply Z.ltb_ge. lia.
    - intros t u w Ht Hu Hw. unfold keeps.
      rewrite !sorts_after_place by eauto using numbers_in.
      intros H1 H2. apply Z.ltb_ge in H1, H2. apply Z.ltb_ge. lia. }
  assert (Hin : forall t, In t (sort by_amount_desc l) -> is_number (amount t)).
  { intros t Ht. apply (numbers_in l); [exact Hn|].
    revert Ht. apply Permutation_in, sort_perm. }
  induction Hs as [ | t r Hr IH Ht]; constructor.
  - apply IH. intros u Hu. apply Hin. now right.
  - rewrite List.Forall_forall in Ht. apply List.Forall_forall.
    intros u Hu. specialize (Ht u Hu). unfold keeps in Ht.
    rewrite sorts_after_place in Ht.
    + apply Z.ltb_ge in Ht. exact Ht.
    + apply Hin. now left.
    + apply Hin. now right.
Qed.

Lemma sorted_map {A B} (f : A -> B) (R : B -> B -> Prop) (l : list A) :
  StronglySorted (fun x y => R (f x) (f y)) l -> StronglySorted R (map f l).
Proof.
  induction 1 as [ | x r Hr IH Hx]; simpl; constructor; [exact IH|].
  rewrite List.Forall_forall in Hx. apply List.Forall_forall.
  intros b Hb. apply in_map_iff in Hb as (y & <- & Hy). now apply Hx.
Qed.

(** The places of the sorted amounts do not depend on the arrangement of
    the input. *)
Lemma sorted_places_invariant (l l' : list Transaction) :
  Permutation l l' ->
  List.Forall is_number (map amount l) ->
  map (fun t => place (amount t)) (sort by_amount_desc l)
  = map (fun t => place (amount t)) (sort by_amount_desc l').
Proof.
  intros Hp Hn.
  assert (Hn' : List.Forall is_number (map amount l')).
  { revert Hn. apply Permutation_Forall. now apply Permutation_map. }
  apply (sorted_perm_unique (fun z1 z2 => z2 <= z1)).
  - intros a b _ _. lia.
  - apply (sorted_map (fun t => place (amount t)) (fun z1 z2 => z2 <= z1)).
    now apply sort_descending.
  - apply (sorted_map (fun t => place (amount t)) (fun z1 z2 => z2 <= z1)).
    now apply sort_descending.
  - apply Permutation_map. now rewrite !sort_perm.
Qed.

Lemma similar_of_places (s1 s2 : list number) :
  List.Forall is_number s1 -> List.Forall is_number s2 ->
  map place s1 = map place s2 -> Forall2 similar s1 s2.
Proof.
  intros H1. revert s2. induction H1 as [ | x r Hx _ IH]; intros s2 H2 E.
  - destruct s2; [constructor|discriminate].
  - destruct H2 as [ | y r' Hy Hr']; [discriminate|].
    simpl in E. injection E as Exy Er.
    constructor; [|now apply IH].
    now apply place_inj.
Qed.

(** The sum of the sorted amounts is the same for every arrangement of
    the input. *)
Lemma sorted_sum_invariant (l l' : list Transaction) :
  Permutation l l' ->
  sum_amounts (sort by_amount_desc l) = sum_amounts (sort by_amount_desc l').
Proof.
  intros Hp. rewrite !sum_amounts_reduce.
  destruct (numbers_or_nan (map amount l)) as [Hn | Hnan].
  - assert (Hn' : List.Forall is_number (map amount l')).
    { revert Hn. apply Permutation_Forall. now apply Permutation_map. }
    apply reduce_add_similar; [|discriminate].
    apply similar_of_places.
    + revert Hn. apply Permutation_Forall, Permutation_map.
      symmetry. apply sort_perm.
    + revert Hn'. apply Permutation_Forall, Permutation_map.
      symmetry. apply sort_perm.
    + rewrite !map_map. now apply sorted_places_invariant.
  - rewrite !reduce_add_with_nan; [reflexivity| | ].
    + revert Hnan. apply Permutation_Exists, Permutation_map.
      rewrite sort_perm. now symmetry in Hp |- *.
    + revert Hnan. apply Permutation_Exists, Permutation_map.
      symmetry. apply sort_perm.
Qed.

(** C5: the grand total is the same for every reordering of the
    transaction list.  The amounts are added up after the stable descending
    sort, which brings them into one sequence whatever the input order (up
    to the sign of zeros, which the sum does not see); and a NaN amount
    makes the total NaN wherever it stands. *)
Theorem grand_total_permutation_invariant
    (d : StatementResult) (txns txns' : list Transaction) :
  Permutation txns txns' ->
  grand_total (DonutAnalytics (Val (with_transactions d txns)))
  = grand_total (DonutAnalytics (Val (with_transactions d txns'))).
Proof.
  intros Hp.
  assert (Hf : Permutation (List.filter is_debit txns) (List.filter is_debit txns'))
    by now apply filter_perm.
  pose proof (sorted_sum_invariant _ _ Hf) as Hs.
  assert (Hl : List.length (debitTransactions txns)
               = List.length (debitTransactions txns')).
  { unfold debitTransactions. rewrite !sort_length.
    now apply Permutation_length. }
  rewrite !DonutAnalytics_cases. simpl.
  destruct txns as [ | t r].
  { apply Permutation_nil in Hp. now subst. }
  destruct txns' as [ | t' r'].
  { symmetry in Hp. now apply Permutation_nil in Hp. }
  fold (debitTransactions (t :: r)) in Hs.
  fold (debitTransactions (t' :: r')) in Hs.
  destruct (debitTransactions (t :: r)) as [ | x s];
    destruct (debitTransactions (t' :: r')) as [ | x' s'];
    try discriminate Hl; [reflexivity|].
  simpl. unfold totalSpent. now rewrite Hs.
Qed.

End Reordering.

Lemma grand_total_permutation_invariant_witness :
  let txns := [debit "Tea" 0.1%float; credit "Refund" 5%float;
               debit "Bus" 0.2%float; debit "Snack" 0.3%float] in
  Permutation txns (rev txns)
  /\ grand_total (DonutAnalytics (Val (with_transactions (statement_of []) txns)))
     = grand_total
         (DonutAnalytics (Val (with_transactions (statement_of []) (rev txns)))).
Proof.
  intros txns.
  assert (Hp : Permutation txns (rev txns)) by apply Permutation_rev.
  split; [exact Hp|].
  exact (grand_total_permutation_invariant (statement_of []) txns (rev txns) Hp).
Defined.

(** ** Sums without rounding *)

Section Exactness.

Local Open Scope Q_scope.

Lemma Qsum_app (l l' : list Q) : Qsum (l ++ l') == Qsum l + Qsum l'.
Proof.
  induction l as [ | x l IH]; simpl.
  - ring.
  - rewrite IH. ring.
Qed.

Lemma Qsum_perm (l l' : list Q) : Permutation l l' -> Qsum l == Qsum l'.
Proof.
  induction 1 as [ | x l l' _ IH | x y l | l l' l'' _ IH1 _ IH2]; simpl.
  - reflexivity.
  - now rewrite IH.
  - ring.
  - now rewrite IH1.
Qed.

Lemma exact_value (x : number) (q : Q) : exact x = Some q -> value x = q.
Proof. unfold value. now intros ->. Qed.

Lemma add_exact_inv (a b : number) :
  add_exact a b = true ->
  exists p q r,
    exact a = Some p /\ exact b = Some q /\ exact (a + b)%float = Some r
    /\ p + q == r.
Proof.
  unfold add_exact.
  destruct (exact a) as [p|]; [|discriminate].
  destruct (exact b) as [q|]; [|discriminate].
  destruct (exact (a + b)%float) as [r|]; [|discriminate].
  intros H. exists p, q, r. repeat split. now apply Qeq_bool_iff.
Qed.

(** When every addition is exact, the result of the reduce has the
    mathematical sum as its value. *)
Lemma reduce_exact_value (l : list number) :
  forall (acc : number) (q : Q),
    exact acc = Some q ->
    reduce_exact acc l = true ->
    exists r, exact (reduce_add acc l) = Some r
              /\ r == q + Qsum (map value l).
Proof.
  induction l as [ | x l IH]; intros acc q Hacc H; simpl in *.
  - exists q. split; [exact Hacc|ring].
  - apply andb_prop in H as [Hadd Hrest].
    apply add_exact_inv in Hadd as (p & qx & r & Hp & Hx & Hr & Heq).
    rewrite Hacc in Hp. injection Hp as <-.
    destruct (IH _ _ Hr Hrest) as (r' & Hr' & Heq').
    exists r'. split; [exact Hr'|].
    rewrite Heq', <- Heq, (exact_value _ _ Hx). ring.
Qed.

Lemma reduce_exact_from_zero (l : list number) :
  reduce_exact 0%float l = true ->
  exists r, exact (reduce_add 0%float l) = Some r /\ r == Qsum (map value l).
Proof.
  intros H.
  destruct (reduce_exact_value l 0%float 0 eq_refl H) as (r & Hr & Heq).
  exists r. split; [exact Hr|]. rewrite Heq. ring.
Qed.

Lemma sum_items_reduce (items : list ChartItem) :
  sum_items items = reduce_add 0%float (map item_amount items).
Proof.
  unfold sum_items, reduce_add. generalize 0%float.
  induction items as [ | i r IH]; intros acc; simpl; [reflexivity|].
  apply IH.
Qed.

Lemma chartItems_amounts (debit : list Transaction) :
  map item_amount (chartItems debit)
  = match otherItems debit with
    | [] => map amount (topItems debit)
    | _ :: _ => (map amount (topItems debit) ++ [otherItemsSum debit])%list
    end.
Proof.
  unfold chartItems.
  destruct (otherItems debit) as [ | t r]; simpl.
  - rewrite map_map. reflexivity.
  - rewrite map_app, map_map. reflexivity.
Qed.

(** The grand total against the sum of the slices, for a sorted debit
    list: equal as numbers as soon as the three reduces are exact. *)
Lemma total_vs_slices_exact (debit : list Transaction) :
  reduce_exact 0%float (map amount debit) = true ->
  reduce_exact 0%float (map amount (otherItems debit)) = true ->
  reduce_exact 0%float (map item_amount (chartItems debit)) = true ->
  same_value (totalSpent debit) (sum_items (chartItems debit)).
Proof.
  intros Ht Ho Hs.
  apply reduce_exact_from_zero in Ht as (rt & Hrt & Et).
  apply reduce_exact_from_zero in Ho as (ro & Hro & Eo).
  apply reduce_exact_from_zero in Hs as (rs & Hrs & Es).
  unfold same_value, totalSpent.
  rewrite sum_amounts_reduce, Hrt, sum_items_reduce, Hrs.
  rewrite Et, Es, chartItems_amounts.
  assert (Hsplit : Qsum (map value (map amount debit))
                   == Qsum (map value (map amount (topItems debit)))
                      + Qsum (map value (map amount (otherItems debit)))).
  { rewrite <- Qsum_app, <- !map_app. unfold topItems, otherItems.
    now rewrite take_drop. }
  destruct (otherItems debit) as [ | t r] eqn:E.
  - rewrite Hsplit. simpl. ring.
  - rewrite Hsplit, map_app, Qsum_app. simpl.
    unfold otherItemsSum. rewrite sum_amounts_reduce, E.
    rewrite (exact_value _ _ Hro), Eo. simpl. ring.
Qed.

End Exactness.

(** ** Whole-number amounts: sums without rounding *)

Section WholeNumbers.

Local Open Scope Z_scope.

Lemma shr_1_even (z : Z) :
  0 < z -> Z.even z = true ->
  shr_1 {| shr_m := z; shr_r := false; shr_s := false |}
  = {| shr_m := z / 2; shr_r := false; shr_s := false |}.
Proof.
  intros Hz He.
  destruct z as [ | [p | p | ] | p]; try lia; try discriminate.
  cbn [shr_1 orb]. f_equal.
  rewrite Pos2Z.inj_xO. apply (Z.div_unique _ _ _ 0); lia.
Qed.

Lemma shr_iter_exact (k : nat) (z : Z) :
  0 < z -> (2 ^ Z.of_nat k | z) ->
  Nat.iter k shr_1 {| shr_m := z; shr_r := false; shr_s := false |}
  = {| shr_m := z / 2 ^ Z.of_nat k; shr_r := false; shr_s := false |}.
Proof.
  intros Hz. induction k as [ | k IH]; intros Hd.
  - simpl. now rewrite Z.div_1_r.
  - rewrite Nat.iter_succ.
    destruct Hd as [q Hq].
    rewrite Nat2Z.inj_succ, Z.pow_succ_r in Hq by lia.
    assert (Hp : 0 < 2 ^ Z.of_nat k) by (apply Z.pow_pos_nonneg; lia).
    rewrite IH by (exists (q * 2); lia).
    assert (E : z / 2 ^ Z.of_nat k = q * 2).
    { symmetry. apply Z.div_unique_exact; lia. }
    assert (E' : z / 2 ^ Z.of_nat (S k) = q).
    { rewrite Nat2Z.inj_succ, Z.pow_succ_r by lia.
      symmetry. apply Z.div_unique_exact; lia. }
    rewrite E', E. rewrite shr_1_even.
    + f_equal. apply Z.div_mul. lia.
    + nia.
    + rewrite Z.even_mul. apply orb_true_r.
Qed.


Lemma log2_of_place (m e K : Z) :
  0 < m -> 0 < K -> -1074 <= e ->
  m * 2 ^ (e + 1074) = K * 2 ^ 1074 ->
  Z.log2 m + e = Z.log2 K.
Proof.
  intros Hm HK He H. apply (f_equal Z.log2) in H.
  rewrite !Z.log2_mul_pow2 in H by lia. lia.
Qed.

(** Shifting out zero bits only: the mantissa [m] of a whole number of at
    most 53 bits, brought to the exponent of its binade. *)
Lemma shr_fexp_exact (m e K : Z) :
  0 < m -> 0 < K <= 2 ^ 53 -> -1074 <= e ->
  m * 2 ^ (e + 1074) = K * 2 ^ 1074 ->
  e <= Z.log2 K - 52 ->
  exists m1,
    shr_fexp prec emax m e loc_Exact
    = ({| shr_m := m1; shr_r := false; shr_s := false |}, Z.log2 K - 52)
    /\ 0 < m1
    /\ m1 * 2 ^ (Z.log2 K - 52 + 1074) = K * 2 ^ 1074.
Proof.
  intros Hm HK He H Hle.
  pose proof (log2_of_place m e K Hm (proj1 HK) He H) as HL.
  assert (HL53 : 0 <= Z.log2 K <= 53).
  { split; [apply Z.log2_nonneg|].
    destruct (Z.eq_dec K (2 ^ 53)) as [-> | Hne]; [reflexivity|].
    assert (Z.log2 K < 53) by (apply Z.log2_lt_pow2; lia). lia. }
  set (e0 := Z.log2 K - 52) in *.
  set (n := e0 - e).
  assert (Hn : 0 <= n) by (unfold n; lia).
  assert (Hdiv : (2 ^ n | m)).
  { destruct (Z.eq_dec n 0) as [-> | Hn0]; [exists m; lia|].
    assert (He0 : e <= 0) by (unfold n, e0 in *; lia).
    assert (Hm' : m = K * 2 ^ (- e)).
    { assert (Hp : 0 < 2 ^ (e + 1074)) by (apply Z.pow_pos_nonneg; lia).
      replace (2 ^ 1074) with (2 ^ (- e) * 2 ^ (e + 1074)) in H
        by (rewrite <- Z.pow_add_r by lia; f_equal; lia).
      nia. }
    destruct (Z_le_gt_dec e0 0) as [Hneg | Hpos].
    - exists (K * 2 ^ (- e0)).
      rewrite Hm', <- Z.mul_assoc, <- Z.pow_add_r by (unfold n; lia).
      do 2 f_equal. unfold n. lia.
    - assert (HK53 : K = 2 ^ 53).
      { assert (HL' : Z.log2 K = 53) by (unfold e0 in Hpos; lia).
        pose proof (Z.log2_spec K (proj1 HK)) as [Hlo _].
        rewrite HL' in Hlo. lia. }
      exists (2 ^ 52). rewrite Hm', HK53.
      rewrite <- !Z.pow_add_r by (unfold n, e0 in *; lia).
      f_equal. unfold n, e0. rewrite HK53. change (Z.log2 (2 ^ 53)) with 53. lia. }
  destruct Hdiv as [m1 Hm1].
  assert (Hp : 0 < 2 ^ n) by (apply Z.pow_pos_nonneg; lia).
  assert (Hm1pos : 0 < m1) by nia.
  exists m1. split; [|split; [exact Hm1pos|]].
  - unfold shr_fexp.
    assert (Hf : fexp prec emax (Zdigits2 m + e) - e = n).
    { rewrite Zdigits2_log2 by lia.
      unfold fexp, SpecFloat.emin, prec, emax, n, e0. lia. }
    rewrite Hf. cbn [shr_record_of_loc]. unfold shr.
    destruct n as [ | np | np] eqn:En; try lia.
    + f_equal; [|unfold n in En; lia]. f_equal. lia.
    + rewrite iter_pos_nat, shr_iter_exact, positive_nat_Z.
      * f_equal; [|unfold n in En; lia]. f_equal. subst m.
        now apply Z.div_mul, Z.neq_sym, Z.lt_neq.
      * lia.
      * rewrite positive_nat_Z. now exists m1.
  - rewrite <- H, Hm1.
    rewrite <- Z.mul_assoc, <- Z.pow_add_r by (unfold n in *; lia).
    do 2 f_equal. unfold n. lia.
Qed.


Lemma binary_round_aux_exact (s : bool) (m e K : Z) :
  0 < m -> 0 < K <= 2 ^ 53 -> -1074 <= e ->
  m * 2 ^ (e + 1074) = K * 2 ^ 1074 ->
  e <= Z.log2 K - 52 ->
  exists m' e',
    binary_round_aux prec emax s m e loc_Exact = S754_finite s m' e'
    /\ Z.pos m' * 2 ^ (e' + 1074) = K * 2 ^ 1074.
Proof.
  intros Hm HK He H Hle.
  assert (HL : 0 <= Z.log2 K <= 53).
  { split; [apply Z.log2_nonneg|].
    destruct (Z.eq_dec K (2 ^ 53)) as [-> | Hne]; [reflexivity|].
    assert (Z.log2 K < 53) by (apply Z.log2_lt_pow2; lia). lia. }
  destruct (shr_fexp_exact m e K Hm HK He H Hle) as (m1 & E1 & Hm1 & V1).
  destruct (shr_fexp_exact m1 (Z.log2 K - 52) K Hm1 HK ltac:(lia) V1 ltac:(lia))
    as (m2 & E2 & Hm2 & V2).
  unfold binary_round_aux. rewrite E1. cbn [shr_m loc_of_shr_record round_nearest_even].
  rewrite E2. cbn [shr_m].
  destruct m2 as [ | p2 | p2]; try lia.
  replace (Z.log2 K - 52 <=? emax - prec) with true
    by (symmetry; apply Z.leb_le; unfold emax, prec; lia).
  now exists p2, (Z.log2 K - 52).
Qed.

Lemma binary_round_exact (s : bool) (p : positive) (e K : Z) :
  -1074 <= e -> 0 < K <= 2 ^ 53 ->
  Z.pos p * 2 ^ (e + 1074) = K * 2 ^ 1074 ->
  exists m' e',
    binary_round prec emax s p e = S754_finite s m' e'
    /\ Z.pos m' * 2 ^ (e' + 1074) = K * 2 ^ 1074.
Proof.
  intros He HK H.
  pose proof (log2_of_place (Z.pos p) e K ltac:(lia) (proj1 HK) He H) as HL.
  assert (HL53 : 0 <= Z.log2 K) by apply Z.log2_nonneg.
  unfold binary_round.
  assert (Hf : fexp prec emax (Z.pos (digits2_pos p) + e) = Z.log2 K - 52).
  { change (Z.pos (digits2_pos p)) with (Zdigits2 (Z.pos p)).
    rewrite Zdigits2_log2 by lia.
    unfold fexp, SpecFloat.emin, prec, emax. lia. }
  rewrite Hf.
  destruct (shl_align p e (Z.log2 K - 52)) as [mz ez] eqn:E.
  assert (Hz : Z.pos mz * 2 ^ (ez + 1074) = K * 2 ^ 1074
               /\ -1074 <= ez <= Z.log2 K - 52).
  { unfold shl_align in E.
    destruct (Z.log2 K - 52 - e) as [ | d | d] eqn:Ed;
      injection E as <- <-; try (split; [exact H|lia]).
    rewrite pos_iter_xO. split; [|lia].
    rewrite <- H, <- Z.mul_assoc, <- Z.pow_add_r by lia.
    do 2 f_equal. lia. }
  destruct Hz as [Hv Hez].
  apply (binary_round_aux_exact s (Z.pos mz) ez K); lia.
Qed.

Lemma SFadd_whole (A B : spec_float) (ka kb : Z) :
  valid_binary A = true -> valid_binary B = true ->
  finite A -> finite B ->
  rank A = ka * 2 ^ 1074 -> rank B = kb * 2 ^ 1074 ->
  0 <= ka -> 0 <= kb -> ka + kb <= 2 ^ 53 ->
  finite (SF64add A B) /\ rank (SF64add A B) = (ka + kb) * 2 ^ 1074.
Proof.
  intros VA VB FA FB RA RB Ha Hb Hsum.
  destruct A as [sa | sa | | sa ma ea]; try contradiction;
    destruct B as [sb | sb | | sb mb eb]; try contradiction.
  - cbn [rank] in RA, RB.
    assert (ka = 0) by lia. assert (kb = 0) by lia. subst.
    destruct sa, sb; split; try exact I; reflexivity.
  - cbn [rank] in RA. assert (ka = 0) by lia. subst.
    unfold SF64add, SFadd. split; [exact I|].
    rewrite Z.add_0_l. exact RB.
  - cbn [rank] in RB. assert (kb = 0) by lia. subst.
    unfold SF64add, SFadd. split; [exact I|].
    rewrite Z.add_0_r. exact RA.
  - pose proof (rank_finite_bound sa ma ea VA) as BA.
    pose proof (rank_finite_bound sb mb eb VB) as BB.
    pose proof (valid_finite _ _ _ VA) as (HeA & _).
    pose proof (valid_finite _ _ _ VB) as (HeB & _).
    cbn [rank] in RA, RB.
    assert (sa = false) by (destruct sa; [cbn [cond_Zopp] in RA; lia|reflexivity]).
    assert (sb = false) by (destruct sb; [cbn [cond_Zopp] in RB; lia|reflexivity]).
    subst sa sb.
    unfold SF64add, SFadd.
    pose proof (aligned_rank false ma ea (Z.min ea eb) ltac:(lia)) as AA.
    pose proof (aligned_rank false mb eb (Z.min ea eb) ltac:(lia)) as AB.
    cbn [cond_Zopp] in *.
    set (pa := fst (shl_align ma ea (Z.min ea eb))) in *.
    set (pb := fst (shl_align mb eb (Z.min ea eb))) in *.
    change (Z.pos pa + Z.pos pb) with (Z.pos (pa + pb)).
    cbn [binary_normalize].
    destruct (binary_round_exact false (pa + pb) (Z.min ea eb) (ka + kb))
      as (m' & e' & E & V).
    + lia.
    + lia.
    + cbn [rank cond_Zopp] in AA, AB.
      rewrite Pos2Z.inj_add, Z.mul_add_distr_r, AA, AB, RA, RB. lia.
    + rewrite E. split; [exact I|]. exact V.
Qed.


Lemma whole_rank (a : number) (k : Z) :
  whole a = Some k <-> (finite (Prim2SF a) /\ place a = k * 2 ^ 1074).
Proof.
  unfold whole, place. pose proof (Prim2SF_valid a) as V.
  assert (P : 0 < 2 ^ 1074) by (apply Z.pow_pos_nonneg; lia).
  destruct (Prim2SF a) as [s | s | | s m e]; cbn [rank finite].
  - split; [intros [= <-]; split; [exact I|lia] | intros [_ H]; f_equal; lia].
  - split; [discriminate|tauto].
  - split; [discriminate|tauto].
  - apply valid_finite in V as (He & _).
    assert (R : 0 < 2 ^ (e + 1074)) by (apply Z.pow_pos_nonneg; lia).
    destruct (Z.leb_spec 0 e) as [Hpos | Hneg].
    + assert (E1 : 2 ^ (e + 1074) = 2 ^ e * 2 ^ 1074)
        by (rewrite <- Z.pow_add_r by lia; reflexivity).
      assert (Q : 0 < 2 ^ e) by (apply Z.pow_pos_nonneg; lia).
      rewrite E1 in *. clear E1.
      remember (2 ^ e) as U eqn:EU. remember (2 ^ 1074) as T eqn:ET.
      clear EU ET.
      split.
      * intros [= <-]. split; [exact I|]. destruct s; cbn [cond_Zopp]; lia.
      * intros [_ H]. f_equal. destruct s; cbn [cond_Zopp] in *; nia.
    + assert (Q : 0 < 2 ^ (- e)) by (apply Z.pow_pos_nonneg; lia).
      assert (Hsplit : 2 ^ 1074 = 2 ^ (- e) * 2 ^ (e + 1074)).
      { rewrite <- Z.pow_add_r by lia. f_equal. lia. }
      rewrite Hsplit in *. clear Hsplit.
      remember (2 ^ (e + 1074)) as T eqn:ET. remember (2 ^ (- e)) as U eqn:EU.
      clear EU ET.
      destruct (Z.eqb_spec (Z.pos m mod U) 0) as [Hmod | Hmod].
      * apply Z.div_exact in Hmod; [|lia].
        remember (Z.pos m / U) as q eqn:Eq. clear Eq. rename Hmod into Hq.
        split.
        -- intros [= <-]. split; [exact I|].
           destruct s; cbn [cond_Zopp]; rewrite Hq; lia.
        -- intros [_ H]. f_equal. rewrite Hq in H.
           destruct s; cbn [cond_Zopp] in *; nia.
      * split; [discriminate|]. intros [_ H]. exfalso. apply Hmod.
        apply Z.mod_divide; [lia|].
        exists (Z.abs k). destruct s; cbn [cond_Zopp] in H; nia.
Qed.

Lemma add_whole (a b : number) (ka kb : Z) :
  whole a = Some ka -> whole b = Some kb ->
  0 <= ka -> 0 <= kb -> ka + kb <= 2 ^ 53 ->
  whole (a + b)%float = Some (ka + kb).
Proof.
  intros Ha Hb Hka Hkb Hsum.
  apply whole_rank in Ha as [FA RA]. apply whole_rank in Hb as [FB RB].
  apply whole_rank. unfold place. rewrite add_spec.
  apply SFadd_whole; auto using Prim2SF_valid.
Qed.


Lemma whole_exact (a : number) (k : Z) :
  whole a = Some k -> exists q, exact a = Some q /\ (q == inject_Z k)%Q.
Proof.
  intros H. apply whole_rank in H as [F R].
  assert (E : exists q, exact a = Some q).
  { unfold exact. destruct (Prim2SF a); try contradiction; eexists; reflexivity. }
  destruct E as [q E]. exists q. split; [exact E|].
  pose proof (place_value a q E) as V. rewrite R, inject_Z_mult in V.
  rewrite (Zpower_Qpower 2 1074) in V by lia.
  change (inject_Z 2) with 2%Q in V.
  symmetry. apply (Qmult_inj_r _ _ (2 ^ 1074)%Q); [|exact V].
  apply Qpower_not_0. discriminate.
Qed.

Lemma add_exact_whole (a b : number) (ka kb : Z) :
  whole a = Some ka -> whole b = Some kb ->
  0 <= ka -> 0 <= kb -> ka + kb <= 2 ^ 53 ->
  add_exact a b = true.
Proof.
  intros Ha Hb Hka Hkb Hsum.
  pose proof (add_whole a b ka kb Ha Hb Hka Hkb Hsum) as Hc.
  apply whole_exact in Ha as (qa & Ea & Qa).
  apply whole_exact in Hb as (qb & Eb & Qb).
  apply whole_exact in Hc as (qc & Ec & Qc).
  unfold add_exact. rewrite Ea, Eb, Ec. apply Qeq_bool_iff.
  rewrite Qa, Qb, Qc, inject_Z_plus. reflexivity.
Qed.

Lemma whole_total_nonneg (l : list number) (K : Z) :
  whole_total l = Some K -> 0 <= K.
Proof.
  revert K. induction l as [ | x r IH]; intros K; cbn [whole_total].
  - intros [= <-]. lia.
  - destruct (whole x) as [k|]; [|discriminate].
    destruct (whole_total r) as [K'|]; [|discriminate].
    destruct (Z.leb_spec 0 k); [|discriminate].
    intros [= <-]. specialize (IH K' eq_refl). lia.
Qed.

(** Adding up non-negative whole numbers that stay within 2^53 involves no
    rounding, and gives their sum. *)
Lemma whole_reduce (l : list number) :
  forall (acc : number) (ka K : Z),
    whole acc = Some ka -> 0 <= ka ->
    whole_total l = Some K -> ka + K <= 2 ^ 53 ->
    reduce_exact acc l = true /\ whole (reduce_add acc l) = Some (ka + K).
Proof.
  induction l as [ | x r IH]; intros acc ka K Hacc Hka HK Hsum;
    cbn [whole_total reduce_exact] in *.
  - injection HK as <-. rewrite Z.add_0_r. now split.
  - destruct (whole x) as [k|] eqn:Ex; [|discriminate].
    destruct (whole_total r) as [K'|] eqn:Er; [|discriminate].
    destruct (Z.leb_spec 0 k) as [Hk|]; [|discriminate].
    injection HK as <-.
    pose proof (whole_total_nonneg r K' Er) as HK'.
    assert (Hadd : whole (acc + x)%float = Some (ka + k))
      by (apply add_whole; auto; lia).
    destruct (IH (acc + x)%float (ka + k) K' Hadd ltac:(lia) eq_refl ltac:(lia))
      as [H1 H2].
    split.
    + rewrite (add_exact_whole acc x ka k) by (auto; lia). exact H1.
    + unfold reduce_add in *. simpl. rewrite H2. f_equal. lia.
Qed.

Lemma whole_total_app (l l' : list number) :
  whole_total (l ++ l')
  = match whole_total l, whole_total l' with
    | Some a, Some b => Some (a + b)
    | _, _ => None
    end.
Proof.
  induction l as [ | x r IH]; cbn [whole_total app].
  - destruct (whole_total l'); reflexivity.
  - rewrite IH. destruct (whole x) as [k|]; [|reflexivity].
    destruct (whole_total r) as [a|]; [|reflexivity].
    destruct (whole_total l') as [b|]; [|now destruct (0 <=? k)].
    destruct (0 <=? k); [f_equal; lia|reflexivity].
Qed.

Lemma whole_total_perm (l l' : list number) :
  Permutation l l' -> whole_total l = whole_total l'.
Proof.
  induction 1 as [ | x l l' _ IH | x y l | l l' l'' _ IH1 _ IH2];
    cbn [whole_total].
  - reflexivity.
  - now rewrite IH.
  - destruct (whole x) as [kx|], (whole y) as [ky|], (whole_total l) as [K|];
      try reflexivity;
      destruct (0 <=? kx), (0 <=? ky); try reflexivity.
    f_equal. lia.
  - now rewrite IH1.
Qed.

Lemma reduce_add_not_neg_zero (l : list number) (acc : number) :
  Prim2SF acc <> S754_zero true ->
  Prim2SF (reduce_add acc l) <> S754_zero true.
Proof.
  revert acc. induction l as [ | x r IH]; intros acc H; simpl; [exact H|].
  apply IH. now apply add_not_neg_zero.
Qed.

(** Two numbers that stand for the same integer are the same number, the
    zero of negative sign apart. *)
Lemma whole_eq (a b : number) (k : Z) :
  whole a = Some k -> whole b = Some k ->
  Prim2SF a <> S754_zero true -> Prim2SF b <> S754_zero true ->
  a = b.
Proof.
  intros Ha Hb Na Nb.
  apply whole_rank in Ha as [Fa Ra]. apply whole_rank in Hb as [Fb Rb].
  assert (Ia : is_number a).
  { unfold is_number. destruct (Prim2SF a); try discriminate; contradiction. }
  assert (Ib : is_number b).
  { unfold is_number. destruct (Prim2SF b); try discriminate; contradiction. }
  destruct (place_inj a b Ia Ib ltac:(congruence)) as [E | [[sa Za] [sb Zb]]];
    [exact E|].
  apply Prim2SF_inj. rewrite Za, Zb in *.
  destruct sa, sb; congruence.
Qed.

End WholeNumbers.

Section WholeAmounts.

Local Open Scope Z_scope.

Lemma whole_zero : whole 0%float = Some 0.
Proof. reflexivity. Qed.

(** Two lists of non-negative whole numbers with the same total, within
    2^53, have the same sum as numbers. *)
Lemma whole_sum_eq (l1 l2 : list number) (K : Z) :
  whole_total l1 = Some K -> whole_total l2 = Some K -> K <= 2 ^ 53 ->
  reduce_add 0%float l1 = reduce_add 0%float l2.
Proof.
  intros H1 H2 HK.
  destruct (whole_reduce l1 0%float 0 K whole_zero ltac:(lia) H1 ltac:(lia))
    as [_ W1].
  destruct (whole_reduce l2 0%float 0 K whole_zero ltac:(lia) H2 ltac:(lia))
    as [_ W2].
  apply (whole_eq _ _ (0 + K)); auto;
    apply reduce_add_not_neg_zero; discriminate.
Qed.

Lemma slices_whole_total (debit : list Transaction) (K : Z) :
  whole_total (map amount debit) = Some K -> K <= 2 ^ 53 ->
  whole_total (map item_amount (chartItems debit)) = Some K.
Proof.
  intros H HK. rewrite chartItems_amounts.
  rewrite <- (take_drop 4 debit), map_app, whole_total_app in H.
  fold (topItems debit) in H. fold (otherItems debit) in H.
  destruct (whole_total (map amount (topItems debit))) as [Kt|] eqn:Et;
    [|discriminate].
  destruct (whole_total (map amount (otherItems debit))) as [Ko|] eqn:Eo;
    [|discriminate].
  injection H as <-.
  pose proof (whole_total_nonneg _ _ Et) as Ht.
  pose proof (whole_total_nonneg _ _ Eo) as Ho.
  destruct (otherItems debit) as [ | t r] eqn:E.
  - cbn [map whole_total] in Eo. injection Eo as <-. rewrite Et. f_equal. lia.
  - rewrite whole_total_app, Et. cbn [whole_total].
    unfold otherItemsSum. rewrite sum_amounts_reduce, E.
    destruct (whole_reduce _ 0%float 0 Ko whole_zero ltac:(lia) Eo ltac:(lia))
      as [_ W].
    rewrite W. destruct (Z.leb_spec 0 (0 + Ko)); [|lia]. f_equal. lia.
Qed.

(** With non-negative whole amounts that add up to at most 2^53, the grand
    total is the sum of the slice amounts. *)
Lemma total_is_slice_sum_whole (debit : list Transaction) (K : Z) :
  whole_total (map amount debit) = Some K -> K <= 2 ^ 53 ->
  totalSpent debit = sum_items (chartItems debit).
Proof.
  intros H HK. unfold totalSpent.
  rewrite sum_amounts_reduce, sum_items_reduce.
  apply (whole_sum_eq _ _ K); auto. now apply slices_whole_total.
Qed.

(** ... and the sum of the amounts in any other order. *)
Lemma total_is_input_sum_whole (l l' : list Transaction) (K : Z) :
  Permutation l l' ->
  whole_total (map amount l) = Some K -> K <= 2 ^ 53 ->
  sum_amounts l = sum_amounts l'.
Proof.
  intros Hp H HK. rewrite !sum_amounts_reduce.
  apply (whole_sum_eq _ _ K); auto.
  rewrite <- H. symmetry. now apply whole_total_perm, Permutation_map.
Qed.

End WholeAmounts.

(** ** The grand total and the slices *)

Section Slices.

Lemma filter_debit_only (txns : list Transaction) :
  List.Forall (fun t => is_debit t = true) txns ->
  List.filter is_debit txns = txns.
Proof.
  induction 1 as [ | t r Ht _ IH]; simpl; [reflexivity|].
  rewrite Ht. now f_equal.
Qed.

Lemma chartItems_small (debit : list Transaction) :
  (List.length debit <= 4)%nat -> chartItems debit = map ItemTxn debit.
Proof.
  intros H. unfold chartItems, otherItems, topItems.
  rewrite drop_ge, take_ge by exact H. reflexivity.
Qed.

Lemma chartItems_large (debit : list Transaction) :
  (4 < List.length debit)%nat ->
  chartItems debit
  = (map ItemTxn (take 4 debit)
       ++ [ItemObj "Others" (sum_amounts (drop 4 debit))])%list.
Proof.
  intros H. unfold chartItems, otherItems, topItems, otherItemsSum.
  rewrite length_drop.
  destruct (Nat.ltb_spec 0 (List.length debit - 4)); [reflexivity|lia].
Qed.

Lemma no_synthetic_in_transactions (l : list Transaction) :
  forallb (fun i => negb (synthetic i)) (map ItemTxn l) = true.
Proof. induction l; simpl; auto. Qed.

Lemma sum_items_transactions (l : list Transaction) :
  sum_items (map ItemTxn l) = sum_amounts l.
Proof.
  unfold sum_items, sum_amounts. generalize 0%float.
  induction l as [ | t r IH]; intros acc; simpl; [reflexivity|].
  apply IH.
Qed.

(** C2 (as the code has it): for a non-empty debit list the component shows
    a grand total.  It is the sum of the slice amounts when there are at
    most four debits (the same additions in the same order), and when the
    debit amounts are non-negative whole numbers that add up to at most
    2^53.  In general the two are equal as numbers whenever the additions
    that compute the grand total, the "Others" amount and the sum of the
    slices are exact, i.e. free of binary64 rounding. *)
Theorem total_equals_slice_sum_when_exact
    (d : StatementResult) (txns : list Transaction) :
  transactions d = Val txns ->
  List.filter is_debit txns <> [] ->
  exists total,
    grand_total (DonutAnalytics (Val d)) = Some total
    /\ ((List.length (List.filter is_debit txns) <= 4)%nat ->
        total = sum_items (slices (DonutAnalytics (Val d))))
    /\ (forall K : Z,
          whole_total (map amount (List.filter is_debit txns)) = Some K ->
          (K <= 2 ^ 53)%Z ->
          total = sum_items (slices (DonutAnalytics (Val d))))
    /\ (reduce_exact 0%float (map amount (debitTransactions txns)) = true ->
        reduce_exact 0%float
          (map amount (otherItems (debitTransactions txns))) = true ->
        reduce_exact 0%float
          (map item_amount (chartItems (debitTransactions txns))) = true ->
        same_value total (sum_items (slices (DonutAnalytics (Val d))))).
Proof.
  intros Ht Hne.
  rewrite DonutAnalytics_cases, Ht.
  destruct txns as [ | t r]; [now contradiction Hne|].
  assert (Hlen : List.length (debitTransactions (t :: r))
                 = List.length (List.filter is_debit (t :: r))).
  { apply sort_length. }
  assert (Hperm : Permutation (debitTransactions (t :: r))
                    (List.filter is_debit (t :: r))).
  { apply sort_perm. }
  destruct (debitTransactions (t :: r)) as [ | x s] eqn:E.
  { apply sort_nil_inv in E. contradiction. }
  exists (totalSpent (x :: s)). split; [reflexivity|].
  cbn [slices chart_of chart_items]. split; [|split].
  - intros H4. rewrite chartItems_small by lia.
    now rewrite sum_items_transactions.
  - intros K HK Hle. apply (total_is_slice_sum_whole _ K); [|exact Hle].
    rewrite <- HK. now apply whole_total_perm, Permutation_map.
  - apply total_vs_slices_exact.
Qed.

Lemma total_equals_slice_sum_when_exact_witness :
  let txns := [debit "Fuel" 100%float; debit "Books" 200%float;
               credit "Refund" 50%float; debit "Rent" 300%float;
               debit "Phone" 400%float; debit "Dinner" 500%float;
               debit "Flight" 600%float] in
  let d := statement_of txns in
  transactions d = Val txns
  /\ List.filter is_debit txns <> []
  /\ whole_total (map amount (List.filter is_debit txns)) = Some 2100%Z
  /\ grand_total (DonutAnalytics (Val d)) = Some 2100%float
  /\ 2100%float = sum_items (slices (DonutAnalytics (Val d)))
  /\ same_value 2100%float (sum_items (slices (DonutAnalytics (Val d)))).
Proof.
  intros txns d.
  assert (H0 : transactions d = Val txns) by reflexivity.
  assert (Hne : List.filter is_debit txns <> []) by discriminate.
  assert (Hw : whole_total (map amount (List.filter is_debit txns))
               = Some 2100%Z) by (vm_compute; reflexivity).
  destruct (total_equals_slice_sum_when_exact d txns H0 Hne)
    as (total & Htotal & _ & Hwhole & Hexact).
  assert (E : total = 2100%float).
  { assert (Hc : grand_total (DonutAnalytics (Val d)) = Some 2100%float)
      by (vm_compute; reflexivity).
    rewrite Hc in Htotal. now injection Htotal. }
  subst total.
  repeat (split; [assumption|]).
  split.
  - apply (Hwhole 2100%Z Hw). vm_compute. discriminate.
  - apply Hexact; vm_compute; reflexivity.
Defined.

(** C2, the claim as stated, fails on six debits of 0.1: the grand total is
    0.6, the slices 0.1, 0.1, 0.1, 0.1 and "Others" = 0.2 add up to
    0.6000000000000001 (and the value of the total is not the mathematical
    sum of the values of the slices either). *)
Lemma six_small_debits_total_differs :
  let txns := [debit "Toll 1" 0.1%float; debit "Toll 2" 0.1%float;
               debit "Toll 3" 0.1%float; debit "Toll 4" 0.1%float;
               debit "Toll 5" 0.1%float; debit "Toll 6" 0.1%float] in
  let v := DonutAnalytics (Val (statement_of txns)) in
  List.filter is_debit txns <> []
  /\ grand_total v = Some 0.6%float
  /\ map item_amount (slices v)
     = [0.1; 0.1; 0.1; 0.1; 0.2]%float
  /\ sum_items (slices v) = 0.6000000000000001%float
  /\ (0.6 =? 0.6000000000000001)%float = false
  /\ grand_total v <> Some (sum_items (slices v))
  /\ ~ (value 0.6%float == Qsum (map value (map item_amount (slices v))))%Q.
Proof.
  cbv zeta. split; [discriminate|].
  split; [vm_compute; reflexivity|].
  split; [vm_compute; reflexivity|].
  split; [vm_compute; reflexivity|].
  split; [vm_compute; reflexivity|].
  split; intros H; vm_compute in H; discriminate H.
Qed.

(** C3 (as the code has it): on a list of debits only, the sorted debit
    list is a rearrangement of the input; up to four entries give one slice
    per entry and no slice of the component's own; more than four give the
    first four of the sorted list and one slice "Others" whose amount is
    the reduce-sum of the rest.  The grand total is the reduce-sum of the
    amounts in sorted order.  When the input amounts are non-negative whole
    numbers whose arithmetic sum [K] (added up as integers) is at most 2^53,
    the grand total is the number [K], and so is the reduce-sum of the input
    in its given order.  Whenever the additions that compute the grand total
    are free of rounding, its value is the arithmetic sum of the values of
    the input amounts (added up as rationals), and then it has the value of
    the reduce-sum of the input if that one is free of rounding too.  Unless
    an amount is NaN, the sorted list is in descending order of value, so
    the first four are the top four by amount. *)
Theorem slices_of_debit_only (d : StatementResult) (txns : list Transaction) :
  transactions d = Val txns ->
  List.Forall (fun t => is_debit t = true) txns ->
  let v := DonutAnalytics (Val d) in
  let debit := debitTransactions txns in
  Permutation debit txns
  /\ ((List.length txns <= 4)%nat ->
      List.length (slices v) = List.length txns
      /\ slices v = map ItemTxn debit
      /\ forallb (fun i => negb (synthetic i)) (slices v) = true)
  /\ ((4 < List.length txns)%nat ->
      List.length (slices v) = 5%nat
      /\ slices v
         = (map ItemTxn (take 4 debit)
              ++ [ItemObj "Others" (sum_amounts (drop 4 debit))])%list)
  /\ (txns <> [] -> grand_total v = Some (sum_amounts debit))
  /\ (forall K : Z,
        whole_total (map amount txns) = Some K -> (K <= 2 ^ 53)%Z ->
        whole (sum_amounts debit) = Some K
        /\ sum_amounts debit = sum_amounts txns)
  /\ (reduce_exact 0%float (map amount debit) = true ->
      exists r : Q,
        exact (sum_amounts debit) = Some r
        /\ (r == Qsum (map value (map amount txns)))%Q)
  /\ (txns <> [] ->
      reduce_exact 0%float (map amount debit) = true ->
      reduce_exact 0%float (map amount txns) = true ->
      same_value (sum_amounts debit) (sum_amounts txns))
  /\ (List.Forall is_number (map amount txns) ->
      StronglySorted (fun t u => (place (amount u) <= place (amount t))%Z) debit).
Proof.
  intros Ht Hall v debit.
  assert (Hd : debit = sort by_amount_desc txns).
  { unfold debit, debitTransactions. now rewrite filter_debit_only. }
  assert (Hperm : Permutation debit txns).
  { rewrite Hd. apply sort_perm. }
  assert (Hlen : List.length debit = List.length txns).
  { now apply Permutation_length. }
  assert (Hv : txns <> [] -> v = RenderChart (chart_of debit)).
  { intros Hne. unfold v. rewrite DonutAnalytics_cases, Ht.
    destruct txns as [ | t r]; [contradiction|].
    fold debit. destruct debit; [discriminate Hlen|reflexivity]. }
  assert (Hs : slices v = chartItems debit).
  { destruct txns as [ | t r].
    - unfold v. rewrite DonutAnalytics_cases, Ht. now rewrite Hd.
    - now rewrite Hv. }
  split; [exact Hperm|].
  split.
  { intros H4. rewrite Hs, chartItems_small by lia.
    rewrite length_map. split; [exact Hlen|]. split; [reflexivity|].
    apply no_synthetic_in_transactions. }
  split.
  { intros H4. rewrite Hs, chartItems_large by lia.
    split; [|reflexivity].
    rewrite length_app, length_map, length_take. cbn [List.length].
    rewrite Nat.min_l by lia. reflexivity. }
  split.
  { intros Hne. now rewrite Hv. }
  split.
  { intros K HK Hle.
    assert (HK' : whole_total (map amount debit) = Some K).
    { rewrite <- HK. now apply whole_total_perm, Permutation_map. }
    split; [|now apply (total_is_input_sum_whole _ _ K)].
    rewrite sum_amounts_reduce.
    destruct (whole_reduce (map amount debit) 0%float 0%Z K whole_zero
                ltac:(lia) HK' ltac:(lia)) as [_ W].
    exact W. }
  split.
  { intros H1.
    apply reduce_exact_from_zero in H1 as (r1 & Hr1 & E1).
    exists r1. rewrite sum_amounts_reduce. split; [exact Hr1|].
    rewrite E1. apply Qsum_perm. now do 2 apply Permutation_map. }
  split.
  { intros Hne H1 H2.
    apply reduce_exact_from_zero in H1 as (r1 & Hr1 & E1).
    apply reduce_exact_from_zero in H2 as (r2 & Hr2 & E2).
    unfold same_value. rewrite !sum_amounts_reduce, Hr1, Hr2, E1, E2.
    apply Qsum_perm. now do 2 apply Permutation_map. }
  intros Hn. rewrite Hd. now apply sort_descending.
Qed.

End Slices.

Lemma slices_of_debit_only_witness :
  let txns := [debit "Fuel" 100%float; debit "Books" 200%float;
               debit "Rent" 300%float; debit "Phone" 400%float;
               debit "Dinner" 500%float; debit "Flight" 600%float] in
  let d := statement_of txns in
  let v := DonutAnalytics (Val d) in
  transactions d = Val txns
  /\ List.Forall (fun t => is_debit t = true) txns
  /\ List.length (slices v) = 5%nat
  /\ slices v
     = (map ItemTxn (take 4 (debitTransactions txns))
          ++ [ItemObj "Others" (sum_amounts (drop 4 (debitTransactions txns)))])%list
  /\ map item_amount (slices v) = [600; 500; 400; 300; 300]%float
  /\ grand_total v = Some (sum_amounts (debitTransactions txns))
  /\ whole_total (map amount txns) = Some 2100%Z
  /\ whole (sum_amounts (debitTransactions txns)) = Some 2100%Z
  /\ sum_amounts (debitTransactions txns) = sum_amounts txns
  /\ grand_total v = Some 2100%float.
Proof.
  intros txns d v.
  assert (H1 : transactions d = Val txns) by reflexivity.
  assert (H2 : List.Forall (fun t => is_debit t = true) txns)
    by (repeat constructor).
  destruct (slices_of_debit_only d txns H1 H2)
    as (_ & _ & H5 & Htot & Hwhole & _).
  assert (Hlen : (4 < List.length txns)%nat) by (simpl; lia).
  assert (Hne : txns <> []) by discriminate.
  assert (Hw : whole_total (map amount txns) = Some 2100%Z)
    by (vm_compute; reflexivity).
  destruct (H5 Hlen) as [Hn Hs].
  split; [exact H1|]. split; [exact H2|].
  split; [exact Hn|]. split; [exact Hs|].
  split; [vm_compute; reflexivity|].
  split; [exact (Htot Hne)|].
  split; [exact Hw|].
  destruct (Hwhole 2100%Z Hw) as [W1 W2]; [vm_compute; discriminate|].
  split; [exact W1|]. split; [exact W2|].
  vm_compute; reflexivity.
Defined.

(** C3, the claim as stated, fails on the three debits 0.1, 0.2, 0.3: added
    in the order of the input they give 0.6000000000000001, the grand total
    (added in descending order) is 0.6, which is not the mathematical sum
    of the three values either. *)
Lemma three_debits_total_differs_from_input_sum :
  let txns := [debit "Tea" 0.1%float; debit "Bus" 0.2%float;
               debit "Snack" 0.3%float] in
  let v := DonutAnalytics (Val (statement_of txns)) in
  List.Forall (fun t => is_debit t = true) txns
  /\ (List.length txns <= 4)%nat
  /\ List.length (slices v) = 3%nat
  /\ grand_total v = Some 0.6%float
  /\ sum_amounts txns = 0.6000000000000001%float
  /\ (0.6 =? 0.6000000000000001)%float = false
  /\ grand_total v <> Some (sum_amounts txns)
  /\ ~ (value 0.6%float == Qsum (map value (map amount txns)))%Q.
Proof.
  cbv zeta. split; [repeat constructor|].
  split; [simpl; lia|].
  split; [vm_compute; reflexivity|].
  split; [vm_compute; reflexivity|].
  split; [vm_compute; reflexivity|].
  split; [vm_compute; reflexivity|].
  split; intros H; vm_compute in H; discriminate H.
Qed.

(** ** The component over the store: the input array is left alone *)

Section Aliasing.

Import Heap.

Lemma runs_ret {A} (a : A) (s : store) (P : A -> store -> Prop) :
  P a s -> runs_to (ret a) s P.
Proof. exact id. Qed.

Lemma runs_bind {A B} (m : Mem A) (k : A -> Mem B) (s : store)
    (P : B -> store -> Prop) :
  runs_to m s (fun a s1 => runs_to (k a) s1 P) -> runs_to (bind m k) s P.
Proof.
  unfold runs_to, bind. destruct (m s) as [[a s1]|]; auto.
Qed.

Lemma runs_read (a : loc) (l : list ChartItem) (s : store)
    (P : list ChartItem -> store -> Prop) :
  s !! a = Some l -> P l s -> runs_to (read a) s P.
Proof. unfold runs_to, read. now intros ->. Qed.

Lemma runs_write (a : loc) (l l0 : list ChartItem) (s : store)
    (P : unit -> store -> Prop) :
  s !! a = Some l0 -> P tt (<[a := l]> s) -> runs_to (write a l) s P.
Proof. unfold runs_to, write. now intros ->. Qed.

Lemma runs_alloc (l : list ChartItem) (s : store) (P : loc -> store -> Prop) :
  (forall a, s !! a = None -> P a (<[a := l]> s)) -> runs_to (alloc l) s P.
Proof.
  intros H. unfold runs_to, alloc. apply H.
  apply not_elem_of_dom, is_fresh.
Qed.

Lemma runs_length (a : loc) (l : list ChartItem) (s : store)
    (P : nat -> store -> Prop) :
  s !! a = Some l -> P (List.length l) s -> runs_to (array_length a) s P.
Proof.
  intros Ha HP. apply runs_bind, (runs_read a l); auto.
Qed.

Lemma runs_filter (p : ChartItem -> bool) (a : loc) (l : list ChartItem)
    (s : store) (P : loc -> store -> Prop) :
  s !! a = Some l ->
  (forall f, s !! f = None -> P f (<[f := List.filter p l]> s)) ->
  runs_to (array_filter p a) s P.
Proof.
  intros Ha HP. apply runs_bind, (runs_read a l); auto.
  now apply runs_alloc.
Qed.

Lemma runs_sort (cmp : ChartItem -> ChartItem -> number) (a : loc)
    (l : list ChartItem) (s : store) (P : loc -> store -> Prop) :
  s !! a = Some l ->
  P a (<[a := JS.sort cmp l]> s) ->
  runs_to (array_sort cmp a) s P.
Proof.
  intros Ha HP. apply runs_bind, (runs_read a l); auto.
  apply runs_bind, (runs_write a _ l); auto.
Qed.

Lemma runs_slice (a : loc) (start : nat) (stop : option nat)
    (l : list ChartItem) (s : store) (P : loc -> store -> Prop) :
  s !! a = Some l ->
  (forall f, s !! f = None ->
     P f (<[f := match stop with
                 | Some e => take (e - start) (drop start l)
                 | None => drop start l
                 end]> s)) ->
  runs_to (array_slice a start stop) s P.
Proof.
  intros Ha HP. apply runs_bind, (runs_read a l); auto.
  now apply runs_alloc.
Qed.

Lemma runs_reduce {B} (f : B -> ChartItem -> B) (a : loc) (init : B)
    (l : list ChartItem) (s : store) (P : B -> store -> Prop) :
  s !! a = Some l -> P (fold_left f l init) s ->
  runs_to (array_reduce f a init) s P.
Proof.
  intros Ha HP. apply runs_bind, (runs_read a l); auto.
Qed.

Lemma runs_spread (a : loc) (l : list ChartItem) (s : store)
    (P : loc -> store -> Prop) :
  s !! a = Some l ->
  (forall f, s !! f = None -> P f (<[f := l]> s)) ->
  runs_to (array_spread a) s P.
Proof.
  intros Ha HP. apply runs_bind, (runs_read a l); auto.
  now apply runs_alloc.
Qed.

Lemma runs_push (a : loc) (x : ChartItem) (l : list ChartItem) (s : store)
    (P : unit -> store -> Prop) :
  s !! a = Some l -> P tt (<[a := (l ++ [x])%list]> s) ->
  runs_to (array_push a x) s P.
Proof.
  intros Ha HP. apply runs_bind, (runs_read a l); auto.
  now apply (runs_write a _ l).
Qed.

Lemma runs_map {B} (f : nat -> ChartItem -> B) (a : loc)
    (l : list ChartItem) (s : store) (P : list B -> store -> Prop) :
  s !! a = Some l -> P (imap f l) s -> runs_to (array_map f a) s P.
Proof.
  intros Ha HP. apply runs_bind, (runs_read a l); auto.
Qed.

End Aliasing.

Section InputUntouched.

Import Heap.

Lemma filter_items (txns : list Transaction) :
  List.filter Heap.is_debit (map ItemTxn txns)
  = map ItemTxn (List.filter Donut.is_debit txns).
Proof.
  induction txns as [ | t r IH]; simpl; [reflexivity|].
  destruct (Donut.is_debit t); simpl; now rewrite IH.
Qed.

Lemma sort_insert_items (t : Transaction) (l : list Transaction) :
  sort_insert Heap.by_amount_desc (ItemTxn t) (map ItemTxn l)
  = map ItemTxn (sort_insert Donut.by_amount_desc t l).
Proof.
  induction l as [ | u r IH]; simpl; [reflexivity|].
  change (sorts_after Heap.by_amount_desc (ItemTxn t) (ItemTxn u))
    with (sorts_after Donut.by_amount_desc t u).
  destruct (sorts_after Donut.by_amount_desc t u); simpl; now rewrite ?IH.
Qed.

Lemma sort_items (l : list Transaction) :
  JS.sort Heap.by_amount_desc (map ItemTxn l)
  = map ItemTxn (JS.sort Donut.by_amount_desc l).
Proof.
  induction l as [ | t r IH]; simpl; [reflexivity|].
  now rewrite IH, sort_insert_items.
Qed.

Lemma reduce_items (l : list Transaction) (acc : number) :
  fold_left add_amount (map ItemTxn l) acc
  = fold_left (fun sum t => (sum + amount t)%float) l acc.
Proof.
  revert acc. induction l as [ | t r IH]; intros acc; simpl; [reflexivity|].
  apply IH.
Qed.

Lemma imap_const {A B} (f : A -> B) (l : list A) :
  imap (fun _ => f) l = map f l.
Proof.
  induction l as [ | x r IH]; simpl; [reflexivity|]. now rewrite <- IH.
Qed.

Lemma preserved_refl (s : store) : preserved s s.
Proof. intros b x Hb. exact Hb. Qed.

Lemma preserved_fresh (s s' : store) (b : loc) :
  preserved s s' -> s' !! b = None -> s !! b = None.
Proof.
  intros Hp Hb. destruct (s !! b) as [x|] eqn:E; [|reflexivity].
  apply Hp in E. congruence.
Qed.

Lemma preserved_insert (s s' : store) (b : loc) (l : list ChartItem) :
  preserved s s' -> s !! b = None -> preserved s (<[b := l]> s').
Proof.
  intros Hp Hb b' x Hb'. rewrite lookup_insert_ne; [now apply Hp|congruence].
Qed.

Lemma fresh_ne (s : store) (b b' : loc) (x : list ChartItem) :
  s !! b = None -> s !! b' = Some x -> b <> b'.
Proof. congruence. Qed.

Lemma chartItems_items (debit : list Transaction) :
  chartItems debit
  = if (0 <? List.length (drop 4 (map ItemTxn debit)))%nat
    then (take 4 (map ItemTxn debit)
            ++ [ItemObj "Others"
                  (fold_left add_amount (drop 4 (map ItemTxn debit)) 0%float)])%list
    else take 4 (map ItemTxn debit).
Proof.
  unfold chartItems, topItems, otherItems, otherItemsSum, sum_amounts.
  rewrite skipn_map, firstn_map, length_map, reduce_items. reflexivity.
Qed.

Lemma heap_DonutAnalytics_runs
    (s : store) (a : loc) (d : StatementResult) (txns : list Transaction) :
  s !! a = Some (map ItemTxn txns) ->
  runs_to (Heap.DonutAnalytics (Val (Val a))) s
    (fun v s' =>
       v = Donut.DonutAnalytics (Val (with_transactions d txns))
       /\ s' !! a = Some (map ItemTxn txns)
       /\ preserved s s').
Proof.
  intros Ha. unfold Heap.DonutAnalytics.
  rewrite DonutAnalytics_cases. cbn [with_transactions transactions].
  apply runs_bind. eapply runs_length; [exact Ha|].
  rewrite length_map.
  destruct txns as [ | t0 r0].
  { simpl. apply runs_ret. repeat split; auto. apply preserved_refl. }
  cbn [List.length Nat.eqb].
  set (txns := t0 :: r0) in *.
  apply runs_bind. eapply runs_filter; [exact Ha|]. intros f Hf.
  rewrite filter_items.
  apply runs_bind. eapply runs_sort; [apply lookup_insert_eq|]. cbv beta.
  rewrite sort_items. fold (debitTransactions txns).
  rewrite insert_insert_eq.
  destruct (debitTransactions txns) as [ | x0 d0] eqn:Ed.
  { apply runs_bind. eapply runs_length; [apply lookup_insert_eq|].
    simpl. apply runs_ret. repeat split; auto.
    - rewrite lookup_insert_ne; [exact Ha|congruence].
    - apply preserved_insert; [apply preserved_refl|exact Hf]. }
  set (debit := x0 :: d0).
  set (D := map ItemTxn debit).
  set (s1 := <[f := D]> s).
  assert (F1 : s1 !! f = Some D) by apply lookup_insert_eq.
  assert (P1 : preserved s s1).
  { apply preserved_insert; [apply preserved_refl|exact Hf]. }
  apply runs_bind. eapply runs_length; [exact F1|].
  unfold D at 1. rewrite length_map. cbn [List.length Nat.eqb debit].
  fold debit.
  (* topItems *)
  apply runs_bind. eapply runs_slice; [exact F1|]. intros t Ht. cbv beta.
  cbn [Nat.sub drop skipn].
  set (s2 := <[t := take 4 D]> s1).
  assert (T2 : s2 !! t = Some (take 4 D)) by apply lookup_insert_eq.
  assert (F2 : s2 !! f = Some D).
  { unfold s2. rewrite lookup_insert_ne; [exact F1|exact (fresh_ne _ _ _ _ Ht F1)]. }
  assert (P2 : preserved s s2).
  { apply preserved_insert; [exact P1|]. now apply (preserved_fresh s s1). }
  (* otherItems *)
  apply runs_bind. eapply runs_slice; [exact F2|]. intros o Ho. cbv beta.
  set (s3 := <[o := drop 4 D]> s2).
  assert (O3 : s3 !! o = Some (drop 4 D)) by apply lookup_insert_eq.
  assert (T3 : s3 !! t = Some (take 4 D)).
  { unfold s3. rewrite lookup_insert_ne; [exact T2|exact (fresh_ne _ _ _ _ Ho T2)]. }
  assert (F3 : s3 !! f = Some D).
  { unfold s3. rewrite lookup_insert_ne; [exact F2|exact (fresh_ne _ _ _ _ Ho F2)]. }
  assert (P3 : preserved s s3).
  { apply preserved_insert; [exact P2|]. now apply (preserved_fresh s s2). }
  (* otherItemsSum *)
  apply runs_bind. eapply runs_reduce; [exact O3|].
  (* chartItems *)
  apply runs_bind. eapply runs_spread; [exact T3|]. intros c Hc. cbv beta.
  set (s4 := <[c := take 4 D]> s3).
  assert (C4 : s4 !! c = Some (take 4 D)) by apply lookup_insert_eq.
  assert (O4 : s4 !! o = Some (drop 4 D)).
  { unfold s4. rewrite lookup_insert_ne; [exact O3|exact (fresh_ne _ _ _ _ Hc O3)]. }
  assert (F4 : s4 !! f = Some D).
  { unfold s4. rewrite lookup_insert_ne; [exact F3|exact (fresh_ne _ _ _ _ Hc F3)]. }
  assert (Sc : s !! c = None) by now apply (preserved_fresh s s3).
  assert (P4 : preserved s s4) by now apply preserved_insert.
  apply runs_bind. eapply runs_length; [exact O4|].
  apply runs_bind.
  assert (Hfinal : forall (items : list ChartItem) (s5 : store),
             items = chartItems debit ->
             s5 !! c = Some items -> s5 !! f = Some D -> preserved s s5 ->
             runs_to
               (let* totalSpent0 := array_reduce add_amount f 0%float in
                let* labels := array_map (fun _ => item_description) c in
                let* values := array_map (fun _ => item_amount) c in
                let* legend := array_map (legend_item totalSpent0) c in
                let* items := read c in
                ret (RenderChart
                       {| chart_items := items;
                          chart_total := totalSpent0;
                          chart_labels := labels;
                          chart_data := values;
                          chart_center_text :=
                            "₹" ++ toLocaleString_enIN 0 3 totalSpent0;
                          chart_legend := legend |}))%mem
               s5
               (fun v s' =>
                  v = RenderChart (chart_of debit)
                  /\ s' !! a = Some (map ItemTxn txns) /\ preserved s s')).
  { intros items s5 Hitems C5 F5 P5.
    apply runs_bind. eapply runs_reduce; [exact F5|].
    apply runs_bind. eapply runs_map; [exact C5|].
    apply runs_bind. eapply runs_map; [exact C5|].
    apply runs_bind. eapply runs_map; [exact C5|].
    apply runs_bind. eapply runs_read; [exact C5|].
    apply runs_ret. split; [|split; [now apply P5|exact P5]].
    unfold D. rewrite reduce_items, !imap_const, Hitems. reflexivity. }
  rewrite chartItems_items in Hfinal. fold D in Hfinal.
  destruct (0 <? List.length (drop 4 D))%nat.
  - eapply runs_push; [exact C4|].
    apply (Hfinal _ _ eq_refl).
    + apply lookup_insert_eq.
    + rewrite lookup_insert_ne; [exact F4|exact (fresh_ne _ _ _ _ Hc F3)].
    + now apply preserved_insert.
  - apply runs_ret. now apply (Hfinal _ _ eq_refl).
Qed.

(** [sort] does write to the array it is called on: the model has the
    aliasing of the source. *)
Lemma array_sort_in_place (cmp : ChartItem -> ChartItem -> number)
    (s : store) (a : loc) (l : list ChartItem) :
  s !! a = Some l ->
  runs_to (array_sort cmp a) s
    (fun r s' => r = a /\ s' !! a = Some (JS.sort cmp l)).
Proof.
  intros Ha. eapply runs_sort; [exact Ha|].
  split; [reflexivity|apply lookup_insert_eq].
Qed.

(** C9: the component, run on a store in which [data.transactions] is the
    array [a], ends with the view of the functional model and leaves [a]
    as it was, with the same elements in the same order; so is every
    other array that existed before the call.  The filter allocates the
    array that is then sorted in place. *)
Theorem DonutAnalytics_leaves_input_untouched
    (s : store) (a : loc) (d : StatementResult) (txns : list Transaction) :
  s !! a = Some (map ItemTxn txns) ->
  exists s',
    Heap.DonutAnalytics (Val (Val a)) s
    = Some (Donut.DonutAnalytics (Val (with_transactions d txns)), s')
    /\ s' !! a = Some (map ItemTxn txns)
    /\ preserved s s'.
Proof.
  intros Ha. pose proof (heap_DonutAnalytics_runs s a d txns Ha) as H.
  unfold runs_to in H.
  destruct (Heap.DonutAnalytics (Val (Val a)) s) as [[v s']|]; [|contradiction].
  destruct H as (-> & H1 & H2). now exists s'.
Qed.

Lemma DonutAnalytics_leaves_input_untouched_witness :
  let txns := [debit "Fuel" 100%float; credit "Refund" 50%float;
               debit "Books" 200%float; debit "Rent" 300%float;
               debit "Phone" 400%float; debit "Dinner" 500%float;
               debit "Flight" 600%float] in
  let s : store := {[ 1%positive := map ItemTxn txns ]} in
  s !! 1%positive = Some (map ItemTxn txns)
  /\ exists s',
       Heap.DonutAnalytics (Val (Val 1%positive)) s
       = Some (Donut.DonutAnalytics
                 (Val (with_transactions (statement_of []) txns)), s')
       /\ s' !! 1%positive = Some (map ItemTxn txns)
       /\ preserved s s'.
Proof.
  intros txns s.
  assert (Ha : s !! 1%positive = Some (map ItemTxn txns))
    by apply lookup_singleton_eq.
  split; [exact Ha|].
  exact (DonutAnalytics_leaves_input_untouched s 1%positive
           (statement_of []) txns Ha).
Defined.

End InputUntouched.

(* ===================================================================== *)
(** * Part III: further properties of the components *)
(* ===================================================================== *)

Import More ChartOptions.

(** ** DonutAnalytics: the three views *)

Section Views.

Lemma view_cases (data : nullable StatementResult) :
  DonutAnalytics data
  = match listed data with
    | [] => RenderNothing
    | _ :: _ =>
        match debitTransactions (listed data) with
        | [] => NoSpendingMessage no_spending_text
        | debit => RenderChart (chart_of debit)
        end
    end.
Proof.
  destruct data as [ | | d]; try reflexivity.
  rewrite DonutAnalytics_cases. unfold listed.
  destruct (transactions d) as [ | | [ | t r]]; reflexivity.
Qed.

Lemma debitTransactions_nil (txns : list Transaction) :
  debitTransactions txns = [] <-> List.filter is_debit txns = [].
Proof.
  unfold debitTransactions. split.
  - apply sort_nil_inv.
  - intros ->. reflexivity.
Qed.

Lemma renders_nothing_iff (data : nullable StatementResult) :
  DonutAnalytics data = RenderNothing <-> listed data = [].
Proof.
  rewrite view_cases.
  destruct (listed data) as [ | t r]; [tauto|].
  destruct (debitTransactions (t :: r)); split; discriminate.
Qed.

(** X1: which of its three views the component returns.  It renders
    nothing exactly when [data], its [transactions] or the entries of the
    list are missing; the "no spending" message exactly when there are
    transactions but no debit among them; and a chart exactly when there is
    at least one debit. *)
Theorem DonutAnalytics_view_iff (data : nullable StatementResult) :
  (DonutAnalytics data = RenderNothing <-> listed data = [])
  /\ (DonutAnalytics data = NoSpendingMessage no_spending_text
      <-> listed data <> [] /\ debits data = [])
  /\ ((exists c, DonutAnalytics data = RenderChart c) <-> debits data <> []).
Proof.
  split; [apply renders_nothing_iff|].
  rewrite view_cases. unfold debits.
  destruct (listed data) as [ | t r] eqn:El.
  { repeat split; try congruence; try tauto.
    intros [c Hc]. discriminate Hc. }
  pose proof (debitTransactions_nil (t :: r)) as Hn.
  destruct (debitTransactions (t :: r)) as [ | x s].
  - assert (E : List.filter is_debit (t :: r) = []) by now apply Hn.
    rewrite E. repeat split; try congruence; try tauto.
    intros [c Hc]. discriminate Hc.
  - assert (E : List.filter is_debit (t :: r) <> []).
    { intros H. apply Hn in H. discriminate H. }
    repeat split; try congruence; try tauto;
      try (intros [_ H]; contradiction).
    intros _. eexists. reflexivity.
Qed.

Lemma filter_idem {A} (f : A -> bool) (l : list A) :
  List.filter f (List.filter f l) = List.filter f l.
Proof.
  induction l as [ | x r IH]; simpl; [reflexivity|].
  destruct (f x) eqn:E; simpl; [rewrite E; now f_equal|exact IH].
Qed.

(** X2: entries that are not debits do not change the chart: a statement
    with at least one debit gives the same view (slices, total, legend,
    centre text) as the statement reduced to its debits. *)
Theorem credits_do_not_change_chart
    (d : StatementResult) (txns : list Transaction) :
  List.filter is_debit txns <> [] ->
  DonutAnalytics (Val (with_transactions d txns))
  = DonutAnalytics (Val (with_transactions d (List.filter is_debit txns))).
Proof.
  intros Hne. rewrite !view_cases. cbn [listed with_transactions transactions].
  unfold debitTransactions. rewrite filter_idem.
  destruct txns as [ | t r]; [contradiction|].
  destruct (List.filter is_debit (t :: r)); [contradiction|reflexivity].
Qed.

Lemma credits_do_not_change_chart_witness :
  let txns := [credit "Refund" 50%float; debit "Rent" 300%float;
               credit "Cashback" 5%float; debit "Fuel" 100%float] in
  List.filter is_debit txns <> []
  /\ DonutAnalytics (Val (statement_of txns))
     = DonutAnalytics (Val (statement_of [debit "Rent" 300%float;
                                          debit "Fuel" 100%float])).
Proof.
  intros txns.
  assert (H : List.filter is_debit txns <> []) by discriminate.
  split; [exact H|].
  exact (credits_do_not_change_chart (statement_of []) txns H).
Defined.

Lemma map_of_imap {A B C} (g : B -> C) (f : nat -> A -> B) (h : A -> C)
    (l : list A) :
  (forall i a, g (f i a) = h a) -> map g (imap f l) = map h l.
Proof.
  revert f. induction l as [ | a l IH]; intros f H; simpl; [reflexivity|].
  f_equal; [apply H|]. apply IH. intros i b. apply H.
Qed.

Lemma legend_colours (total : number) (items : list ChartItem) :
  (List.length items <= 5)%nat ->
  map legend_color (imap (legend_item total) items)
  = map Some (take (List.length items) backgroundColor).
Proof.
  intros H.
  do 6 (destruct items as [ | ? items]; [reflexivity|]).
  simpl in H. lia.
Qed.

Lemma chartItems_length (debit : list Transaction) :
  List.length (chartItems debit) = Nat.min (List.length debit) 5.
Proof.
  destruct (Nat.le_gt_cases (List.length debit) 4) as [H | H].
  - rewrite chartItems_small, length_map by exact H. lia.
  - rewrite chartItems_large by exact H.
    rewrite length_app, length_map, length_take. cbn [List.length]. lia.
Qed.

Lemma slices_count (data : nullable StatementResult) :
  List.length (slices (DonutAnalytics data))
  = Nat.min (List.length (debits data)) 5.
Proof.
  rewrite view_cases. unfold debits.
  destruct (listed data) as [ | t r]; [reflexivity|].
  assert (Hlen : List.length (debitTransactions (t :: r))
                 = List.length (List.filter is_debit (t :: r)))
    by apply sort_length.
  rewrite <- Hlen.
  destruct (debitTransactions (t :: r)) as [ | x s]; [reflexivity|].
  apply chartItems_length.
Qed.

(** X3: the number of slices is the number of debits, capped at five, so
    the five colours of the palette always suffice: the legend has one row
    per slice, row [i] carries colour [i] of the palette (never an undefined
    one), no colour is used twice, and the rows are labelled like the
    slices. *)
Theorem slices_within_palette (data : nullable StatementResult) :
  let v := DonutAnalytics data in
  let n := List.length (slices v) in
  n = Nat.min (List.length (debits data)) 5
  /\ List.length (legend_of v) = n
  /\ map legend_color (legend_of v) = map Some (take n backgroundColor)
  /\ NoDup (map legend_color (legend_of v))
  /\ map legend_description (legend_of v) = map item_description (slices v).
Proof.
  cbv zeta. split; [apply slices_count|].
  pose proof (slices_count data) as Hc. revert Hc.
  rewrite view_cases.
  destruct (listed data) as [ | t r].
  { intros _. repeat split; constructor. }
  destruct (debitTransactions (t :: r)) as [ | x s] eqn:E.
  { intros _. repeat split; constructor. }
  cbn [slices legend_of chart_of chart_items chart_legend]. intros Hc.
  assert (Hcol : map legend_color (imap (legend_item (totalSpent (x :: s)))
                                     (chartItems (x :: s)))
                 = map Some (take (List.length (chartItems (x :: s)))
                               backgroundColor)).
  { apply legend_colours. lia. }
  split; [apply length_imap|]. split; [exact Hcol|].
  split.
  - rewrite Hcol. apply NoDup_fmap_2; [intros a b; congruence|].
    eapply sublist_NoDup; [|apply sublist_take].
    apply NoDup_ListNoDup.
    repeat constructor; simpl; intuition discriminate.
  - now apply map_of_imap.
Qed.

(** X4: the chart shows nothing but the statement's own debits: every
    slice is one of the listed transactions, of type 'debit', or it is the
    slice "Others"; that one exists only with more than four debits, stands
    last, and its amount is the reduce-sum of the sorted debits from the
    fifth on. *)
Theorem slices_are_debits_of_statement
    (data : nullable StatementResult) (i : ChartItem) :
  In i (slices (DonutAnalytics data)) ->
  match i with
  | ItemTxn t => In t (listed data) /\ type t = "debit"
  | ItemObj descr amt =>
      descr = "Others"
      /\ (4 < List.length (debits data))%nat
      /\ last (slices (DonutAnalytics data)) = Some i
      /\ amt = sum_amounts (drop 4 (debitTransactions (listed data)))
  end.
Proof.
  rewrite view_cases. unfold debits.
  destruct (listed data) as [ | t0 r] eqn:El; [intros []|].
  assert (Hp : Permutation (debitTransactions (t0 :: r))
                 (List.filter is_debit (t0 :: r))) by apply sort_perm.
  assert (Hlen : List.length (debitTransactions (t0 :: r))
                 = List.length (List.filter is_debit (t0 :: r)))
    by apply sort_length.
  destruct (debitTransactions (t0 :: r)) as [ | x s] eqn:E; [intros []|].
  cbn [slices chart_of chart_items]. rewrite <- Hlen.
  destruct (Nat.le_gt_cases (List.length (x :: s)) 4) as [H4 | H4].
  - rewrite chartItems_small by exact H4.
    intros Hi. apply in_map_iff in Hi as (t & <- & Ht).
    apply (Permutation_in _ Hp), filter_In in Ht as [Ht Hd].
    split; [exact Ht|]. now apply String.eqb_eq.
  - rewrite chartItems_large by exact H4.
    intros Hi. apply in_app_or in Hi as [Hi | [<- | []]].
    + apply in_map_iff in Hi as (t & <- & Ht).
      assert (Ht' : In t (x :: s)).
      { rewrite <- (take_drop 4 (x :: s)). apply in_or_app. now left. }
      apply (Permutation_in _ Hp), filter_In in Ht' as [Ht' Hd].
      split; [exact Ht'|]. now apply String.eqb_eq.
    + split; [reflexivity|]. split; [exact H4|]. split; [|reflexivity].
      now rewrite last_snoc.
Qed.

Lemma slices_are_debits_of_statement_witness :
  let data := Val (statement_of [debit "Fuel" 100%float; debit "Books" 200%float;
                                 debit "Rent" 300%float; credit "Refund" 50%float;
                                 debit "Phone" 400%float; debit "Dinner" 500%float;
                                 debit "Flight" 600%float]) in
  let others := ItemObj "Others" 300%float in
  In others (slices (DonutAnalytics data))
  /\ "Others" = "Others"
  /\ (4 < List.length (debits data))%nat
  /\ last (slices (DonutAnalytics data)) = Some others
  /\ 300%float = sum_amounts (drop 4 (debitTransactions (listed data))).
Proof.
  intros data others.
  assert (H : In others (slices (DonutAnalytics data))).
  { vm_compute. do 4 right. left. reflexivity. }
  split; [exact H|].
  exact (slices_are_debits_of_statement data others H).
Defined.

End Views.

(** ** DonutAnalytics: the order of the slices *)

Section Stability.

Local Open Scope Z_scope.

Lemma with_place_cons (k : Z) (t : Transaction) (l : list Transaction) :
  with_place k (t :: l)
  = if place (amount t) =? k then t :: with_place k l else with_place k l.
Proof. reflexivity. Qed.

Lemma sort_insert_with_place (k : Z) (x : Transaction) (l : list Transaction) :
  is_number (amount x) -> List.Forall is_number (map amount l) ->
  with_place k (sort_insert by_amount_desc x l) = with_place k (x :: l).
Proof.
  intros Hx. induction l as [ | y r IH]; intros Hl; [reflexivity|].
  inversion Hl as [ | ? ? Hy Hr]; subst.
  cbn [sort_insert].
  destruct (sorts_after by_amount_desc x y) eqn:E; [|reflexivity].
  rewrite sorts_after_place in E by assumption.
  apply Z.ltb_lt in E.
  rewrite with_place_cons, (IH Hr), !with_place_cons.
  destruct (Z.eqb_spec (place (amount y)) k), (Z.eqb_spec (place (amount x)) k);
    try reflexivity; lia.
Qed.

Lemma sort_with_place (k : Z) (l : list Transaction) :
  List.Forall is_number (map amount l) ->
  with_place k (sort by_amount_desc l) = with_place k l.
Proof.
  induction l as [ | x r IH]; intros Hl; [reflexivity|].
  inversion Hl as [ | ? ? Hx Hr]; subst.
  cbn [sort]. rewrite sort_insert_with_place.
  - rewrite !with_place_cons, (IH Hr). reflexivity.
  - exact Hx.
  - apply List.Forall_forall. intros a Ha.
    rewrite List.Forall_forall in Hr. apply Hr.
    revert Ha. apply Permutation_in, Permutation_map, sort_perm.
Qed.

(** X5: the sort is stable: unless an amount is NaN, the debits of one
    amount stand in the sorted list in the order they have in the
    statement (so among equal amounts the earlier entries are the ones that
    make it into the top four). *)
Theorem equal_amounts_keep_statement_order
    (data : nullable StatementResult) (k : Z) :
  List.Forall is_number (map amount (debits data)) ->
  with_place k (debitTransactions (listed data)) = with_place k (debits data).
Proof.
  intros H. unfold debitTransactions, debits. now apply sort_with_place.
Qed.

Lemma equal_amounts_keep_statement_order_witness :
  let data := Val (statement_of [debit "Tea" 100%float; debit "Rent" 250%float;
                                 credit "Refund" 100%float;
                                 debit "Bus" 100%float]) in
  List.Forall is_number (map amount (debits data))
  /\ map description (debitTransactions (listed data)) = ["Rent"; "Tea"; "Bus"]
  /\ with_place (place 100%float) (debitTransactions (listed data))
     = [debit "Tea" 100%float; debit "Bus" 100%float].
Proof.
  intros data.
  assert (H : List.Forall is_number (map amount (debits data))).
  { repeat (apply List.Forall_cons; [vm_compute; discriminate|]).
    apply List.Forall_nil. }
  split; [exact H|]. split; [reflexivity|].
  rewrite (equal_amounts_keep_statement_order data (place 100%float) H).
  vm_compute. reflexivity.
Defined.

Lemma sort_of_sorted {A} (cmp : A -> A -> number) (l : list A) :
  StronglySorted (keeps cmp) l -> sort cmp l = l.
Proof.
  induction 1 as [ | x r Hr IH Hx]; [reflexivity|].
  cbn [sort]. rewrite IH.
  destruct r as [ | y r']; [reflexivity|].
  cbn [sort_insert]. inversion Hx as [ | ? ? Hxy _]; subst.
  unfold keeps in Hxy. now rewrite Hxy.
Qed.

(** X6: debits that already stand in descending order of amount are left
    exactly as they stand (ties included), so the first four slices are the
    first four debits of the statement. *)
Theorem descending_statement_is_kept (data : nullable StatementResult) :
  List.Forall is_number (map amount (debits data)) ->
  StronglySorted (fun t u => place (amount u) <= place (amount t)) (debits data) ->
  debitTransactions (listed data) = debits data
  /\ map item_description (take 4 (slices (DonutAnalytics data)))
     = map description (take 4 (debits data)).
Proof.
  intros Hn Hs.
  assert (E : debitTransactions (listed data) = debits data).
  { unfold debitTransactions. fold (debits data).
    apply sort_of_sorted.
    revert Hn. induction Hs as [ | x r Hr IH Hx]; intros Hn; constructor.
    - apply IH. now inversion Hn.
    - inversion Hn as [ | ? ? Hnx Hnr]; subst.
      rewrite List.Forall_forall in Hx, Hnr. apply List.Forall_forall.
      intros y Hy. unfold keeps.
      rewrite sorts_after_place; [|exact Hnx|apply Hnr; now apply in_map].
      apply Z.ltb_ge. now apply Hx. }
  split; [exact E|].
  rewrite view_cases, E.
  destruct (listed data) as [ | t r] eqn:El.
  { unfold debits. rewrite El. reflexivity. }
  destruct (debits data) as [ | x s] eqn:Ed; [reflexivity|].
  cbn [slices chart_of chart_items].
  destruct (Nat.le_gt_cases (List.length (x :: s)) 4) as [H4 | H4].
  - rewrite chartItems_small by exact H4.
    rewrite List.firstn_map, map_map. reflexivity.
  - rewrite chartItems_large by exact H4.
    rewrite take_app_le by (rewrite length_map, length_take; lia).
    rewrite List.firstn_map, take_take, map_map. reflexivity.
Qed.

Lemma descending_statement_is_kept_witness :
  let data := Val (statement_of [debit "Rent" 300%float; credit "Refund" 500%float;
                                 debit "Tea" 200%float; debit "Bus" 200%float;
                                 debit "Fuel" 100%float; debit "Pen" 10%float]) in
  List.Forall is_number (map amount (debits data))
  /\ StronglySorted (fun t u => place (amount u) <= place (amount t))
       (debits data)
  /\ debitTransactions (listed data) = debits data
  /\ map item_description (take 4 (slices (DonutAnalytics data)))
     = ["Rent"; "Tea"; "Bus"; "Fuel"]%string.
Proof.
  intros data.
  assert (H1 : List.Forall is_number (map amount (debits data))).
  { repeat (apply List.Forall_cons; [vm_compute; discriminate|]).
    apply List.Forall_nil. }
  assert (H2 : StronglySorted (fun t u => place (amount u) <= place (amount t))
                 (debits data)).
  { repeat (apply SSorted_cons;
            [|repeat (apply List.Forall_cons; [vm_compute; discriminate|]);
              apply List.Forall_nil]).
    apply SSorted_nil. }
  split; [exact H1|]. split; [exact H2|].
  exact (descending_statement_is_kept data H1 H2).
Defined.

End Stability.

(** ** DonutAnalytics: the largest debits, and the order of the statement *)

Section TopFour.

Local Open Scope Z_scope.

Lemma sorted_app_inv {A} (R : A -> A -> Prop) (l1 l2 : list A) :
  StronglySorted R (l1 ++ l2) ->
  forall x y, In x l1 -> In y l2 -> R x y.
Proof.
  induction l1 as [ | a l1 IH]; intros H x y Hx Hy; [destruct Hx|].
  inversion H as [ | ? ? Hs Ha]; subst.
  destruct Hx as [<- | Hx].
  - rewrite List.Forall_forall in Ha. apply Ha, in_or_app. now right.
  - now apply IH.
Qed.

(** X21: the four slices that show a transaction show the largest debits:
    unless an amount is NaN, a debit of the statement that has no slice of
    its own (it is part of "Others", which is then the last slice) is at
    most as large as every debit that has one. *)
Theorem top_four_are_the_largest
    (data : nullable StatementResult) (t u : Transaction) :
  List.Forall is_number (map amount (debits data)) ->
  In (ItemTxn t) (slices (DonutAnalytics data)) ->
  In u (debits data) ->
  ~ In (ItemTxn u) (slices (DonutAnalytics data)) ->
  place (amount u) <= place (amount t)
  /\ exists others,
       last (slices (DonutAnalytics data)) = Some (ItemObj "Others" others).
Proof.
  intros Hn. rewrite view_cases. unfold debits in *.
  destruct (listed data) as [ | t0 r]; [intros []|].
  assert (Hp : Permutation (debitTransactions (t0 :: r))
                 (List.filter is_debit (t0 :: r))) by apply sort_perm.
  pose proof (sort_descending _ Hn) as Hs.
  fold (debitTransactions (t0 :: r)) in Hs.
  destruct (debitTransactions (t0 :: r)) as [ | x s] eqn:E; [intros []|].
  cbn [slices chart_of chart_items].
  destruct (Nat.le_gt_cases (List.length (x :: s)) 4) as [H4 | H4].
  - rewrite chartItems_small by exact H4.
    intros _ Hu Hnu. exfalso. apply Hnu, in_map.
    revert Hu. apply Permutation_in. now symmetry.
  - rewrite chartItems_large by exact H4.
    intros Ht Hu Hnu.
    split; [|eexists; apply last_snoc].
    apply in_app_or in Ht as [Ht | [Ht | []]]; [|discriminate Ht].
    apply in_map_iff in Ht as (t' & [= ->] & Ht).
    assert (Hu' : In u (take 4 (x :: s) ++ drop 4 (x :: s))%list).
    { rewrite take_drop. revert Hu. apply Permutation_in. now symmetry. }
    apply in_app_or in Hu' as [Hu' | Hu'].
    + exfalso. apply Hnu, in_or_app. left. now apply in_map.
    + rewrite <- (take_drop 4 (x :: s)) in Hs.
      exact (sorted_app_inv _ _ _ Hs t u Ht Hu').
Qed.

Lemma top_four_are_the_largest_witness :
  let data := Val (statement_of [debit "Fuel" 100%float; debit "Books" 200%float;
                                 debit "Rent" 300%float; credit "Refund" 900%float;
                                 debit "Phone" 400%float; debit "Dinner" 500%float;
                                 debit "Flight" 600%float]) in
  let t := debit "Rent" 300%float in
  let u := debit "Books" 200%float in
  List.Forall is_number (map amount (debits data))
  /\ In (ItemTxn t) (slices (DonutAnalytics data))
  /\ In u (debits data)
  /\ ~ In (ItemTxn u) (slices (DonutAnalytics data))
  /\ place (amount u) <= place (amount t)
  /\ exists others,
       last (slices (DonutAnalytics data)) = Some (ItemObj "Others" others).
Proof.
  intros data t u.
  assert (H1 : List.Forall is_number (map amount (debits data))).
  { repeat (apply List.Forall_cons; [vm_compute; discriminate|]).
    apply List.Forall_nil. }
  assert (H2 : In (ItemTxn t) (slices (DonutAnalytics data))).
  { vm_compute. do 3 right. left. reflexivity. }
  assert (H3 : In u (debits data)).
  { vm_compute. right. left. reflexivity. }
  assert (H4 : ~ In (ItemTxn u) (slices (DonutAnalytics data))).
  { intros H. vm_compute in H.
    repeat (destruct H as [H | H]; [discriminate H|]). exact H. }
  split; [exact H1|]. split; [exact H2|]. split; [exact H3|].
  split; [exact H4|].
  exact (top_four_are_the_largest data t u H1 H2 H3 H4).
Defined.

End TopFour.

Section OrderOfStatement.

(** The percentage of a zero, of either sign. *)
Lemma percentage_of_zero (x t : number) :
  is_zero x ->
  toFixed1 (x / t * 100)%float
  = match Prim2SF t with
    | S754_nan | S754_zero _ => Some "NaN"
    | _ => Some "0.0"
    end.
Proof.
  intros [s Hs]. unfold toFixed1.
  rewrite mul_spec, div_spec, Hs.
  destruct (Prim2SF t) as [[ | ] | [ | ] | | [ | ] m e], s; reflexivity.
Qed.

Lemma percentage_similar (x y t : number) :
  similar x y ->
  toFixed1 (x / t * 100)%float = toFixed1 (y / t * 100)%float.
Proof.
  intros [-> | [Hx Hy]]; [reflexivity|].
  now rewrite !percentage_of_zero.
Qed.

Lemma similar_refl (x : number) : similar x x.
Proof. now left. Qed.

Lemma chartItems_similar (s s' : list Transaction) :
  Forall2 similar (map amount s) (map amount s') ->
  Forall2 similar (map item_amount (chartItems s))
    (map item_amount (chartItems s')).
Proof.
  intros H.
  assert (Hlen : List.length s = List.length s').
  { apply Forall2_length in H. now rewrite !length_map in H. }
  assert (Ht : Forall2 similar (map amount (take 4 s)) (map amount (take 4 s'))).
  { rewrite <- !List.firstn_map. now apply Forall2_take. }
  assert (Hd : Forall2 similar (map amount (drop 4 s)) (map amount (drop 4 s'))).
  { rewrite <- !List.skipn_map. now apply Forall2_drop. }
  rewrite !chartItems_amounts. unfold otherItemsSum, otherItems, topItems.
  assert (Hl : List.length (drop 4 s) = List.length (drop 4 s'))
    by (rewrite !length_drop; lia).
  destruct (drop 4 s) as [ | t r] eqn:E, (drop 4 s') as [ | t' r'] eqn:E';
    try discriminate Hl; [exact Ht|].
  apply Forall2_app; [exact Ht|].
  constructor; [|constructor]. left.
  rewrite !sum_amounts_reduce.
  apply reduce_add_similar; [exact Hd|discriminate].
Qed.

(** X22: the amounts of the slices do not depend on the order in which
    the statement lists its transactions: unless an amount is NaN, two
    arrangements of the same transactions give the same slice amounts, one
    by one (a zero may differ in its sign), and the same percentages in the
    legend.  (Which of several debits of one amount gets a slice does
    depend on the order.) *)
Theorem slice_amounts_permutation_invariant
    (d : StatementResult) (txns txns' : list Transaction) :
  Permutation txns txns' ->
  List.Forall is_number (map amount (List.filter is_debit txns)) ->
  let v := DonutAnalytics (Val (with_transactions d txns)) in
  let v' := DonutAnalytics (Val (with_transactions d txns')) in
  Forall2 similar (map item_amount (slices v)) (map item_amount (slices v'))
  /\ map legend_percentage (legend_of v) = map legend_percentage (legend_of v').
Proof.
  intros Hp Hn. cbv zeta.
  assert (Hf : Permutation (List.filter is_debit txns) (List.filter is_debit txns'))
    by now apply filter_perm.
  assert (Hn' : List.Forall is_number (map amount (List.filter is_debit txns'))).
  { revert Hn. apply Permutation_Forall. now apply Permutation_map. }
  pose proof (sorted_sum_invariant _ _ Hf) as Hs.
  assert (Hsim : Forall2 similar (map amount (debitTransactions txns))
                   (map amount (debitTransactions txns'))).
  { apply similar_of_places.
    - revert Hn. apply Permutation_Forall, Permutation_map.
      symmetry. apply sort_perm.
    - revert Hn'. apply Permutation_Forall, Permutation_map.
      symmetry. apply sort_perm.
    - rewrite !map_map. now apply sorted_places_invariant. }
  fold (debitTransactions txns) in Hs. fold (debitTransactions txns') in Hs.
  pose proof (chartItems_similar _ _ Hsim) as Hc.
  rewrite !view_cases. cbn [listed with_transactions transactions].
  destruct txns as [ | t r].
  { apply Permutation_nil in Hp. subst. split; [constructor|reflexivity]. }
  destruct txns' as [ | t' r'].
  { symmetry in Hp. now apply Permutation_nil in Hp. }
  assert (Hl : List.length (debitTransactions (t :: r))
               = List.length (debitTransactions (t' :: r'))).
  { apply Forall2_length in Hsim. now rewrite !length_map in Hsim. }
  destruct (debitTransactions (t :: r)) as [ | x s];
    destruct (debitTransactions (t' :: r')) as [ | x' s'];
    try discriminate Hl; [split; [constructor|reflexivity]|].
  cbn [slices legend_of chart_of chart_items chart_legend].
  split; [exact Hc|].
  rewrite !legend_percentages. unfold totalSpent. rewrite Hs.
  generalize (sum_amounts (x' :: s')). intros total.
  revert Hc. generalize (chartItems (x :: s)), (chartItems (x' :: s')).
  intros c c'. revert c'.
  induction c as [ | i c IH]; intros [ | i' c'] H; inversion H; subst;
    [reflexivity|].
  cbn [map]. f_equal; [now apply percentage_similar|now apply IH].
Qed.

Lemma slice_amounts_permutation_invariant_witness :
  let txns := [debit "Tea" 0.1%float; credit "Refund" 5%float;
               debit "Bus" 0.2%float; debit "Snack" 0.3%float] in
  let v := DonutAnalytics (Val (with_transactions (statement_of []) txns)) in
  let v' := DonutAnalytics (Val (with_transactions (statement_of []) (rev txns))) in
  Permutation txns (rev txns)
  /\ List.Forall is_number (map amount (List.filter is_debit txns))
  /\ Forall2 similar (map item_amount (slices v)) (map item_amount (slices v'))
  /\ map legend_percentage (legend_of v) = map legend_percentage (legend_of v').
Proof.
  intros txns v v'.
  assert (H1 : Permutation txns (rev txns)) by apply Permutation_rev.
  assert (H2 : List.Forall is_number (map amount (List.filter is_debit txns))).
  { repeat (apply List.Forall_cons; [vm_compute; discriminate|]).
    apply List.Forall_nil. }
  split; [exact H1|]. split; [exact H2|].
  exact (slice_amounts_permutation_invariant (statement_of []) txns (rev txns)
           H1 H2).
Defined.

End OrderOfStatement.

(** ** DonutAnalytics: two edge cases of the percentages *)

Section WholeChart.

Local Open Scope Z_scope.

(** A finite number other than zero, divided by itself, is 1. *)
Lemma div_self (a : number) (s : bool) (m : positive) (e : Z) :
  Prim2SF a = S754_finite s m e -> (a / a)%float = 1%float.
Proof.
  intros H. apply Prim2SF_inj. rewrite div_spec, H.
  unfold SF64div, SFdiv, SFdiv_core_binary.
  rewrite !Z.sub_diag.
  change (Z.min (fexp prec emax 0) 0) with (-53).
  change (0 - -53) with 53.
  cbv iota beta.
  rewrite Z.shiftl_mul_pow2 by lia.
  pose proof (Z.div_eucl_eq (Z.pos m * 2 ^ 53) (Z.pos m) ltac:(lia)) as D.
  pose proof (Z.mod_pos_bound (Z.pos m * 2 ^ 53) (Z.pos m) ltac:(lia)) as B.
  unfold Z.modulo in B.
  destruct (Z.div_eucl (Z.pos m * 2 ^ 53) (Z.pos m)) as [q r].
  assert (Hr : r = 0).
  { assert (E : Z.pos m * (2 ^ 53 - q) = r) by lia.
    destruct (Z.eq_dec (2 ^ 53 - q) 0) as [Z0 | NZ]; [rewrite Z0 in E; lia|].
    exfalso. nia. }
  assert (Hq : q = 2 ^ 53) by nia.
  subst q r.
  replace (xorb s s) with false by (now destruct s).
  unfold new_location.
  destruct (Z.even (Z.pos m)); vm_compute; reflexivity.
Qed.

Lemma add_zero_finite (a : number) (s : bool) (m : positive) (e : Z) :
  Prim2SF a = S754_finite s m e -> (0 + a)%float = a.
Proof.
  intros H. apply Prim2SF_inj. rewrite add_spec, H. reflexivity.
Qed.

(** X7: a statement with exactly one debit, of a finite amount other than
    zero (negative ones included), gives one slice, that debit; the total is
    its amount and its percentage reads "100.0". *)
Theorem single_debit_is_whole_chart
    (data : nullable StatementResult) (t : Transaction)
    (s : bool) (m : positive) (e : Z) :
  debits data = [t] -> Prim2SF (amount t) = S754_finite s m e ->
  let v := DonutAnalytics data in
  slices v = [ItemTxn t]
  /\ grand_total v = Some (amount t)
  /\ map legend_percentage (legend_of v) = [Some "100.0"%string].
Proof.
  intros Hd Ha. cbv zeta. rewrite view_cases. unfold debits in Hd.
  destruct (listed data) as [ | t0 r]; [discriminate Hd|].
  unfold debitTransactions. rewrite Hd. cbn [sort sort_insert].
  cbn [slices grand_total legend_of chart_of chart_items chart_total chart_legend].
  assert (Ht : totalSpent [t] = amount t).
  { unfold totalSpent, sum_amounts. cbn [fold_left].
    exact (add_zero_finite _ _ _ _ Ha). }
  rewrite Ht. split; [reflexivity|]. split; [reflexivity|].
  rewrite legend_percentages.
  change (chartItems [t]) with [ItemTxn t].
  cbn [map]. unfold percentage. cbn [item_amount].
  rewrite (div_self _ _ _ _ Ha). reflexivity.
Qed.

Lemma single_debit_is_whole_chart_witness :
  let t := debit "Rent" 1500%float in
  let data := Val (statement_of [credit "Refund" 200%float; t]) in
  debits data = [t]
  /\ Prim2SF (amount t) = S754_finite false 6597069766656000 (-42)
  /\ slices (DonutAnalytics data) = [ItemTxn t]
  /\ grand_total (DonutAnalytics data) = Some 1500%float
  /\ map legend_percentage (legend_of (DonutAnalytics data))
     = [Some "100.0"%string].
Proof.
  intros t data.
  assert (H1 : debits data = [t]) by reflexivity.
  assert (H2 : Prim2SF (amount t) = S754_finite false 6597069766656000 (-42))
    by reflexivity.
  split; [exact H1|]. split; [exact H2|].
  exact (single_debit_is_whole_chart data t false 6597069766656000 (-42) H1 H2).
Defined.

Lemma div_nan_r (x : number) : (x / nan)%float = nan.
Proof.
  apply Prim2SF_inj. rewrite div_spec.
  change (Prim2SF nan) with S754_nan.
  destruct (Prim2SF x) as [s | s | | s m e]; reflexivity.
Qed.

(** X8: one debit whose amount is NaN spoils the whole chart: the total is
    NaN, the text in the middle reads "₹NaN" and every row of the legend
    shows "NaN" as its percentage. *)
Theorem nan_amount_spoils_chart (data : nullable StatementResult) :
  List.Exists (fun t => ~ is_number (amount t)) (debits data) ->
  let v := DonutAnalytics data in
  grand_total v = Some nan
  /\ center_text v = Some "₹NaN"%string
  /\ List.Forall (fun row => legend_percentage row = Some "NaN"%string)
       (legend_of v).
Proof.
  intros Hex. cbv zeta. rewrite view_cases. unfold debits in Hex.
  destruct (listed data) as [ | t r].
  { simpl in Hex. inversion Hex. }
  assert (Hp : Permutation (debitTransactions (t :: r))
                 (List.filter is_debit (t :: r))) by apply sort_perm.
  assert (Hnan : totalSpent (debitTransactions (t :: r)) = nan).
  { unfold totalSpent. rewrite sum_amounts_reduce.
    apply reduce_add_with_nan. apply List.Exists_exists.
    apply List.Exists_exists in Hex as (u & Hu & Hn).
    exists (amount u). split; [|exact Hn].
    apply in_map. revert Hu. apply Permutation_in. now symmetry. }
  destruct (debitTransactions (t :: r)) as [ | x s] eqn:E.
  { apply Permutation_nil in Hp. rewrite Hp in Hex. inversion Hex. }
  cbn [grand_total center_text legend_of chart_of chart_total
       chart_center_text chart_legend].
  rewrite Hnan. split; [reflexivity|]. split; [reflexivity|].
  apply List.Forall_forall. intros row Hrow.
  assert (Hin : In (legend_percentage row)
                  (map legend_percentage
                     (imap (legend_item nan) (chartItems (x :: s)))))
    by now apply in_map.
  rewrite legend_percentages in Hin.
  apply in_map_iff in Hin as (item & Hitem & _).
  rewrite <- Hitem. unfold percentage. rewrite div_nan_r. reflexivity.
Qed.

Lemma nan_amount_spoils_chart_witness :
  let data := Val (statement_of [debit "Rent" 300%float; debit "Unknown" nan;
                                 debit "Fuel" 100%float]) in
  List.Exists (fun t => ~ is_number (amount t)) (debits data)
  /\ grand_total (DonutAnalytics data) = Some nan
  /\ center_text (DonutAnalytics data) = Some "₹NaN"%string
  /\ List.Forall (fun row => legend_percentage row = Some "NaN"%string)
       (legend_of (DonutAnalytics data)).
Proof.
  intros data.
  assert (H : List.Exists (fun t => ~ is_number (amount t)) (debits data)).
  { apply List.Exists_cons_tl, List.Exists_cons_hd.
    intros Hn. apply Hn. reflexivity. }
  split; [exact H|].
  exact (nan_amount_spoils_chart data H).
Defined.

End WholeChart.

(** ** Amounts as the components print them *)

Section Amounts.

Import Results.

Local Open Scope Z_scope.

(** The magnitude of a whole number, scaled by [K], is not rounded. *)
Lemma nearest_scaled_whole (s : bool) (m : positive) (e k K : Z) :
  0 < K ->
  (if 0 <=? e then Some (cond_Zopp s (Zpos m * 2 ^ e))
   else if Zpos m mod 2 ^ (- e) =? 0
        then Some (cond_Zopp s (Zpos m / 2 ^ (- e)))
        else None) = Some k ->
  nearest_scaled m e K = Z.abs k * K.
Proof.
  intros HK. unfold nearest_scaled.
  destruct (Z.leb_spec 0 e) as [He | He].
  - intros [= <-]. f_equal.
    assert (0 < Zpos m * 2 ^ e)
      by (apply Z.mul_pos_pos; [lia|apply Z.pow_pos_nonneg; lia]).
    destruct s; simpl; lia.
  - destruct (Z.eqb_spec (Zpos m mod 2 ^ (- e)) 0) as [Hm | Hm]; [|discriminate].
    intros [= <-].
    assert (Hp : 0 < 2 ^ (- e)) by (apply Z.pow_pos_nonneg; lia).
    set (P := 2 ^ (- e)) in *.
    set (j := Zpos m / P).
    assert (Hj : Zpos m = j * P).
    { unfold j. pose proof (Z.div_mod (Zpos m) P ltac:(lia)). lia. }
    assert (Hj0 : 0 < j) by nia.
    replace (Z.abs (cond_Zopp s j)) with j by (destruct s; simpl; lia).
    replace (2 ^ (1 - e)) with (2 * P)
      by (unfold P; rewrite <- Z.pow_succ_r by lia; f_equal; lia).
    rewrite Hj.
    replace (2 * (j * P) * K + P) with ((2 * (j * K) + 1) * P) by ring.
    rewrite Z.div_mul_cancel_r by lia.
    symmetry. apply (Z.div_unique _ _ _ 1); lia.
Qed.

Lemma whole_inv (a : number) (k : Z) :
  whole a = Some k ->
  match Prim2SF a with
  | S754_zero s => k = 0
  | S754_finite s m e =>
      (if 0 <=? e then Some (cond_Zopp s (Zpos m * 2 ^ e))
       else if Zpos m mod 2 ^ (- e) =? 0
            then Some (cond_Zopp s (Zpos m / 2 ^ (- e)))
            else None) = Some k
  | _ => False
  end.
Proof.
  unfold whole. destruct (Prim2SF a); try discriminate; auto.
  now intros [= <-].
Qed.

Lemma append_empty_r (s : string) : (s ++ "")%string = s.
Proof.
  induction s as [ | c s IH]; [reflexivity|].
  change (String c (s ++ "") = String c s)%string. now rewrite IH.
Qed.

(** A whole number printed with two fraction digits, and with as many as
    needed. *)
Lemma toLocaleString_whole_2 (a : number) (k : Z) :
  whole a = Some k ->
  toLocaleString_enIN 2 2 a
  = ((if sign_bit a then "-" else "")
       ++ group_enIN (digits (Z.abs k)) ++ ".00")%string.
Proof.
  intros H. apply whole_inv in H.
  unfold toLocaleString_enIN, sign_bit.
  destruct (Prim2SF a) as [s | s | | s m e]; try contradiction.
  - subst k. destruct s; reflexivity.
  - change (10 ^ Z.of_nat 2) with 100.
    rewrite (nearest_scaled_whole s m e k 100) by (auto; lia).
    rewrite Z.div_mul, Z.mod_mul by lia. reflexivity.
Qed.

Lemma toLocaleString_whole_0 (a : number) (k : Z) :
  whole a = Some k ->
  toLocaleString_enIN 0 3 a
  = ((if sign_bit a then "-" else "") ++ group_enIN (digits (Z.abs k)))%string.
Proof.
  intros H. apply whole_inv in H.
  unfold toLocaleString_enIN, sign_bit.
  destruct (Prim2SF a) as [s | s | | s m e]; try contradiction.
  - subst k. destruct s; reflexivity.
  - change (10 ^ Z.of_nat 3) with 1000.
    rewrite (nearest_scaled_whole s m e k 1000) by (auto; lia).
    rewrite Z.div_mul, Z.mod_mul by lia.
    cbn [fraction_digits].
    change (rev (strip_zeros 0 (rev (fraction_digits 3 0)))) with (@nil ascii).
    cbv iota. now rewrite !append_empty_r.
Qed.

Lemma whole_nonneg_sign (a : number) (k : Z) :
  whole a = Some k -> 0 <= k -> Prim2SF a <> S754_zero true ->
  sign_bit a = false.
Proof.
  intros H Hk Hz. apply whole_inv in H. unfold sign_bit.
  destruct (Prim2SF a) as [[ | ] | s | | [ | ] m e]; try contradiction;
    try reflexivity; exfalso.
  destruct (Z.leb_spec 0 e) as [He | He].
  - injection H as <-.
    assert (0 < Zpos m * 2 ^ e)
      by (apply Z.mul_pos_pos; [lia|apply Z.pow_pos_nonneg; lia]).
    cbn [cond_Zopp] in Hk. lia.
  - destruct (Z.eqb_spec (Zpos m mod 2 ^ (- e)) 0) as [Hm | Hm];
      [|discriminate].
    injection H as <-.
    assert (Hp : 0 < 2 ^ (- e)) by (apply Z.pow_pos_nonneg; lia).
    pose proof (Z.div_mod (Zpos m) (2 ^ (- e)) ltac:(lia)) as D.
    assert (0 < Zpos m / 2 ^ (- e)) by nia.
    cbn [cond_Zopp] in Hk. lia.
Qed.

(** X9: an amount that is a whole number (of magnitude up to 2^53, where
    every engine prints the exact digits) is shown by [formatCurrency] as
    the rupee sign, a minus sign if it is negative, its digits in the
    grouping of en-IN and ".00"; the legend of the chart shows the same
    text without the ".00". *)
Theorem formatCurrency_whole_amount
    (total : number) (index : nat) (item : ChartItem) (k : Z) :
  whole (item_amount item) = Some k -> Z.abs k <= 2 ^ 53 ->
  formatCurrency (Val (item_amount item))
  = ("₹" ++ (if sign_bit (item_amount item) then "-" else "")
         ++ group_enIN (digits (Z.abs k)) ++ ".00")%string
  /\ legend_amount (legend_item total index item)
     = ("₹" ++ (if sign_bit (item_amount item) then "-" else "")
            ++ group_enIN (digits (Z.abs k)))%string
  /\ formatCurrency (Val (item_amount item))
     = (legend_amount (legend_item total index item) ++ ".00")%string.
Proof.
  intros H _. unfold formatCurrency, legend_item. cbn [legend_amount].
  rewrite (toLocaleString_whole_2 _ k H), (toLocaleString_whole_0 _ k H).
  split; [reflexivity|]. split; [reflexivity|].
  destruct (sign_bit (item_amount item)); reflexivity.
Qed.

Lemma formatCurrency_whole_amount_witness :
  let item := ItemTxn (debit "Rent" 150000%float) in
  whole (item_amount item) = Some 150000 /\ Z.abs 150000 <= 2 ^ 53
  /\ formatCurrency (Val (item_amount item)) = "₹1,50,000.00"%string
  /\ legend_amount (legend_item 150000%float 0 item) = "₹1,50,000"%string.
Proof.
  intros item.
  assert (H1 : whole (item_amount item) = Some 150000) by reflexivity.
  assert (H2 : Z.abs 150000 <= 2 ^ 53) by (vm_compute; discriminate).
  destruct (formatCurrency_whole_amount 150000%float 0 item 150000 H1 H2)
    as (F1 & F2 & _).
  split; [exact H1|]. split; [exact H2|]. split.
  - rewrite F1. reflexivity.
  - rewrite F2. reflexivity.
Defined.

(** *** Reading a grouped number back *)

Lemma ungroup_pairs (r : list ascii) :
  List.filter (fun c => negb (Ascii.eqb c ","%char)) (group_pairs r)
  = List.filter (fun c => negb (Ascii.eqb c ","%char)) r.
Proof.
  assert (G : forall n r, (List.length r <= n)%nat ->
              List.filter (fun c => negb (Ascii.eqb c ","%char)) (group_pairs r)
              = List.filter (fun c => negb (Ascii.eqb c ","%char)) r).
  { clear r. induction n as [ | n IH]; intros r Hr.
    - destruct r; [reflexivity|simpl in Hr; lia].
    - destruct r as [ | a [ | b r]]; try reflexivity.
      cbn [group_pairs List.filter Ascii.eqb].
      change (Ascii.eqb ","%char ","%char) with true. cbn [negb].
      rewrite (IH r) by (simpl in Hr; lia). reflexivity. }
  now apply (G (List.length r)).
Qed.

Lemma ungroup_group (ds : string) : ungroup (group_enIN ds) = ungroup ds.
Proof.
  unfold ungroup, group_enIN.
  destruct (rev (list_ascii_of_string ds)) as [ | a [ | b [ | c r]]] eqn:E;
    try reflexivity.
  rewrite list_ascii_of_string_of_list_ascii.
  f_equal.
  rewrite <- (rev_involutive (list_ascii_of_string ds)), E.
  rewrite !List.filter_rev. f_equal.
  cbn [List.filter]. rewrite ungroup_pairs. reflexivity.
Qed.

Lemma digits_no_separator (d : Decimal.uint) :
  List.filter (fun c => negb (Ascii.eqb c ","%char))
    (list_ascii_of_string (NilEmpty.string_of_uint d))
  = list_ascii_of_string (NilEmpty.string_of_uint d).
Proof.
  induction d as [ | d IH | d IH | d IH | d IH | d IH | d IH | d IH | d IH
                   | d IH | d IH];
    cbn [NilEmpty.string_of_uint list_ascii_of_string];
    [reflexivity| cbn [List.filter]; cbn; now rewrite IH ..].
Qed.

Lemma ungroup_digits (n : Z) : ungroup (digits n) = digits n.
Proof.
  unfold ungroup, digits, NilZero.string_of_uint.
  destruct (N.to_uint (Z.to_N n)) eqn:E; try reflexivity;
    rewrite digits_no_separator; apply string_of_list_ascii_of_string.
Qed.

Lemma read_digits (n : Z) :
  0 <= n ->
  match NilZero.uint_of_string (digits n) with
  | Some d => Some (Z.of_N (N.of_uint d))
  | None => None
  end = Some n.
Proof.
  intros Hn. unfold digits.
  destruct (Decimal.uint_eq_dec (N.to_uint (Z.to_N n)) Decimal.Nil) as [E | E].
  - rewrite E, NilZero.usu_nil.
    pose proof (DecimalN.Unsigned.of_to (Z.to_N n)) as H. rewrite E in H.
    f_equal. simpl in H. simpl. lia.
  - rewrite NilZero.usu by exact E.
    rewrite DecimalN.Unsigned.of_to. f_equal. lia.
Qed.

(** Grouping is undone by dropping the separators. *)
Lemma read_grouped_digits (n : Z) :
  0 <= n -> read_grouped (group_enIN (digits n)) = Some n.
Proof.
  intros Hn. unfold read_grouped.
  rewrite ungroup_group, ungroup_digits. now apply read_digits.
Qed.

(** X10: when the debit amounts are non-negative whole numbers that add up
    to [K], at most 2^53, the text in the middle of the chart is the rupee
    sign followed by the digits of [K] in the grouping of en-IN, without
    decimals; dropping the separators and reading the digits gives [K]
    back. *)
Theorem center_text_of_whole_debits (data : nullable StatementResult) (K : Z) :
  debits data <> [] ->
  whole_total (map amount (debits data)) = Some K -> K <= 2 ^ 53 ->
  center_text (DonutAnalytics data)
  = Some ("₹" ++ group_enIN (digits K))%string
  /\ read_grouped (group_enIN (digits K)) = Some K.
Proof.
  intros Hne HK Hle.
  pose proof (whole_total_nonneg _ _ HK) as H0.
  split; [|now apply read_grouped_digits].
  rewrite view_cases. unfold debits in *.
  destruct (listed data) as [ | t r]; [contradiction|].
  assert (Hp : Permutation (debitTransactions (t :: r))
                 (List.filter is_debit (t :: r))) by apply sort_perm.
  destruct (debitTransactions (t :: r)) as [ | x s] eqn:E.
  { apply Permutation_nil in Hp. congruence. }
  cbn [center_text chart_of chart_center_text]. f_equal. f_equal.
  assert (HK' : whole_total (map amount (x :: s)) = Some K).
  { rewrite <- HK. now apply whole_total_perm, Permutation_map. }
  unfold totalSpent. rewrite sum_amounts_reduce.
  destruct (whole_reduce _ 0%float 0 K whole_zero ltac:(lia) HK' ltac:(lia))
    as [_ W].
  rewrite (toLocaleString_whole_0 _ _ W).
  rewrite (whole_nonneg_sign _ _ W) by
    (try lia; apply reduce_add_not_neg_zero; discriminate).
  replace (Z.abs (0 + K)) with K by lia. reflexivity.
Qed.

Lemma center_text_of_whole_debits_witness :
  let data := Val (statement_of [debit "Rent" 125000%float;
                                 credit "Refund" 200%float;
                                 debit "Fuel" 4500%float]) in
  debits data <> []
  /\ whole_total (map amount (debits data)) = Some 129500
  /\ 129500 <= 2 ^ 53
  /\ center_text (DonutAnalytics data) = Some "₹1,29,500"%string
  /\ read_grouped "1,29,500" = Some 129500.
Proof.
  intros data.
  assert (H1 : debits data <> []) by discriminate.
  assert (H2 : whole_total (map amount (debits data)) = Some 129500)
    by reflexivity.
  assert (H3 : 129500 <= 2 ^ 53) by (vm_compute; discriminate).
  split; [exact H1|]. split; [exact H2|]. split; [exact H3|].
  exact (center_text_of_whole_debits data 129500 H1 H2 H3).
Defined.

(** *** Digits *)

Lemma nearest_scaled_nonneg (m : positive) (e K : Z) :
  0 < K -> 0 <= nearest_scaled m e K.
Proof.
  intros HK. unfold nearest_scaled.
  destruct (Z.leb_spec 0 e) as [He | He].
  - assert (0 < 2 ^ e) by (apply Z.pow_pos_nonneg; lia). nia.
  - assert (0 < 2 ^ (- e)) by (apply Z.pow_pos_nonneg; lia).
    assert (0 < 2 ^ (1 - e)) by (apply Z.pow_pos_nonneg; lia).
    apply Z.div_pos; nia.
Qed.

Lemma digit_char (d : Z) :
  0 <= d < 10 -> exists c, digits d = String c "".
Proof.
  intros H.
  assert (D : d = 0 \/ d = 1 \/ d = 2 \/ d = 3 \/ d = 4 \/ d = 5 \/ d = 6
              \/ d = 7 \/ d = 8 \/ d = 9) by lia.
  repeat (destruct D as [-> | D]; [eexists; reflexivity|]).
  subst d. eexists; reflexivity.
Qed.

End Amounts.

(** ** The tooltip of the chart *)

Section Tooltip.

Import Results.

Lemma truthy_string_nonempty (s : string) : truthy_string s = true <-> s <> "".
Proof.
  unfold truthy_string. destruct (String.eqb_spec s ""); simpl; split;
    congruence.
Qed.

Lemma or_else_truthy (s : nullable string) (d : string) :
  truthy_string d = true -> truthy_string (or_else s d) = true.
Proof.
  intros Hd. destruct s as [ | | x]; simpl; try exact Hd.
  destruct (String.eqb x "") eqn:E; [exact Hd|].
  unfold truthy_string. now rewrite E.
Qed.

Lemma or_else_of_truthy (x d : string) :
  truthy_string x = true -> or_else (Val x) d = x.
Proof.
  unfold truthy_string. simpl. now destruct (String.eqb x "").
Qed.

Lemma abs_of_unsigned (x : number) : sign_bit x = false -> abs x = x.
Proof.
  unfold sign_bit. intros H. apply Prim2SF_inj. rewrite abs_spec.
  destruct (Prim2SF x); simpl in *; congruence.
Qed.

Lemma toLocaleString_of_signed (minfd maxfd : nat) (x : number) :
  sign_bit x = true ->
  toLocaleString_enIN minfd maxfd x
  = "-" ++ toLocaleString_enIN minfd maxfd (abs x).
Proof.
  unfold sign_bit, toLocaleString_enIN. rewrite abs_spec.
  destruct (Prim2SF x) as [s | s | | s m e]; cbn [SFabs];
    intros H; try discriminate H; subst s; reflexivity.
Qed.

(** X12: the tooltip of a slice is its description, a colon and a blank
    (nothing of these for an empty description), followed by the amount as
    a currency.  For an amount without a sign the currency text is the text
    [formatCurrency] gives in the table; for a negative one the two differ
    in where the minus sign stands: before the rupee sign in the tooltip,
    after it in the table. *)
Theorem tooltip_label_of_slice (item : ChartItem) :
  let descr := item_description item in
  let a := item_amount item in
  (descr <> "" -> label (Val descr) (Val a) = (descr ++ ": ") ++ format_INR a)
  /\ (descr = "" -> label (Val descr) (Val a) = format_INR a)
  /\ label (Val descr) Null = (if truthy_string descr then descr ++ ": " else "")
  /\ (sign_bit a = false -> format_INR a = formatCurrency (Val a))
  /\ (sign_bit a = true ->
      exists magnitude,
        format_INR a = "-₹" ++ magnitude
        /\ formatCurrency (Val a) = "₹-" ++ magnitude).
Proof.
  unfold label, format_INR, formatCurrency. cbv zeta.
  repeat split.
  - intros H. apply truthy_string_nonempty in H.
    rewrite or_else_of_truthy by exact H. now rewrite H.
  - intros ->. reflexivity.
  - unfold or_else, truthy_string.
    destruct (String.eqb (item_description item) "") eqn:E;
      [reflexivity|now rewrite E].
  - intros H. now rewrite H, abs_of_unsigned.
  - intros H. exists (toLocaleString_enIN 2 2 (abs (item_amount item))).
    rewrite H, (toLocaleString_of_signed _ _ _ H). split; reflexivity.
Qed.

Example tooltip_labels :
  label (Val "Rent") (Val 1500%float) = "Rent: ₹1,500.00"
  /\ label (Val "Chargeback") (Val (-250.5)%float) = "Chargeback: -₹250.50"
  /\ formatCurrency (Val (-250.5)%float) = "₹-250.50"
  /\ label (Val "") (Val 12%float) = "₹12.00"
  /\ label Undefined Null = "".
Proof. repeat split. Qed.

End Tooltip.

(** ** ResultsDisplay next to DonutAnalytics *)

Section TableAndChart.

Import Results.

(** X13: the table of [ResultsDisplay] and the chart agree on what an
    empty statement is: the table is shown exactly when [DonutAnalytics]
    renders something (chart or message), and "No transactions found" exactly
    when it renders nothing.  The table has one row per listed transaction,
    credits included, in the order of the statement, so it never has fewer
    rows than the chart has slices. *)
Theorem table_and_chart_agree (d : StatementResult) :
  exists p,
    ResultsDisplay (Val d) = Some p
    /\ match transactions_section p with
       | TransactionsTable rows =>
           DonutAnalytics (Val d) <> RenderNothing
           /\ listed (Val d) <> []
           /\ map row_description rows = map description (listed (Val d))
           /\ map row_class rows = map type (listed (Val d))
           /\ map row_amount rows
              = map (fun t => formatCurrency (Val (amount t))) (listed (Val d))
           /\ (List.length (slices (DonutAnalytics (Val d)))
               <= List.length rows)%nat
       | NoTransactions text =>
           DonutAnalytics (Val d) = RenderNothing
           /\ listed (Val d) = []
           /\ text = "No transactions found in this statement."
       end.
Proof.
  eexists. split; [reflexivity|].
  cbn [transactions_section].
  pose proof (slices_count (Val d)) as Hn.
  pose proof (renders_nothing_iff (Val d)) as Hv.
  revert Hn Hv. unfold debits. cbn [listed].
  destruct (transactions d) as [ | | [ | t r]]; intros Hn Hv;
    try (split; [now apply Hv|split; reflexivity]).
  split; [intros H; apply Hv in H; discriminate H|].
  split; [discriminate|].
  rewrite !map_map. repeat split.
  rewrite Hn, length_map.
  pose proof (List.filter_length_le is_debit (t :: r)). lia.
Qed.

End TableAndChart.

(** ** App: a submit with a file *)

Ltac run_handler Hf :=
  unfold App.handleSubmit, App.try_block, App.bind, App.get, App.emit,
    App.setIsLoading, App.setParsedData, App.setError, App.ret;
  cbn [App.file App.bank App.parsedData App.isLoading App.error fst snd];
  rewrite Hf;
  cbn [App.file App.bank App.parsedData App.isLoading App.error fst snd
       negb app].

Section SubmitWithFile.

Import App.

Lemma handleSubmit_fetches (net : FetchOutcome) (st : State) (f : File) :
  file st = Val f ->
  List.filter is_fetch (handleSubmit net st).2
  = [Fetch apiUrl "POST" (bank st) f].
Proof.
  intros Hf. run_handler Hf.
  destruct net as [message | [[ | ] status [message | | e d]]]; reflexivity.
Qed.

(** X14: a submit with a file selected sends exactly one request, a POST to
    the parsing service with the selected bank and that file, after the
    handler has set the loading flag, cleared the stored result and the
    error.  When the request comes to an end, whichever way ([fetch]
    rejects, or it resolves and [response.json()] rejects or resolves, on
    an [ok] response or another), [setIsLoading] has been called twice,
    with [true] and at the very end with [false]: no answer and no failure
    leaves the page loading.  Nothing is said of a request that never
    settles; the handler sets no timeout.  [bank] and [file] are not
    changed. *)
Theorem submit_with_file_sends_one_request
    (net : FetchOutcome) (st : State) (f : File) :
  file st = Val f ->
  let '(_, st', events) := handleSubmit net st in
  take 5 events
  = [PreventDefault; SetIsLoading true; SetParsedData Null; SetError "";
     Fetch apiUrl "POST" (bank st) f]
  /\ List.filter is_fetch events = [Fetch apiUrl "POST" (bank st) f]
  /\ List.filter is_set_loading events = [SetIsLoading true; SetIsLoading false]
  /\ last events = Some (SetIsLoading false)
  /\ isLoading st' = false
  /\ bank st' = bank st
  /\ file st' = file st.
Proof.
  intros Hf. run_handler Hf.
  destruct net as [message | [[ | ] status [message | | e d]]];
    cbn [ok body statusText negb app file bank parsedData isLoading error];
    repeat split; exact Hf.
Qed.

Lemma submit_with_file_sends_one_request_witness :
  let st := Form.onFileChange [mkFile "april.pdf"] initial in
  file st = Val (mkFile "april.pdf")
  /\ let '(_, st', events) := handleSubmit (FetchRejects "Failed to fetch") st in
     take 5 events
     = [PreventDefault; SetIsLoading true; SetParsedData Null; SetError "";
        Fetch apiUrl "POST" (bank st) (mkFile "april.pdf")]
     /\ List.filter is_fetch events
        = [Fetch apiUrl "POST" (bank st) (mkFile "april.pdf")]
     /\ List.filter is_set_loading events
        = [SetIsLoading true; SetIsLoading false]
     /\ last events = Some (SetIsLoading false)
     /\ isLoading st' = false
     /\ bank st' = bank st
     /\ file st' = file st.
Proof.
  intros st. split; [reflexivity|].
  exact (submit_with_file_sends_one_request
           (FetchRejects "Failed to fetch") st (mkFile "april.pdf") eq_refl).
Defined.

(** X15: a submit with a file whose request ends with a rejected
    [fetch], or with a response whose body is a JSON object, the JSON value
    [null] or no JSON at all.  On an [ok] response with an object as body
    the stored result is that object, the error is empty and no error
    notice is shown; in each of the other cases named the stored result is
    [null] (a result shown before is gone) and, unless the response was
    [ok] with the body [null], a non-empty error notice is shown.  Nothing
    is said of a body that is another JSON value (a string, a number, a
    boolean or an array), which the handler stores as it is. *)
Theorem submit_with_file_result_or_error
    (net : FetchOutcome) (st : State) (f : File) :
  file st = Val f ->
  let st' := (handleSubmit net st).1.2 in
  match answer net with
  | Some d =>
      parsedData st' = Val d /\ error st' = ""
      /\ results (render st')
         = Some (Results.ResultsDisplay (Val d), Donut.DonutAnalytics (Val d))
      /\ error_notice (render st') = None
  | None =>
      parsedData st' = Null
      /\ results (render st') = None
      /\ (if answers_null net then error_notice (render st') = None
          else error_notice (render st') = Some (error st')
               /\ error st' <> "")
  end.
Proof.
  intros Hf. run_handler Hf.
  destruct net as [message | [[ | ] status [message | | e d]]];
    cbn [ok body statusText negb app file bank parsedData isLoading error
         answer answers_null andb fst snd];
    unfold render; cbn [parsedData error error_notice results];
    try (repeat split; reflexivity).
  all: split; [reflexivity|]; split; [reflexivity|].
  all: match goal with
       | |- (if truthy_string ?x then _ else _) = _ /\ _ =>
           assert (T : truthy_string x = true)
       end.
  all: try (apply or_else_truthy; reflexivity).
  all: try (apply or_else_truthy, or_else_truthy; reflexivity).
  all: rewrite T; split; [reflexivity|]; now apply truthy_string_nonempty.
Qed.

Lemma submit_with_file_result_or_error_witness :
  let st := {| bank := "kotak"; file := Val (mkFile "april.pdf");
               parsedData := Val (statement_of [debit "Rent" 300%float]);
               isLoading := false; error := "" |} in
  let net := FetchResolves
               {| ok := false; statusText := "Bad Request";
                  body := BodyObject (Val "Unsupported bank") (statement_of []) |} in
  file st = Val (mkFile "april.pdf")
  /\ let st' := (handleSubmit net st).1.2 in
     parsedData st' = Null
     /\ results (render st') = None
     /\ error_notice (render st') = Some (error st')
     /\ error st' <> "".
Proof.
  intros st net. split; [reflexivity|].
  exact (submit_with_file_result_or_error net st (mkFile "april.pdf") eq_refl).
Defined.

(** X16: for a response that is not [ok] and whose body is a JSON object,
    the error shown is the [error] field of the body when that is a
    non-empty string, and "API Error: " followed by the status text when the
    field is missing, [null] or empty. *)
Theorem failed_response_message
    (r : Response) (e : nullable string) (d : StatementResult)
    (st : State) (f : File) :
  file st = Val f -> ok r = false -> body r = BodyObject e d ->
  let st' := (handleSubmit (FetchResolves r) st).1.2 in
  error st' = or_else e ("API Error: " ++ statusText r)
  /\ (forall x, e = Val x -> x <> "" -> error st' = x)
  /\ (e = Null \/ e = Undefined \/ e = Val "" ->
      error st' = "API Error: " ++ statusText r)
  /\ parsedData st' = Null.
Proof.
  intros Hf Hok Hb. run_handler Hf. rewrite Hok, Hb.
  cbn [negb bind ret fst snd error parsedData].
  assert (T : truthy_string (or_else e ("API Error: " ++ statusText r)) = true).
  { apply or_else_truthy. reflexivity. }
  rewrite (or_else_of_truthy _ _ T).
  split; [reflexivity|]. split; [|split; [|reflexivity]].
  - intros x -> Hx. simpl. destruct (String.eqb_spec x ""); congruence.
  - intros [-> | [-> | ->]]; reflexivity.
Qed.

Lemma failed_response_message_witness :
  let st := {| bank := "kotak"; file := Val (mkFile "april.pdf");
               parsedData := Null; isLoading := false; error := "" |} in
  let r := {| ok := false; statusText := "Internal Server Error";
              body := BodyObject Undefined (statement_of []) |} in
  file st = Val (mkFile "april.pdf") /\ ok r = false
  /\ body r = BodyObject Undefined (statement_of [])
  /\ error (handleSubmit (FetchResolves r) st).1.2
     = "API Error: Internal Server Error".
Proof.
  intros st r.
  repeat (split; [reflexivity|]).
  exact (proj1 (failed_response_message r Undefined (statement_of []) st
                  (mkFile "april.pdf") eq_refl eq_refl eq_refl)).
Defined.

(** X17: the events of the handler account for its state changes, and at
    the moment the request goes out the page is a clean loading page: the
    state reached by the events before the request has the loading flag
    set, no result and no error, so the button is disabled and reads
    "Parsing...", the loading notice is shown, and neither an earlier result
    nor an earlier error is. *)
Theorem request_leaves_a_loading_page
    (net : FetchOutcome) (st : State) (f : File) :
  file st = Val f ->
  let '(_, st', events) := handleSubmit net st in
  let sent := replay (before_fetch events) st in
  replay events st = st'
  /\ isLoading sent = true /\ parsedData sent = Null /\ error sent = ""
  /\ render sent
     = {| submit_disabled := true;
          submit_label := "Parsing...";
          loading_notice := Some "Parsing your statement... 🚀";
          error_notice := None;
          results := None |}.
Proof.
  intros Hf. run_handler Hf.
  destruct net as [message | [[ | ] status [message | | e d]]];
    cbn [ok body statusText negb app file bank parsedData isLoading error];
    repeat split; cbn; now rewrite Hf.
Qed.

Lemma request_leaves_a_loading_page_witness :
  let st := {| bank := "sbi"; file := Val (mkFile "april.pdf");
               parsedData := Val (statement_of [debit "Rent" 300%float]);
               isLoading := false; error := "Please select a PDF file to upload." |} in
  file st = Val (mkFile "april.pdf")
  /\ let '(_, st', events) := handleSubmit (FetchRejects "offline") st in
     let sent := replay (before_fetch events) st in
     replay events st = st'
     /\ isLoading sent = true /\ parsedData sent = Null /\ error sent = ""
     /\ render sent
        = {| submit_disabled := true;
             submit_label := "Parsing...";
             loading_notice := Some "Parsing your statement... 🚀";
             error_notice := None;
             results := None |}.
Proof.
  intros st. split; [reflexivity|].
  exact (request_leaves_a_loading_page (FetchRejects "offline") st
           (mkFile "april.pdf") eq_refl).
Defined.

End SubmitWithFile.

(** ** App: the form as a whole *)

Section FormSession.

Import App Form.

(** X18: the file the request carries is the first file of the last
    selection, and the bank is the last bank selected; after a selection
    that left no file (an empty file list) a submit only sets the validation
    message and keeps the stored result. *)
Theorem picked_file_is_sent
    (net : FetchOutcome) (b : string) (files : list File) (st : State) :
  let '(_, st', events) :=
    handleSubmit net (onFileChange files (onBankChange b st)) in
  match files with
  | [] =>
      events = [PreventDefault; SetError validation_text]
      /\ parsedData st' = parsedData st
  | f :: _ => List.filter is_fetch events = [Fetch apiUrl "POST" b f]
  end.
Proof.
  destruct files as [ | f rest].
  - rewrite handleSubmit_no_file by exact I. split; reflexivity.
  - pose proof (handleSubmit_fetches net
                  (onFileChange (f :: rest) (onBankChange b st)) f eq_refl) as H.
    destruct (handleSubmit net _) as [[u st'] events]. exact H.
Qed.

Lemma handleSubmit_requests (net : FetchOutcome) (st : State) :
  In (bank st) (map fst bank_options) ->
  let '(_, st', events) := handleSubmit net st in
  List.Forall request_ok events
  /\ bank st' = bank st
  /\ file st' = file st
  /\ (isLoading st = false -> isLoading st' = false).
Proof.
  intros Hb.
  destruct (file st) as [ | | f] eqn:Hf.
  1, 2: rewrite handleSubmit_no_file by (unfold no_file; now rewrite Hf);
        repeat split; auto;
        repeat (apply List.Forall_cons; [exact I|]); apply List.Forall_nil.
  run_handler Hf.
  destruct net as [message | [[ | ] status [message | | e d]]];
    cbn [ok body statusText negb app file bank parsedData isLoading error];
    repeat split; auto;
    repeat (apply List.Forall_cons; [cbn [request_ok]; auto|]);
    apply List.Forall_nil.
Qed.

(** X19: in a session that starts from the initial state, whatever the
    user selects, picks and submits and whatever the network answers, every
    request goes to the parsing service by POST and names one of the five
    banks the selector offers; and once the actions are handled the page is
    not loading, so the submit button is enabled again. *)
Theorem session_requests_offered_banks (actions : list Action) :
  List.Forall offered actions ->
  let '(st', events) := session actions initial in
  List.Forall request_ok events
  /\ isLoading st' = false
  /\ submit_disabled (render st') = false
  /\ In (bank st') (map fst bank_options).
Proof.
  assert (G : forall st, In (bank st) (map fst bank_options) ->
                isLoading st = false ->
                List.Forall offered actions ->
                let '(st', events) := session actions st in
                List.Forall request_ok events
                /\ isLoading st' = false
                /\ In (bank st') (map fst bank_options)).
  { induction actions as [ | a rest IH]; intros st Hb Hl Ho.
    - simpl. repeat split; auto.
    - inversion Ho as [ | ? ? Ha Hrest]; subst.
      cbn [session].
      assert (S1 : let '(st1, ev1) := act a st in
                   List.Forall request_ok ev1
                   /\ isLoading st1 = false
                   /\ In (bank st1) (map fst bank_options)).
      { destruct a as [value | files | net]; cbn [act].
        - repeat split; auto.
        - repeat split; auto.
        - pose proof (handleSubmit_requests net st Hb) as H.
          destruct (handleSubmit net st) as [[u st1] ev1].
          destruct H as (H1 & H2 & _ & H4).
          repeat split; auto. now rewrite H2. }
      destruct (act a st) as [st1 ev1]. destruct S1 as (E1 & L1 & B1).
      specialize (IH st1 B1 L1 Hrest).
      destruct (session rest st1) as [st2 ev2]. destruct IH as (E2 & L2 & B2).
      repeat split; auto. apply List.Forall_app. now split. }
  intros Ho.
  assert (H0 : In (bank initial) (map fst bank_options)) by (simpl; auto).
  specialize (G initial H0 eq_refl Ho).
  destruct (session actions initial) as [st' events].
  destruct G as (G1 & G2 & G3). repeat split; auto.
Qed.

Lemma session_requests_offered_banks_witness :
  let actions := [PickFiles []; Submit (FetchRejects "offline");
                  SelectBank "sbi"; PickFiles [mkFile "april.pdf"];
                  Submit (FetchRejects "Failed to fetch")] in
  List.Forall offered actions
  /\ let '(st', events) := session actions initial in
     List.Forall request_ok events
     /\ isLoading st' = false
     /\ submit_disabled (render st') = false
     /\ In (bank st') (map fst bank_options).
Proof.
  intros actions.
  assert (H : List.Forall offered actions).
  { repeat (apply List.Forall_cons; [first [exact I | simpl; tauto]|]).
    apply List.Forall_nil. }
  split; [exact H|].
  exact (session_requests_offered_banks actions H).
Defined.

End FormSession.

(** ** Banner: the strip of logos *)

Section BannerStrip.

Import Logos.

Lemma banner_track_lookup (l : list Logo) (i : nat) :
  banner_track l !! i
  = (fun logo => {| key := i; src := url logo; alt := name logo ++ " logo" |})
      <$> l !! i.
Proof. unfold banner_track. now rewrite list_lookup_imap. Qed.

Lemma banner_track_keys (l : list Logo) :
  map key (banner_track l) = seq 0 (List.length l).
Proof.
  unfold banner_track.
  assert (G : forall (j : nat) (k : list Logo),
             map key (imap (fun index logo =>
                              {| key := j + index; src := url logo;
                                 alt := name logo ++ " logo" |}) k)
             = seq j (List.length k)).
  { intros j k. revert j. induction k as [ | a k IH]; intros j; [reflexivity|].
    cbn [imap map key List.length seq]. f_equal; [lia|].
    rewrite <- (IH (S j)). f_equal. apply imap_ext. intros i x _.
    cbn. f_equal. lia. }
  exact (G 0%nat l).
Qed.

(** X20: the banner shows every logo twice: over any list of logos the
    track has twice as many items, their keys are 0, 1, 2, ... (so no key
    is used twice although every logo is), and item [i] of the second half
    shows the same image with the same alternative text as item [i] of the
    first half.  With the five logos of the component this makes ten
    items. *)
Theorem banner_repeats_logos :
  (forall l : list Logo,
     let items := banner_track (l ++ l) in
     List.length items = (2 * List.length l)%nat
     /\ map key items = seq 0 (2 * List.length l)
     /\ forall i, (i < List.length l)%nat ->
          exists logo,
            l !! i = Some logo
            /\ items !! i
               = Some {| key := i; src := url logo; alt := name logo ++ " logo" |}
            /\ items !! (List.length l + i)%nat
               = Some {| key := List.length l + i; src := url logo;
                         alt := name logo ++ " logo" |})
  /\ List.length Banner = 10%nat
  /\ NoDup (map key Banner).
Proof.
  split; [|split].
  - intros l items. subst items. split; [|split].
    + unfold banner_track. rewrite length_imap, length_app. lia.
    + rewrite banner_track_keys, length_app. f_equal. lia.
    + intros i Hi. destruct (lookup_lt_is_Some_2 l i Hi) as [logo Hl].
      exists logo. split; [exact Hl|].
      rewrite !banner_track_lookup.
      rewrite lookup_app_l by exact Hi.
      rewrite lookup_app_r by lia.
      replace (List.length l + i - List.length l)%nat with i by lia.
      rewrite Hl. split; reflexivity.
  - reflexivity.
  - apply NoDup_ListNoDup. vm_compute. repeat constructor; simpl; lia.
Qed.

End BannerStrip.

(** ** Rounding to binary64: the shift record, the round bit and the sticky bit *)

Section Rounding.

Local Open Scope Z_scope.

Lemma stands_for_scale (r : shr_record) (P Dn k : Z) :
  0 < k -> stands_for r P Dn -> stands_for r (P * k) (Dn * k).
Proof.
  intros Hk (H0 & H1 & H2 & H3). unfold stands_for.
  split; [nia|]. split; [nia|]. split.
  - rewrite H2. split; intros H; nia.
  - rewrite H3. split; intros [Ha Hb]; split; nia.
Qed.

Lemma shr_1_stands_for (r : shr_record) (P Dn : Z) :
  0 <= shr_m r -> stands_for r P Dn -> stands_for (shr_1 r) P (2 * Dn).
Proof.
  destruct r as [m rb sb]. cbn [shr_m]. intros Hm (H0 & H1 & H2 & H3).
  cbn [shr_m shr_r shr_s] in *.
  assert (Hs : rb || sb = true <-> P <> m * Dn).
  { destruct rb, sb; cbn [orb]; split; intros H; try reflexivity;
      try discriminate.
    - destruct H2 as [H2 _]. specialize (H2 eq_refl). nia.
    - destruct H2 as [H2 _]. specialize (H2 eq_refl). nia.
    - destruct H3 as [H3 _]. specialize (H3 eq_refl). lia.
    - exfalso. destruct H3 as [_ H3].
      assert (Hh : 2 * P <> (2 * m + 1) * Dn).
      { intros E. destruct H2 as [_ H2]. assert (false = true) by (apply H2; lia).
        discriminate. }
      assert (false = true) by (apply H3; split; lia). discriminate. }
  destruct m as [ | [p | p | ] | p]; try lia; cbn [shr_1 shr_m shr_r shr_s];
    unfold stands_for; cbn [shr_m shr_r shr_s].
  - (* 0 *)
    split; [lia|]. split; [lia|]. split.
    + split; [discriminate|]. intros H. lia.
    + rewrite Hs. split; intros H; [lia|]. lia.
  - (* 2p+1 *)
    rewrite Pos2Z.inj_xI in *.
    split; [lia|]. split; [lia|]. split.
    + split; [intros _; lia|reflexivity].
    + rewrite Hs. split; intros H; [lia|]. lia.
  - (* 2p *)
    rewrite Pos2Z.inj_xO in *.
    split; [lia|]. split; [lia|]. split.
    + split; [discriminate|]. intros H. lia.
    + rewrite Hs. split; intros H; [lia|]. lia.
  - (* 1 *)
    split; [lia|]. split; [lia|]. split.
    + split; [intros _; lia|reflexivity].
    + rewrite Hs. split; intros H; [lia|]. lia.
Qed.

Lemma shr_iter_stands_for (k : nat) (r : shr_record) (P Dn : Z) :
  0 <= shr_m r -> stands_for r P Dn ->
  stands_for (Nat.iter k shr_1 r) P (2 ^ Z.of_nat k * Dn).
Proof.
  intros Hm H. induction k as [ | k IH].
  - simpl. now rewrite Z.mul_1_l.
  - rewrite Nat.iter_succ, Nat2Z.inj_succ, Z.pow_succ_r, <- Z.mul_assoc by lia.
    apply shr_1_stands_for; [|exact IH].
    rewrite shr_iter_m by exact Hm. apply Z.div_pos; lia.
Qed.

(** What a shift does: the exponent reached, and the record. *)
Lemma shr_stands_for (r : shr_record) (e n P Dn : Z) :
  0 <= shr_m r -> stands_for r P Dn ->
  snd (shr r e n) = e + Z.max 0 n
  /\ stands_for (fst (shr r e n)) P (2 ^ Z.max 0 n * Dn)
  /\ shr_m (fst (shr r e n)) = shr_m r / 2 ^ Z.max 0 n.
Proof.
  intros Hm H. unfold shr.
  destruct n as [ | p | p]; cbn [fst snd].
  - change (Z.max 0 0) with 0. change (2 ^ 0) with 1.
    rewrite Z.mul_1_l, Z.div_1_r, Z.add_0_r.
    split; [reflexivity|split; [exact H|reflexivity]].
  - rewrite Z.max_r by lia.
    rewrite iter_pos_nat, <- (positive_nat_Z p).
    split; [reflexivity|]. split.
    + now apply shr_iter_stands_for.
    + now apply shr_iter_m.
  - change (Z.max 0 (Z.neg p)) with 0. change (2 ^ 0) with 1.
    rewrite Z.mul_1_l, Z.div_1_r, Z.add_0_r.
    split; [reflexivity|split; [exact H|reflexivity]].
Qed.

Lemma record_of_loc_stands_for (l : location) (m P Dn : Z) :
  0 < Dn -> located l m P Dn -> stands_for (shr_record_of_loc m l) P Dn.
Proof.
  intros H0 H. unfold stands_for.
  destruct l as [ | [ | | ]]; cbn [located shr_record_of_loc shr_m shr_r shr_s] in *;
    (split; [exact H0|]); (split; [nia|]); split; split;
    try discriminate; try reflexivity; intros; try nia.
Qed.

(** Rounding to the nearest integer, to the even one on a tie. *)
Lemma round_nearest_even_spec (r : shr_record) (P Dn : Z) :
  stands_for r P Dn ->
  let m2 := round_nearest_even (shr_m r) (loc_of_shr_record r) in
  shr_m r <= m2 <= shr_m r + 1
  /\ (2 * m2 - 1) * Dn <= 2 * P <= (2 * m2 + 1) * Dn
  /\ (2 * P = (2 * m2 - 1) * Dn \/ 2 * P = (2 * m2 + 1) * Dn ->
      Z.even m2 = true)
  /\ (P = shr_m r * Dn -> m2 = shr_m r).
Proof.
  destruct r as [m rb sb]. intros (H0 & H1 & H2 & H3).
  cbn [shr_m shr_r shr_s loc_of_shr_record] in *.
  destruct rb, sb; cbn [round_nearest_even].
  - (* Gt *)
    destruct H2 as [H2 _]. specialize (H2 eq_refl).
    destruct H3 as [H3 _]. specialize (H3 eq_refl).
    repeat split; try nia; try (intros [E | E]; nia).
  - (* Eq *)
    destruct H2 as [H2 _]. specialize (H2 eq_refl).
    assert (E : 2 * P = (2 * m + 1) * Dn).
    { destruct (Z.eq_dec (2 * P) ((2 * m + 1) * Dn)) as [E | NE]; [exact E|].
      exfalso. destruct H3 as [_ H3].
      assert (false = true) by (apply H3; split; nia). discriminate. }
    destruct (Z.even m) eqn:Ev.
    + repeat split; try nia. intros _. exact Ev.
    + repeat split; try nia. intros _.
      rewrite Z.even_add, Ev. reflexivity.
  - (* Lt *)
    destruct H3 as [H3 _]. specialize (H3 eq_refl).
    assert (Hr : ~ (2 * m + 1) * Dn <= 2 * P).
    { intros Hle. destruct H2 as [_ H2]. specialize (H2 Hle). discriminate. }
    repeat split; try nia; try (intros [E | E]; nia).
  - (* Exact *)
    assert (E : P = m * Dn).
    { destruct (Z.eq_dec (2 * P) (2 * m * Dn)) as [E | NE]; [nia|].
      exfalso.
      assert (Hr : ~ (2 * m + 1) * Dn <= 2 * P).
      { intros Hle. destruct H2 as [_ H2]. specialize (H2 Hle). discriminate. }
      destruct H3 as [_ H3].
      assert (false = true) by (apply H3; split; nia). discriminate. }
    repeat split; try nia; try (intros [E' | E']; nia).
Qed.

Lemma round_nearest_even_mono (r1 r2 : shr_record) (P1 P2 Dn : Z) :
  stands_for r1 P1 Dn -> stands_for r2 P2 Dn -> P1 <= P2 ->
  round_nearest_even (shr_m r1) (loc_of_shr_record r1)
  <= round_nearest_even (shr_m r2) (loc_of_shr_record r2).
Proof.
  intros H1 H2 Hle.
  pose proof (round_nearest_even_spec r1 P1 Dn H1) as (A1 & B1 & C1 & _).
  pose proof (round_nearest_even_spec r2 P2 Dn H2) as (A2 & B2 & C2 & _).
  destruct H1 as (H0 & F1 & _), H2 as (_ & F2 & _).
  cbv zeta in *.
  set (a := round_nearest_even (shr_m r1) (loc_of_shr_record r1)) in *.
  set (b := round_nearest_even (shr_m r2) (loc_of_shr_record r2)) in *.
  destruct (Z_le_gt_dec a b) as [Hab | Hab]; [exact Hab|exfalso].
  assert (Hm : shr_m r1 = shr_m r2) by nia.
  assert (Ea : a = shr_m r1 + 1) by lia.
  assert (Eb : b = shr_m r1) by lia.
  assert (T1 : 2 * P1 = (2 * a - 1) * Dn) by nia.
  assert (T2 : 2 * P2 = (2 * b + 1) * Dn) by nia.
  specialize (C1 (or_introl T1)). specialize (C2 (or_intror T2)).
  rewrite Ea, Z.even_add in C1. rewrite Eb in C2. rewrite C2 in C1.
  discriminate C1.
Qed.

Lemma round_nearest_even_le (r : shr_record) (P Dn N : Z) :
  stands_for r P Dn -> P <= N * Dn ->
  round_nearest_even (shr_m r) (loc_of_shr_record r) <= N.
Proof.
  intros H Hle.
  pose proof (round_nearest_even_spec r P Dn H) as (A & B & _ & D).
  destruct H as (H0 & F & _). cbv zeta in *.
  destruct (Z.eq_dec P (shr_m r * Dn)) as [E | NE].
  - rewrite (D E). nia.
  - assert (shr_m r < N) by nia. lia.
Qed.

Lemma round_nearest_even_ge (r : shr_record) (P Dn N : Z) :
  stands_for r P Dn -> N * Dn <= P ->
  N <= round_nearest_even (shr_m r) (loc_of_shr_record r).
Proof.
  intros H Hle.
  pose proof (round_nearest_even_spec r P Dn H) as (A & _).
  destruct H as (H0 & F & _). cbv zeta in *.
  assert (N <= shr_m r) by nia. lia.
Qed.

End Rounding.

(** ** Rounding to binary64: what [binary_round_aux] returns *)

Section Shape.

Local Open Scope Z_scope.

Lemma Zdigits2_bound (m : Z) : 0 <= m -> m < 2 ^ Zdigits2 m.
Proof.
  intros Hm. destruct (Z.eq_dec m 0) as [-> | Hn]; [reflexivity|].
  rewrite Zdigits2_log2 by lia. apply Z.log2_spec. lia.
Qed.

Lemma Zdigits2_le (m : Z) (k : Z) : 0 <= k -> 0 <= m < 2 ^ k -> Zdigits2 m <= k.
Proof.
  intros Hk Hm. destruct (Z.eq_dec m 0) as [-> | Hn]; [exact Hk|].
  rewrite Zdigits2_log2 by lia.
  assert (Z.log2 m < k) by (apply Z.log2_lt_pow2; lia). lia.
Qed.

Lemma Zdigits2_ge (m : Z) (k : Z) : 0 <= k -> 2 ^ k <= m -> k + 1 <= Zdigits2 m.
Proof.
  intros Hk Hm.
  assert (0 < 2 ^ k) by (apply Z.pow_pos_nonneg; lia).
  rewrite Zdigits2_log2 by lia.
  assert (k <= Z.log2 m) by (apply Z.log2_le_pow2; lia). lia.
Qed.

(** The value that rounding works on: after the first shift the record
    stands for the number at the exponent [e1], and its integer part has at
    most 53 bits. *)
Lemma shr_fexp_stands_for (m e : Z) (l : location) (P Dn : Z) :
  0 <= m -> 0 < Dn -> located l m P Dn ->
  let e1 := e + Z.max 0 (fexp prec emax (Zdigits2 m + e) - e) in
  let r1 := fst (shr_fexp prec emax m e l) in
  snd (shr_fexp prec emax m e l) = e1
  /\ stands_for r1 P (2 ^ (e1 - e) * Dn)
  /\ 0 <= shr_m r1 < 2 ^ 53
  /\ shr_m r1 = m / 2 ^ (e1 - e)
  /\ -1074 <= e1.
Proof.
  intros Hm H0 Hl. cbv zeta. unfold shr_fexp.
  set (n := fexp prec emax (Zdigits2 m + e) - e).
  assert (Hr : stands_for (shr_record_of_loc m l) P Dn)
    by now apply record_of_loc_stands_for.
  assert (Hm' : 0 <= shr_m (shr_record_of_loc m l))
    by now rewrite shr_record_of_loc_m.
  destruct (shr_stands_for _ e n P Dn Hm' Hr) as (E1 & E2 & E3).
  rewrite shr_record_of_loc_m in E3.
  replace (e + Z.max 0 n - e) with (Z.max 0 n) by lia.
  split; [exact E1|]. split; [exact E2|].
  assert (Hn : Zdigits2 m - 53 <= Z.max 0 n /\ -1074 <= e + Z.max 0 n).
  { unfold n, fexp, SpecFloat.emin, prec, emax. lia. }
  assert (Hp : 0 < 2 ^ Z.max 0 n) by (apply Z.pow_pos_nonneg; lia).
  split; [|split; [exact E3|lia]].
  rewrite E3. split; [apply Z.div_pos; lia|].
  apply Z.div_lt_upper_bound; [lia|].
  rewrite <- Z.pow_add_r by lia.
  apply Z.lt_le_trans with (2 ^ Zdigits2 m); [now apply Zdigits2_bound|].
  apply Z.pow_le_mono_r; lia.
Qed.

(** What [binary_round_aux] returns, by the rounded integer [m2] and the
    exponent [e1] of the first shift. *)
Lemma binary_round_aux_shape (m e : Z) (l : location) (P Dn : Z) :
  0 <= m -> 0 < Dn -> located l m P Dn ->
  let e1 := e + Z.max 0 (fexp prec emax (Zdigits2 m + e) - e) in
  let r1 := fst (shr_fexp prec emax m e l) in
  let m2 := round_nearest_even (shr_m r1) (loc_of_shr_record r1) in
  binary_round_aux prec emax false m e l
  = match m2 with
    | Z0 => S754_zero false
    | Zpos p =>
        if m2 =? 2 ^ 53
        then (if e1 + 1 <=? 971 then S754_finite false (2 ^ 52)%positive (e1 + 1)
              else S754_infinity false)
        else (if e1 <=? 971 then S754_finite false p e1
              else S754_infinity false)
    | Zneg _ => S754_nan
    end.
Proof.
  intros Hm H0 Hl. cbv zeta.
  destruct (shr_fexp_stands_for m e l P Dn Hm H0 Hl) as (E1 & S1 & B1 & _ & He1).
  cbv zeta in E1, S1, B1, He1.
  set (e1 := e + Z.max 0 (fexp prec emax (Zdigits2 m + e) - e)) in *.
  unfold binary_round_aux.
  destruct (shr_fexp prec emax m e l) as [r1 e1'] eqn:E. cbn [fst snd] in *.
  subst e1'.
  pose proof (round_nearest_even_spec r1 _ _ S1) as (A & _). cbv zeta in A.
  set (m2 := round_nearest_even (shr_m r1) (loc_of_shr_record r1)) in *.
  assert (Hm2 : 0 <= m2 <= 2 ^ 53) by lia.
  destruct (Z.eqb_spec m2 (2 ^ 53)) as [E53 | N53].
  - (* the rounded mantissa has 54 bits: one more shift *)
    rewrite E53. unfold shr_fexp.
    replace (fexp prec emax (Zdigits2 (2 ^ 53) + e1) - e1) with 1
      by (change (Zdigits2 (2 ^ 53)) with 54;
          unfold fexp, SpecFloat.emin, prec, emax; lia).
    cbn [shr_record_of_loc shr SpecFloat.iter_pos shr_1 shr_m fst snd].
    change (2 ^ 53) with 9007199254740992. cbn [shr_1 shr_m].
    change (emax - prec) with 971. reflexivity.
  - assert (Hlt : m2 < 2 ^ 53) by lia.
    unfold shr_fexp.
    assert (Hn : fexp prec emax (Zdigits2 m2 + e1) - e1 <= 0).
    { pose proof (Zdigits2_le m2 53 ltac:(lia) ltac:(lia)).
      unfold fexp, SpecFloat.emin, prec, emax. lia. }
    unfold shr.
    destruct (fexp prec emax (Zdigits2 m2 + e1) - e1) as [ | p | p]; try lia;
      cbn [shr_record_of_loc shr_m fst snd];
      change (emax - prec) with 971;
      destruct m2 as [ | p2 | p2]; try lia; reflexivity.
Qed.

(** The place of what [binary_round_aux] returns. *)
Lemma binary_round_aux_rank (m e : Z) (l : location) (P Dn : Z) :
  0 <= m -> 0 < Dn -> located l m P Dn ->
  let e1 := e + Z.max 0 (fexp prec emax (Zdigits2 m + e) - e) in
  let r1 := fst (shr_fexp prec emax m e l) in
  let m2 := round_nearest_even (shr_m r1) (loc_of_shr_record r1) in
  (971 < e1 -> m2 = 0 \/ 2 ^ 52 <= m2) ->
  rank (binary_round_aux prec emax false m e l)
  = Z.min (m2 * 2 ^ (e1 + 1074)) (2 ^ 2098)
  /\ not_negative (binary_round_aux prec emax false m e l).
Proof.
  intros Hm H0 Hl. cbv zeta.
  rewrite (binary_round_aux_shape m e l P Dn Hm H0 Hl).
  destruct (shr_fexp_stands_for m e l P Dn Hm H0 Hl) as (_ & S1 & B1 & _ & He1).
  cbv zeta in S1, B1, He1.
  set (e1 := e + Z.max 0 (fexp prec emax (Zdigits2 m + e) - e)) in *.
  set (r1 := fst (shr_fexp prec emax m e l)) in *.
  pose proof (round_nearest_even_spec r1 _ _ S1) as (A & _). cbv zeta in A.
  set (m2 := round_nearest_even (shr_m r1) (loc_of_shr_record r1)) in *.
  intros Hn.
  assert (Hp : 0 < 2 ^ (e1 + 1074)) by (apply Z.pow_pos_nonneg; lia).
  assert (H98 : 2 ^ 2098 = 2 ^ 53 * 2 ^ 2045) by (rewrite <- Z.pow_add_r; lia).
  assert (H97 : 2 ^ 2098 = 2 ^ 52 * 2 ^ 2046) by (rewrite <- Z.pow_add_r; lia).
  destruct m2 as [ | p | p] eqn:Em2; try lia.
  - split; [|exact I]. cbn [rank]. rewrite Z.min_l; lia.
  - destruct (Z.eqb_spec (Z.pos p) (2 ^ 53)) as [E53 | N53].
    + destruct (Z.leb_spec (e1 + 1) 971) as [Hle | Hgt]; (split; [|exact I]);
        cbn [rank cond_Zopp]; rewrite E53.
      * change (Z.pos (2 ^ 52)) with (2 ^ 52).
        replace (e1 + 1 + 1074) with (1 + (e1 + 1074)) by lia.
        rewrite Z.pow_add_r by lia.
        replace (2 ^ 52 * (2 ^ 1 * 2 ^ (e1 + 1074)))
          with (2 ^ 53 * 2 ^ (e1 + 1074)) by (change (2 ^ 53) with (2 ^ 52 * 2 ^ 1); ring).
        rewrite Z.min_l; [reflexivity|].
        rewrite H98. apply Z.mul_le_mono_nonneg_l; [lia|].
        apply Z.pow_le_mono_r; lia.
      * rewrite Z.min_r; [reflexivity|].
        rewrite H98. apply Z.mul_le_mono_nonneg_l; [lia|].
        apply Z.pow_le_mono_r; lia.
    + destruct (Z.leb_spec e1 971) as [Hle | Hgt]; (split; [|exact I]);
        cbn [rank cond_Zopp].
      * rewrite Z.min_l; [reflexivity|].
        rewrite H98.
        apply Z.le_trans with (2 ^ 53 * 2 ^ (e1 + 1074)).
        -- apply Z.mul_le_mono_nonneg_r; lia.
        -- apply Z.mul_le_mono_nonneg_l; [lia|]. apply Z.pow_le_mono_r; lia.
      * rewrite Z.min_r; [reflexivity|].
        destruct (Hn Hgt) as [Hz | H52]; [discriminate Hz|].
        rewrite H97.
        apply Z.le_trans with (2 ^ 52 * 2 ^ (e1 + 1074)).
        -- apply Z.mul_le_mono_nonneg_l; [lia|]. apply Z.pow_le_mono_r; lia.
        -- apply Z.mul_le_mono_nonneg_r; lia.
Qed.

End Shape.

(** ** Rounding to binary64: bounds *)

Section Bounds.

Local Open Scope Z_scope.

(** A number of value at most [B], a small whole number, is rounded to a
    number of value at most [B]. *)
Lemma binary_round_aux_le (m e : Z) (l : location) (P Dn B : Z) :
  0 <= m -> 0 < Dn -> located l m P Dn ->
  e <= 0 -> 0 < B < 2 ^ 53 -> P <= B * 2 ^ (- e) * Dn ->
  rank (binary_round_aux prec emax false m e l) <= B * 2 ^ 1074
  /\ not_negative (binary_round_aux prec emax false m e l).
Proof.
  intros Hm H0 Hl He HB HP.
  destruct (shr_fexp_stands_for m e l P Dn Hm H0 Hl) as (_ & S1 & B1 & _ & He1).
  cbv zeta in S1, B1, He1.
  assert (Hpe : 0 < 2 ^ (- e)) by (apply Z.pow_pos_nonneg; lia).
  assert (Hmb : m < 2 ^ (53 - e)).
  { assert (Hl' : m * Dn <= P).
    { destruct l as [ | [ | | ]]; cbn [located] in Hl; nia. }
    assert (m <= B * 2 ^ (- e)) by nia.
    replace (53 - e) with (53 + - e) by lia. rewrite Z.pow_add_r by lia. nia. }
  pose proof (Zdigits2_le m (53 - e) ltac:(lia) ltac:(lia)) as Hd.
  assert (Hle : e + Z.max 0 (fexp prec emax (Zdigits2 m + e) - e) <= 0).
  { unfold fexp, SpecFloat.emin, prec, emax. lia. }
  destruct (binary_round_aux_rank m e l P Dn Hm H0 Hl) as [R N]; [cbv zeta; lia|].
  cbv zeta in R. split; [|exact N]. rewrite R.
  set (e1 := e + Z.max 0 (fexp prec emax (Zdigits2 m + e) - e)) in *.
  set (r1 := fst (shr_fexp prec emax m e l)) in *.
  assert (Hm2 : round_nearest_even (shr_m r1) (loc_of_shr_record r1)
                <= B * 2 ^ (- e1)).
  { apply (round_nearest_even_le r1 P (2 ^ (e1 - e) * Dn)); [exact S1|].
    replace (B * 2 ^ (- e1) * (2 ^ (e1 - e) * Dn))
      with (B * (2 ^ (- e1) * 2 ^ (e1 - e)) * Dn) by ring.
    rewrite <- Z.pow_add_r by lia.
    replace (- e1 + (e1 - e)) with (- e) by lia. exact HP. }
  apply Z.le_trans with (round_nearest_even (shr_m r1) (loc_of_shr_record r1)
                         * 2 ^ (e1 + 1074)); [apply Z.le_min_l|].
  assert (Hp : 0 < 2 ^ (e1 + 1074)) by (apply Z.pow_pos_nonneg; lia).
  apply Z.le_trans with (B * 2 ^ (- e1) * 2 ^ (e1 + 1074)); [nia|].
  rewrite <- Z.mul_assoc, <- Z.pow_add_r by lia.
  replace (- e1 + (e1 + 1074)) with 1074 by lia. lia.
Qed.

(** The place of a rounded positive number [M * 2^E]: the number is
    rounded at the exponent its magnitude asks for. *)
Lemma binary_round_rank (M : positive) (E : Z) :
  -1074 <= E ->
  let es := fexp prec emax (Zdigits2 (Z.pos M) + E) in
  exists r,
    stands_for r (Z.pos M * 2 ^ (E + 1074)) (2 ^ (es + 1074))
    /\ (-1074 < es -> 2 ^ 52 <= shr_m r)
    /\ rank (binary_round prec emax false M E)
       = Z.min (round_nearest_even (shr_m r) (loc_of_shr_record r)
                * 2 ^ (es + 1074)) (2 ^ 2098)
    /\ not_negative (binary_round prec emax false M E).
Proof.
  intros HE. cbv zeta.
  set (es := fexp prec emax (Zdigits2 (Z.pos M) + E)).
  assert (Hes : -1074 <= es) by (unfold es, fexp, SpecFloat.emin, prec, emax; lia).
  unfold binary_round.
  change (Z.pos (digits2_pos M)) with (Zdigits2 (Z.pos M)). fold es.
  destruct (shl_align M E es) as [mz ez] eqn:Ea.
  assert (Hz : Z.pos mz * 2 ^ (ez + 1074) = Z.pos M * 2 ^ (E + 1074)
               /\ -1074 <= ez <= es
               /\ fexp prec emax (Zdigits2 (Z.pos mz) + ez) = es).
  { unfold shl_align in Ea.
    destruct (es - E) as [ | d | d] eqn:Ed; injection Ea as <- <-.
    - repeat split; try lia; reflexivity.
    - repeat split; try lia; reflexivity.
    - rewrite pos_iter_xO.
      split; [|split; [lia|]].
      + rewrite <- Z.mul_assoc, <- Z.pow_add_r by lia. do 2 f_equal. lia.
      + rewrite <- pos_iter_xO.
        change (Zdigits2 (Z.pos (Pos.iter xO M d)))
          with (Z.pos (digits2_pos (Pos.iter xO M d))).
        assert (Hd : Z.pos (digits2_pos (Pos.iter xO M d))
                     = Z.pos (digits2_pos M) + Z.pos d).
        { clear. induction d as [ | d IH] using Pos.peano_ind.
          - simpl. lia.
          - rewrite Pos.iter_succ. cbn [digits2_pos].
            rewrite Pos2Z.inj_succ, IH. lia. }
        rewrite Hd.
        replace (Z.pos (digits2_pos M) + Z.pos d + es)
          with (Zdigits2 (Z.pos M) + E)
          by (change (Zdigits2 (Z.pos M)) with (Z.pos (digits2_pos M)); lia).
        reflexivity. }
  destruct Hz as (Hv & Hez & Hf).
  assert (Hl : located loc_Exact (Z.pos mz) (Z.pos mz) 1) by (simpl; lia).
  destruct (shr_fexp_stands_for (Z.pos mz) ez loc_Exact (Z.pos mz) 1
              ltac:(lia) ltac:(lia) Hl) as (_ & S1 & B1 & D1 & He1).
  cbv zeta in S1, B1, D1, He1. rewrite Hf in S1, D1, He1.
  replace (ez + Z.max 0 (es - ez) - ez) with (es - ez) in S1, D1 by lia.
  set (r1 := fst (shr_fexp prec emax (Z.pos mz) ez loc_Exact)) in *.
  exists r1.
  assert (Hs : stands_for r1 (Z.pos M * 2 ^ (E + 1074)) (2 ^ (es + 1074))).
  { apply (stands_for_scale _ _ _ (2 ^ (ez + 1074))) in S1;
      [|apply Z.pow_pos_nonneg; lia].
    rewrite Hv in S1. rewrite Z.mul_1_r, <- Z.pow_add_r in S1 by lia.
    replace (es - ez + (ez + 1074)) with (es + 1074) in S1 by lia. exact S1. }
  assert (Hn : -1074 < es -> 2 ^ 52 <= shr_m r1).
  { intros Hgt.
    assert (Ees : es = Zdigits2 (Z.pos mz) + ez - 53).
    { rewrite <- Hf. unfold fexp, SpecFloat.emin, prec, emax in *. lia. }
    rewrite D1. apply Z.div_le_lower_bound; [apply Z.pow_pos_nonneg; lia|].
    rewrite <- Z.pow_add_r by lia.
    rewrite Zdigits2_log2 in Ees by lia.
    replace (es - ez + 52) with (Z.log2 (Z.pos mz)) by lia.
    apply Z.log2_spec. lia. }
  split; [exact Hs|]. split; [exact Hn|].
  destruct (binary_round_aux_rank (Z.pos mz) ez loc_Exact (Z.pos mz) 1
              ltac:(lia) ltac:(lia) Hl) as [R N].
  - cbv zeta. rewrite Hf. fold r1.
    replace (ez + Z.max 0 (es - ez)) with es by lia.
    intros Hgt. right.
    pose proof (round_nearest_even_spec r1 _ _ Hs) as (A & _). cbv zeta in A.
    specialize (Hn ltac:(lia)). lia.
  - cbv zeta in R. rewrite Hf in R. fold r1 in R.
    replace (ez + Z.max 0 (es - ez)) with es in R by lia.
    split; [exact R|exact N].
Qed.

End Bounds.

(** ** Rounding to binary64: the order of the numbers is kept *)

Section Monotone.

Local Open Scope Z_scope.

(** Rounding keeps the order of the numbers. *)
Lemma binary_round_mono (M1 M2 : positive) (E1 E2 : Z) :
  -1074 <= E1 -> -1074 <= E2 ->
  Z.pos M1 * 2 ^ (E1 + 1074) <= Z.pos M2 * 2 ^ (E2 + 1074) ->
  rank (binary_round prec emax false M1 E1)
  <= rank (binary_round prec emax false M2 E2).
Proof.
  intros H1 H2 Hle.
  destruct (binary_round_rank M1 E1 H1) as (r1 & S1 & _ & R1 & _).
  destruct (binary_round_rank M2 E2 H2) as (r2 & S2 & N2 & R2 & _).
  cbv zeta in *. rewrite R1, R2. clear R1 R2.
  set (d1 := Zdigits2 (Z.pos M1)) in *. set (d2 := Zdigits2 (Z.pos M2)) in *.
  assert (Hd1 : 2 ^ (d1 - 1) <= Z.pos M1 < 2 ^ d1).
  { unfold d1. rewrite Zdigits2_log2 by lia.
    replace (Z.log2 (Z.pos M1) + 1 - 1) with (Z.log2 (Z.pos M1)) by lia.
    apply Z.log2_spec. lia. }
  assert (Hd2 : 2 ^ (d2 - 1) <= Z.pos M2 < 2 ^ d2).
  { unfold d2. rewrite Zdigits2_log2 by lia.
    replace (Z.log2 (Z.pos M2) + 1 - 1) with (Z.log2 (Z.pos M2)) by lia.
    apply Z.log2_spec. lia. }
  assert (P1 : 1 <= d1) by (unfold d1; rewrite Zdigits2_log2 by lia;
                            pose proof (Z.log2_nonneg (Z.pos M1)); lia).
  assert (P2 : 1 <= d2) by (unfold d2; rewrite Zdigits2_log2 by lia;
                            pose proof (Z.log2_nonneg (Z.pos M2)); lia).
  assert (V1 : 2 ^ (d1 - 1 + (E1 + 1074)) <= Z.pos M1 * 2 ^ (E1 + 1074)
               < 2 ^ (d1 + (E1 + 1074))).
  { rewrite (Z.pow_add_r 2 (d1 - 1)), (Z.pow_add_r 2 d1) by lia.
    assert (0 < 2 ^ (E1 + 1074)) by (apply Z.pow_pos_nonneg; lia). nia. }
  assert (V2 : 2 ^ (d2 - 1 + (E2 + 1074)) <= Z.pos M2 * 2 ^ (E2 + 1074)
               < 2 ^ (d2 + (E2 + 1074))).
  { rewrite (Z.pow_add_r 2 (d2 - 1)), (Z.pow_add_r 2 d2) by lia.
    assert (0 < 2 ^ (E2 + 1074)) by (apply Z.pow_pos_nonneg; lia). nia. }
  assert (Hmag : d1 + E1 <= d2 + E2).
  { assert (2 ^ (d1 - 1 + (E1 + 1074)) < 2 ^ (d2 + (E2 + 1074))) by lia.
    apply Z.pow_lt_mono_r_iff in H; lia. }
  set (es1 := fexp prec emax (d1 + E1)) in *.
  set (es2 := fexp prec emax (d2 + E2)) in *.
  assert (Hes : -1074 <= es1 <= es2 /\ es1 <= d1 + E1
                /\ (es1 < es2 -> d1 + E1 < d2 + E2 /\ es2 = d2 + E2 - 53)).
  { unfold es1, es2, fexp, SpecFloat.emin, prec, emax. lia. }
  destruct Hes as (He & Hm1 & Hlt).
  apply Z.min_le_compat_r.
  destruct (Z.eq_dec es1 es2) as [Eq | Ne].
  - rewrite <- Eq in *.
    apply Z.mul_le_mono_nonneg_r; [apply Z.pow_nonneg; lia|].
    exact (round_nearest_even_mono r1 r2 _ _ _ S1 S2 Hle).
  - destruct (Hlt ltac:(lia)) as [Hmag' Ees2].
    pose proof (round_nearest_even_spec r2 _ _ S2) as (A2 & _). cbv zeta in A2.
    specialize (N2 ltac:(lia)).
    assert (U1 : round_nearest_even (shr_m r1) (loc_of_shr_record r1)
                 <= 2 ^ (d1 + E1 - es1)).
    { apply (round_nearest_even_le r1 _ _ _ S1).
      rewrite <- Z.pow_add_r by lia.
      replace (d1 + E1 - es1 + (es1 + 1074)) with (d1 + (E1 + 1074)) by lia.
      lia. }
    apply Z.le_trans with (2 ^ (d1 + E1 - es1) * 2 ^ (es1 + 1074)).
    { apply Z.mul_le_mono_nonneg_r; [apply Z.pow_nonneg; lia|exact U1]. }
    apply Z.le_trans with (2 ^ 52 * 2 ^ (es2 + 1074)).
    { rewrite <- !Z.pow_add_r by lia. apply Z.pow_le_mono_r; lia. }
    apply Z.mul_le_mono_nonneg_r; [apply Z.pow_nonneg; lia|lia].
Qed.

(** A number of the format is rounded to itself. *)
Lemma binary_round_valid (m : positive) (e : Z) :
  valid_binary (S754_finite false m e) = true ->
  binary_round prec emax false m e = S754_finite false m e.
Proof.
  intros V.
  assert (C : fexp prec emax (Z.pos (digits2_pos m) + e) = e /\ e <= 971).
  { unfold SpecFloat.valid_binary, bounded, canonical_mantissa in V.
    apply andb_prop in V as [V1 V2].
    apply Z.eqb_eq in V1. apply Z.leb_le in V2. split; [exact V1|exact V2]. }
  destruct C as [C1 C2].
  unfold binary_round. rewrite C1.
  unfold shl_align. rewrite Z.sub_diag.
  unfold binary_round_aux, shr_fexp.
  change (Zdigits2 (Z.pos m)) with (Z.pos (digits2_pos m)).
  rewrite C1, Z.sub_diag.
  cbn [shr shr_record_of_loc shr_m loc_of_shr_record round_nearest_even].
  change (Zdigits2 (Z.pos m)) with (Z.pos (digits2_pos m)).
  rewrite C1, Z.sub_diag. cbn [shr shr_m].
  change (emax - prec) with 971.
  destruct (Z.leb_spec e 971); [reflexivity|lia].
Qed.

End Monotone.

(** ** Sums of amounts that are not negative *)

Section Sums.

Local Open Scope Z_scope.

Lemma not_negative_rank (x : spec_float) :
  valid_binary x = true -> not_negative x -> 0 <= rank x <= 2 ^ 2098.
Proof.
  intros V H. destruct x as [[ | ] | [ | ] | | [ | ] m e]; try contradiction;
    cbn [rank cond_Zopp]; try lia.
  pose proof (rank_finite_bound false m e V). lia.
Qed.

(** The sum of two positive numbers of the format is their exact sum,
    rounded. *)
Lemma add_finite (ma mx : positive) (ea ex : Z) :
  valid_binary (S754_finite false ma ea) = true ->
  valid_binary (S754_finite false mx ex) = true ->
  exists M E,
    -1074 <= E
    /\ SF64add (S754_finite false ma ea) (S754_finite false mx ex)
       = binary_round prec emax false M E
    /\ Z.pos M * 2 ^ (E + 1074)
       = rank (S754_finite false ma ea) + rank (S754_finite false mx ex).
Proof.
  intros VA VX.
  pose proof (valid_finite _ _ _ VA) as (HeA & _).
  pose proof (valid_finite _ _ _ VX) as (HeX & _).
  unfold SF64add, SFadd. cbn [cond_Zopp].
  set (ez := Z.min ea ex).
  exists (fst (shl_align ma ea ez) + fst (shl_align mx ex ez))%positive, ez.
  split; [unfold ez; lia|]. split; [reflexivity|].
  rewrite Pos2Z.inj_add, Z.mul_add_distr_r.
  rewrite <- (aligned_rank false ma ea ez), <- (aligned_rank false mx ex ez)
    by (unfold ez; lia).
  reflexivity.
Qed.

Lemma rank_of_valid (m : positive) (e : Z) :
  valid_binary (S754_finite false m e) = true ->
  rank (binary_round prec emax false m e) = Z.pos m * 2 ^ (e + 1074).
Proof. intros V. now rewrite binary_round_valid. Qed.

Lemma SFadd_zero_r (A : spec_float) (s : bool) :
  not_negative A -> SF64add A (S754_zero s) = A.
Proof.
  destruct A as [[ | ] | [ | ] | | [ | ] ma ea], s; try contradiction;
    reflexivity.
Qed.

Lemma SFadd_zero_l (m : positive) (e : Z) :
  SF64add (S754_zero false) (S754_finite false m e) = S754_finite false m e.
Proof. reflexivity. Qed.

Lemma SFadd_infinity_l (X : spec_float) :
  amount_like X -> SF64add (S754_infinity false) X = S754_infinity false.
Proof.
  destruct X as [[ | ] | [ | ] | | [ | ] ? ?]; try contradiction; reflexivity.
Qed.

(** Adding an amount to a number that is not negative gives a number that
    is not negative and not smaller than either. *)
Lemma SFadd_not_negative (A X : spec_float) :
  valid_binary A = true -> valid_binary X = true ->
  not_negative A -> amount_like X ->
  not_negative (SF64add A X)
  /\ rank A <= rank (SF64add A X)
  /\ rank X <= rank (SF64add A X)
  /\ rank (SF64add A X) <= 2 ^ 2098.
Proof.
  intros VA VX HA HX.
  pose proof (not_negative_rank A VA HA) as RA.
  destruct X as [sx | [ | ] | | [ | ] mx ex]; try contradiction.
  { rewrite SFadd_zero_r by exact HA. cbn [rank]. repeat split; first [assumption | lia]. }
  pose proof (rank_finite_bound false mx ex VX) as RX.
  destruct A as [[ | ] | [ | ] | | [ | ] ma ea]; try contradiction.
  { rewrite SFadd_zero_l. cbn [rank cond_Zopp].
    repeat split; first [exact I | lia]. }
  { rewrite SFadd_infinity_l by exact I. cbn [rank cond_Zopp].
    repeat split; first [exact I | lia]. }
  destruct (add_finite ma mx ea ex VA VX) as (M & E & HE & -> & HV).
  destruct (binary_round_rank M E HE) as (r & _ & _ & Hr & N).
  pose proof (valid_finite _ _ _ VA) as (HeA & _).
  pose proof (valid_finite _ _ _ VX) as (HeX & _).
  split; [exact N|]. cbn [rank cond_Zopp] in HV, RA, RX. repeat split.
  - rewrite <- (rank_of_valid ma ea VA) at 1.
    apply binary_round_mono; lia.
  - rewrite <- (rank_of_valid mx ex VX) at 1.
    apply binary_round_mono; lia.
  - rewrite Hr. lia.
Qed.

(** Addition keeps the order of its first operand. *)
Lemma SFadd_mono (A A' X : spec_float) :
  valid_binary A = true -> valid_binary A' = true -> valid_binary X = true ->
  not_negative A -> not_negative A' -> amount_like X ->
  rank A <= rank A' ->
  rank (SF64add A X) <= rank (SF64add A' X).
Proof.
  intros VA VA' VX HA HA' HX Hle.
  destruct (SFadd_not_negative A' X VA' VX HA' HX) as (N' & L1 & L2 & _).
  destruct (SFadd_not_negative A X VA VX HA HX) as (_ & _ & _ & B).
  destruct X as [sx | [ | ] | | [ | ] mx ex]; try contradiction.
  { now rewrite !SFadd_zero_r. }
  destruct A' as [[ | ] | [ | ] | | [ | ] ma' ea']; try contradiction.
  - (* A' = 0, so A = 0 *)
    destruct A as [[ | ] | [ | ] | | [ | ] ma ea]; try contradiction;
      cbn [rank cond_Zopp] in Hle; try lia.
    pose proof (rank_finite_bound false ma ea VA). lia.
  - (* A' = +infinity *)
    rewrite (SFadd_infinity_l (S754_finite false mx ex)) by exact I.
    exact B.
  - destruct A as [[ | ] | [ | ] | | [ | ] ma ea]; try contradiction.
    + rewrite SFadd_zero_l. exact L2.
    + (* A = +infinity: not below a finite number *)
      cbn [rank cond_Zopp] in Hle.
      pose proof (rank_finite_bound false ma' ea' VA'). lia.
    + cbn [rank cond_Zopp] in Hle.
      destruct (add_finite ma mx ea ex VA VX) as (M & E & HE & -> & HV).
      destruct (add_finite ma' mx ea' ex VA' VX) as (M' & E' & HE' & -> & HV').
      cbn [rank cond_Zopp] in HV, HV'.
      apply binary_round_mono; lia.
Qed.

End Sums.

(** ** A share of the total, as a percentage *)

Section Shares.

Local Open Scope Z_scope.

(** The location [SFdiv_core_binary] reports for a remainder. *)
Lemma new_location_located (d q r : Z) :
  0 <= r < d -> located (new_location d r) q (q * d + r) d.
Proof.
  intros H. unfold new_location, new_location_even, new_location_odd.
  destruct (Z.even d) eqn:E.
  - destruct (Z.eqb_spec r 0) as [-> | N]; [cbn [located]; lia|].
    destruct (Z.compare_spec (2 * r) d); cbn [located]; lia.
  - rewrite <- Z.negb_odd in E. apply negb_false_iff, Z.odd_spec in E.
    destruct E as [k ->].
    destruct (Z.eqb_spec r 0) as [-> | N]; [cbn [located]; lia|].
    destruct (Z.compare_spec (2 * r + 1) (2 * k + 1)); cbn [located]; lia.
Qed.

(** A positive number divided by one that is not smaller is at most 1. *)
Lemma SFdiv_le (m1 m2 : positive) (e1 e2 : Z) :
  valid_binary (S754_finite false m1 e1) = true ->
  valid_binary (S754_finite false m2 e2) = true ->
  Z.pos m1 * 2 ^ (e1 + 1074) <= Z.pos m2 * 2 ^ (e2 + 1074) ->
  rank (SF64div (S754_finite false m1 e1) (S754_finite false m2 e2))
  <= 2 ^ 1074
  /\ not_negative (SF64div (S754_finite false m1 e1) (S754_finite false m2 e2)).
Proof.
  intros V1 V2 H.
  pose proof (valid_finite _ _ _ V1) as (He1 & _).
  pose proof (valid_finite _ _ _ V2) as (He2 & _).
  unfold SF64div, SFdiv, SFdiv_core_binary. cbv zeta.
  set (e' := Z.min _ _). set (s := e1 - e2 - e').
  assert (Hs : 0 <= s) by (unfold s, e'; lia).
  assert (Hd : Zdigits2 (Z.pos m1) + e1 - (Zdigits2 (Z.pos m2) + e2) <= 0).
  { rewrite !Zdigits2_log2 by lia.
    pose proof (Z.log2_spec (Z.pos m1) ltac:(lia)) as [L1 _].
    pose proof (Z.log2_spec (Z.pos m2) ltac:(lia)) as [_ L2].
    pose proof (Z.log2_nonneg (Z.pos m1)). pose proof (Z.log2_nonneg (Z.pos m2)).
    assert (A : 2 ^ (Z.log2 (Z.pos m1) + (e1 + 1074))
                < 2 ^ (Z.succ (Z.log2 (Z.pos m2)) + (e2 + 1074))).
    { rewrite (Z.pow_add_r 2 (Z.log2 (Z.pos m1))),
        (Z.pow_add_r 2 (Z.succ (Z.log2 (Z.pos m2)))) by lia.
      assert (0 < 2 ^ (e1 + 1074)) by (apply Z.pow_pos_nonneg; lia).
      assert (0 < 2 ^ (e2 + 1074)) by (apply Z.pow_pos_nonneg; lia).
      apply Z.le_lt_trans with (Z.pos m1 * 2 ^ (e1 + 1074));
        [apply Z.mul_le_mono_nonneg_r; lia|].
      apply Z.le_lt_trans with (Z.pos m2 * 2 ^ (e2 + 1074)); [exact H|].
      apply Z.mul_lt_mono_pos_r; lia. }
    apply Z.pow_lt_mono_r_iff in A; lia. }
  assert (He' : e' <= 0).
  { unfold e', fexp, SpecFloat.emin, prec, emax. lia. }
  set (m' := match s with Z.pos _ => Z.shiftl (Z.pos m1) s | 0 => Z.pos m1
             | Z.neg _ => 0 end).
  assert (Hm' : m' = Z.pos m1 * 2 ^ s).
  { unfold m'. destruct s as [ | p | p]; [simpl; lia| |lia].
    now rewrite Z.shiftl_mul_pow2 by lia. }
  pose proof (Z_div_mod m' (Z.pos m2) ltac:(lia)) as D.
  destruct (Z.div_eucl m' (Z.pos m2)) as [q r]. destruct D as [D R].
  cbn [xorb].
  assert (Hp : 0 < 2 ^ s) by (apply Z.pow_pos_nonneg; lia).
  apply (binary_round_aux_le q e' _ m' (Z.pos m2) 1).
  - nia.
  - lia.
  - rewrite D, (Z.mul_comm (Z.pos m2) q). now apply new_location_located.
  - exact He'.
  - lia.
  - rewrite Hm', Z.mul_1_l.
    assert (Hb : 0 < 2 ^ (e2 + 1074)) by (apply Z.pow_pos_nonneg; lia).
    assert (Hc : 0 < 2 ^ (- e')) by (apply Z.pow_pos_nonneg; lia).
    assert (E : 2 ^ s * 2 ^ (e2 + 1074) = 2 ^ (e1 + 1074) * 2 ^ (- e')).
    { rewrite <- !Z.pow_add_r by lia. f_equal. unfold s. lia. }
    apply Z.mul_le_mono_pos_r with (p := 2 ^ (e2 + 1074)); [exact Hb|].
    nia.
Qed.

(** A number of at most 1, times 100, is at most 100. *)
Lemma SFmul_100_le (m : positive) (e : Z) :
  valid_binary (S754_finite false m e) = true ->
  Z.pos m * 2 ^ (e + 1074) <= 2 ^ 1074 ->
  let y := SF64mul (S754_finite false m e) (Prim2SF 100) in
  rank y <= 100 * 2 ^ 1074 /\ not_negative y.
Proof.
  intros V H.
  pose proof (valid_finite _ _ _ V) as (He & _).
  change (Prim2SF 100) with (S754_finite false 7036874417766400 (-46)).
  unfold SF64mul, SFmul. cbn [xorb]. cbv zeta.
  assert (Hp : 0 < 2 ^ (e + 1074)) by (apply Z.pow_pos_nonneg; lia).
  assert (He0 : e <= 0).
  { destruct (Z.le_gt_cases e 0) as [L | L]; [exact L|].
    assert (2 ^ 1074 < 2 ^ (e + 1074)) by (apply Z.pow_lt_mono_r; lia).
    nia. }
  assert (Hm : Z.pos m <= 2 ^ (- e)).
  { apply Z.mul_le_mono_pos_r with (p := 2 ^ (e + 1074)); [exact Hp|].
    rewrite <- Z.pow_add_r by lia.
    replace (- e + (e + 1074)) with 1074 by lia. exact H. }
  apply (binary_round_aux_le _ _ _ (Z.pos (m * 7036874417766400)) 1 100).
  - lia.
  - lia.
  - cbn [located]. lia.
  - lia.
  - split; [lia|]. now vm_compute.
  - replace (- (e + -46)) with (46 + - e) by lia.
    rewrite Z.pow_add_r by lia.
    change (2 ^ 46) with 70368744177664. lia.
Qed.

(** [toFixed(1)] of a number between 0 and 100. *)
Lemma toFixed1_share (y : number) :
  amount_like (Prim2SF y) -> place y <= 100 * 2 ^ 1074 ->
  exists n, 0 <= n <= 1000
            /\ toFixed1 y = Some (digits (n / 10) ++ "." ++ digits (n mod 10)).
Proof.
  unfold place, toFixed1. intros A H.
  pose proof (Prim2SF_valid y) as V.
  destruct (Prim2SF y) as [s | [ | ] | | [ | ] m e]; try contradiction.
  { exists 0. split; [lia|reflexivity]. }
  pose proof (valid_finite _ _ _ V) as (He & _).
  cbn [rank cond_Zopp] in H.
  assert (Hp : 0 < 2 ^ (e + 1074)) by (apply Z.pow_pos_nonneg; lia).
  assert (G : magnitude_geb m e (10 ^ 21) = false
              /\ 0 <= nearest_scaled m e 10 <= 1000).
  { unfold magnitude_geb, nearest_scaled.
    destruct (Z.leb_spec 0 e) as [L | L].
    - assert (E : 2 ^ (e + 1074) = 2 ^ e * 2 ^ 1074)
        by (apply Z.pow_add_r; lia).
      assert (0 < 2 ^ e) by (apply Z.pow_pos_nonneg; lia).
      assert (0 < 2 ^ 1074) by (apply Z.pow_pos_nonneg; lia).
      assert (B : Z.pos m * 2 ^ e <= 100) by nia.
      split; [|lia].
      apply Z.leb_gt. change (10 ^ 21) with 1000000000000000000000. lia.
    - assert (E : 2 ^ 1074 = 2 ^ (- e) * 2 ^ (e + 1074)).
      { rewrite <- Z.pow_add_r by lia. f_equal. lia. }
      assert (Hc : 0 < 2 ^ (- e)) by (apply Z.pow_pos_nonneg; lia).
      assert (B : Z.pos m <= 100 * 2 ^ (- e)) by nia.
      assert (E2 : 2 ^ (1 - e) = 2 * 2 ^ (- e)).
      { replace (1 - e) with (1 + - e) by lia.
        now rewrite Z.pow_add_r by lia. }
      split.
      + apply Z.leb_gt. change (10 ^ 21) with 1000000000000000000000. lia.
      + split; [apply Z.div_pos; lia|].
        apply Z.lt_succ_r, Z.div_lt_upper_bound; lia. }
  destruct G as [-> G]. exists (nearest_scaled m e 10).
  split; [exact G|reflexivity].
Qed.

End Shares.

(** ** DonutAnalytics: the running total *)

Section Percentages.

Local Open Scope Z_scope.

Lemma amount_like_not_negative_rank (x : spec_float) :
  valid_binary x = true -> amount_like x -> 0 <= rank x < 2 ^ 2098.
Proof.
  intros V H. destruct x as [s | [ | ] | | [ | ] m e]; try contradiction;
    cbn [rank cond_Zopp]; [lia|].
  pose proof (rank_finite_bound false m e V). lia.
Qed.

Lemma add_amount (acc x : number) :
  not_negative (Prim2SF acc) -> amount_like (Prim2SF x) ->
  not_negative (Prim2SF (acc + x)%float)
  /\ place acc <= place (acc + x)%float
  /\ place x <= place (acc + x)%float.
Proof.
  intros HA HX. unfold place. rewrite add_spec.
  destruct (SFadd_not_negative (Prim2SF acc) (Prim2SF x)
              (Prim2SF_valid acc) (Prim2SF_valid x) HA HX) as (N & L1 & L2 & _).
  auto.
Qed.

(** A running sum of amounts never falls: the result is not negative and
    not below the start or any of the amounts. *)
Lemma reduce_add_grows (l : list number) (acc : number) :
  not_negative (Prim2SF acc) ->
  List.Forall (fun x => amount_like (Prim2SF x)) l ->
  not_negative (Prim2SF (reduce_add acc l))
  /\ place acc <= place (reduce_add acc l)
  /\ List.Forall (fun x => place x <= place (reduce_add acc l)) l.
Proof.
  revert acc. induction l as [ | x r IH]; intros acc HA Hl.
  - cbn. repeat split; [exact HA|lia|constructor].
  - apply List.Forall_cons_iff in Hl as [Hx Hr].
    destruct (add_amount acc x HA Hx) as (N & L1 & L2).
    destruct (IH (acc + x)%float N Hr) as (N' & L' & F').
    change (reduce_add acc (x :: r)) with (reduce_add (acc + x)%float r).
    repeat split; [exact N'|lia|].
    constructor; [lia|exact F'].
Qed.

(** The same amounts added to a larger start give a sum that is not
    smaller. *)
Lemma reduce_add_mono (l : list number) (acc acc' : number) :
  not_negative (Prim2SF acc) -> not_negative (Prim2SF acc') ->
  List.Forall (fun x => amount_like (Prim2SF x)) l ->
  place acc <= place acc' ->
  place (reduce_add acc l) <= place (reduce_add acc' l).
Proof.
  revert acc acc'. induction l as [ | x r IH]; intros acc acc' HA HA' Hl Hle.
  - exact Hle.
  - apply List.Forall_cons_iff in Hl as [Hx Hr].
    change (reduce_add acc (x :: r)) with (reduce_add (acc + x)%float r).
    change (reduce_add acc' (x :: r)) with (reduce_add (acc' + x)%float r).
    destruct (add_amount acc x HA Hx) as (N & _).
    destruct (add_amount acc' x HA' Hx) as (N' & _).
    apply IH; [exact N|exact N'|exact Hr|].
    unfold place. rewrite !add_spec.
    apply SFadd_mono; auto using Prim2SF_valid.
Qed.

(** The sum of a tail of the amounts is not above the sum of all of
    them. *)
Lemma reduce_add_tail (a b : list number) :
  List.Forall (fun x => amount_like (Prim2SF x)) (a ++ b) ->
  not_negative (Prim2SF (reduce_add 0%float b))
  /\ place (reduce_add 0%float b) <= place (reduce_add 0%float (a ++ b)).
Proof.
  intros H. apply List.Forall_app in H as [Ha Hb].
  unfold reduce_add at 3. rewrite fold_left_app.
  fold (reduce_add 0%float a). fold (reduce_add (reduce_add 0%float a) b).
  destruct (reduce_add_grows _ 0%float I Ha) as (N & L & _).
  destruct (reduce_add_grows _ 0%float I Hb) as (N' & _).
  split; [exact N'|].
  apply reduce_add_mono; [exact I|exact N|exact Hb|exact L].
Qed.

Lemma tail_sum_le_total (k : nat) (debit : list Transaction) :
  List.Forall (fun t => amount_like (Prim2SF (amount t))) debit ->
  not_negative (Prim2SF (sum_amounts (drop k debit)))
  /\ place (sum_amounts (drop k debit)) <= place (sum_amounts debit).
Proof.
  intros H. rewrite !sum_amounts_reduce.
  assert (E : map amount debit
              = (map amount (take k debit) ++ map amount (drop k debit))%list)
    by now rewrite <- map_app, take_drop.
  rewrite E. apply reduce_add_tail.
  rewrite <- E. apply List.Forall_map. exact H.
Qed.

End Percentages.

(** ** DonutAnalytics: the percentages of the legend *)

Section LegendPercentages.

Local Open Scope Z_scope.

(** What a percentage reads: "NaN", or a decimal between 0.0 and 100.0. *)
Lemma share_in_range (a t : number) :
  amount_like (Prim2SF a) \/ not_negative (Prim2SF a) ->
  not_negative (Prim2SF t) ->
  place a <= place t ->
  (toFixed1 (a / t * 100)%float = Some "NaN"
   /\ (place t = 0 \/ place t = 2 ^ 2098))
  \/ exists n, 0 <= n <= 1000
       /\ toFixed1 (a / t * 100)%float
          = Some (digits (n / 10) ++ "." ++ digits (n mod 10)).
Proof.
  intros Ha Ht Hle.
  assert (P1 : 2 ^ 1074 < 2 ^ 2098) by (apply Z.pow_lt_mono_r; lia).
  assert (P0 : 0 < 2 ^ 1074) by (apply Z.pow_pos_nonneg; lia).
  pose proof (Prim2SF_valid a) as Va. pose proof (Prim2SF_valid t) as Vt.
  destruct (Prim2SF a) as [sa | [ | ] | | [ | ] ma ea] eqn:Ea;
    try (destruct Ha as [[] | []]; fail).
  - (* a zero amount *)
    rewrite percentage_of_zero by (now exists sa). unfold place.
    destruct (Prim2SF t) as [[ | ] | [ | ] | | [ | ] mt et]; try contradiction.
    + left. split; [reflexivity|]. left. reflexivity.
    + right. exists 0. split; [lia|reflexivity].
    + right. exists 0. split; [lia|reflexivity].
  - (* a sum that overflowed *)
    unfold place in *. rewrite Ea in Hle. cbn [rank cond_Zopp] in Hle.
    destruct (Prim2SF t) as [[ | ] | [ | ] | | [ | ] mt et] eqn:Et;
      try contradiction; cbn [rank cond_Zopp] in *; try lia.
    + left. split; [|right; reflexivity].
      unfold toFixed1. now rewrite mul_spec, div_spec, Ea, Et.
    + pose proof (rank_finite_bound false mt et Vt). lia.
  - (* a positive amount *)
    pose proof (rank_finite_bound false ma ea Va) as Ra.
    unfold place in *. rewrite Ea in Hle. cbn [rank cond_Zopp] in Hle.
    destruct (Prim2SF t) as [[ | ] | [ | ] | | [ | ] mt et] eqn:Et;
      try contradiction; cbn [rank cond_Zopp] in Hle; try lia.
    + right. exists 0. split; [lia|].
      unfold toFixed1. now rewrite mul_spec, div_spec, Ea, Et.
    + destruct (SFdiv_le ma mt ea et Va Vt Hle) as [Q N].
      pose proof (Prim2SF_valid (a / t)%float) as Vq.
      pose proof (div_spec a t) as Eq. rewrite Ea, Et in Eq.
      rewrite <- Eq in Q, N.
      destruct (Prim2SF (a / t)%float) as [[ | ] | [ | ] | | [ | ] mq eq] eqn:E;
        try contradiction; cbn [rank cond_Zopp] in Q; try lia.
      * right. exists 0. split; [lia|].
        unfold toFixed1. now rewrite mul_spec, E.
      * destruct (SFmul_100_le mq eq Vq Q) as [Y NY].
        rewrite <- E, <- mul_spec in Y, NY.
        right. apply toFixed1_share; [|exact Y].
        assert (P2 : 100 * 2 ^ 1074 < 2 ^ 2098).
        { replace 2098 with (1024 + 1074) by lia.
          rewrite (Z.pow_add_r 2 1024) by lia.
          apply Z.mul_lt_mono_pos_r; [exact P0|]. now vm_compute. }
        destruct (Prim2SF (a / t * 100)%float)
          as [[ | ] | [ | ] | | [ | ] my ey];
          first [exact I | exact NY | cbn [rank cond_Zopp] in Y; lia].
Qed.

(** The slices of a chart of plain amounts: none is above the total. *)
Lemma chartItems_below_total (debit : list Transaction) :
  List.Forall (fun t => amount_like (Prim2SF (amount t))) debit ->
  not_negative (Prim2SF (totalSpent debit))
  /\ List.Forall
       (fun i => (amount_like (Prim2SF (item_amount i))
                  \/ not_negative (Prim2SF (item_amount i)))
                 /\ place (item_amount i) <= place (totalSpent debit))
       (chartItems debit).
Proof.
  intros H. unfold totalSpent.
  assert (G : not_negative (Prim2SF (sum_amounts debit))
              /\ List.Forall
                   (fun t => place (amount t) <= place (sum_amounts debit))
                   debit).
  { rewrite sum_amounts_reduce.
    destruct (reduce_add_grows (map amount debit) 0%float I) as (N & _ & F).
    - apply List.Forall_map. exact H.
    - split; [exact N|].
      exact (proj1 (List.Forall_map amount (fun x => place x <= _) debit) F). }
  destruct G as [N F]. split; [exact N|].
  assert (T : List.Forall
                (fun i => (amount_like (Prim2SF (item_amount i))
                           \/ not_negative (Prim2SF (item_amount i)))
                          /\ place (item_amount i) <= place (sum_amounts debit))
                (map ItemTxn debit)).
  { apply List.Forall_map. rewrite List.Forall_forall in H, F |- *.
    intros t Ht. cbn [item_amount]. split; [left; now apply H|now apply F]. }
  destruct (Nat.le_gt_cases (List.length debit) 4) as [H4 | H4].
  - now rewrite chartItems_small.
  - rewrite chartItems_large by exact H4. apply List.Forall_app. split.
    + rewrite <- (take_drop 4 debit), map_app in T.
      apply List.Forall_app in T as [T _].
      rewrite take_drop in T. exact T.
    + constructor; [|constructor]. cbn [item_amount].
      destruct (tail_sum_le_total 4 debit H) as [N' L]. split; [now right|exact L].
Qed.

(** X23: with debit amounts that are finite and not negative, no slice is
    larger than the total in the centre of the chart, and every percentage
    of the legend reads a decimal between 0.0 and 100.0 (digits of n / 10,
    a point, the digit n mod 10, for a whole n from 0 to 1000).  The one
    exception is "NaN", and it is shown only when the total is zero or has
    overflowed to Infinity. *)
Theorem percentages_between_0_and_100
    (data : nullable StatementResult) (total : number) :
  List.Forall (fun t => amount_like (Prim2SF (amount t))) (debits data) ->
  grand_total (DonutAnalytics data) = Some total ->
  not_negative (Prim2SF total)
  /\ (forall i, In i (slices (DonutAnalytics data)) ->
        place (item_amount i) <= place total)
  /\ (forall li, In li (legend_of (DonutAnalytics data)) ->
        (legend_percentage li = Some "NaN"
         /\ (place total = 0 \/ place total = 2 ^ 2098))
        \/ exists n, 0 <= n <= 1000
             /\ legend_percentage li
                = Some (digits (n / 10) ++ "." ++ digits (n mod 10))).
Proof.
  unfold debits. rewrite view_cases. intros H.
  destruct (listed data) as [ | t0 r] eqn:El; [discriminate|].
  assert (Hd : List.Forall (fun t => amount_like (Prim2SF (amount t)))
                 (debitTransactions (t0 :: r))).
  { revert H. apply Permutation_Forall. symmetry. apply sort_perm. }
  destruct (debitTransactions (t0 :: r)) as [ | x s] eqn:E; [discriminate|].
  cbn [grand_total slices legend_of chart_of chart_total chart_items
       chart_legend].
  intros [= <-].
  destruct (chartItems_below_total (x :: s) Hd) as [N F].
  rewrite List.Forall_forall in F.
  split; [exact N|]. split.
  - intros i Hi. now apply F.
  - intros li Hli. apply list_elem_of_In, elem_of_lookup_imap_1 in Hli.
    destruct Hli as (k & i & -> & Hk).
    apply list_elem_of_lookup_2, list_elem_of_In, F in Hk as [A L].
    cbn [legend_item legend_percentage]. unfold percentage.
    now apply share_in_range.
Qed.

Lemma percentages_between_0_and_100_witness :
  let data := Val (statement_of [debit "Fuel" 100%float; debit "Books" 200%float;
                                 debit "Rent" 300%float; credit "Refund" 50%float;
                                 debit "Phone" 400%float; debit "Dinner" 500%float;
                                 debit "Flight" 600.5%float]) in
  let total := 2100.5%float in
  List.Forall (fun t => amount_like (Prim2SF (amount t))) (debits data)
  /\ grand_total (DonutAnalytics data) = Some total
  /\ not_negative (Prim2SF total)
  /\ (forall i, In i (slices (DonutAnalytics data)) ->
        place (item_amount i) <= place total)
  /\ (forall li, In li (legend_of (DonutAnalytics data)) ->
        (legend_percentage li = Some "NaN"
         /\ (place total = 0 \/ place total = 2 ^ 2098))
        \/ exists n, 0 <= n <= 1000
             /\ legend_percentage li
                = Some (digits (n / 10) ++ "." ++ digits (n mod 10))).
Proof.
  intros data total.
  assert (H1 : List.Forall (fun t => amount_like (Prim2SF (amount t)))
                 (debits data)).
  { let l := eval vm_compute in (debits data) in change (debits data) with l.
    repeat (apply List.Forall_cons; [vm_compute; exact I|]).
    apply List.Forall_nil. }
  assert (H2 : grand_total (DonutAnalytics data) = Some total)
    by (vm_compute; reflexivity).
  split; [exact H1|]. split; [exact H2|].
  exact (percentages_between_0_and_100 data total H1 H2).
Defined.

End LegendPercentages.

(** ** DonutAnalytics: debits of amount zero *)

Section ZeroDebits.

(** Zeros add up to +0. *)
Lemma reduce_add_zeros (l : list number) (acc : number) :
  Prim2SF acc = S754_zero false -> List.Forall is_zero l ->
  Prim2SF (reduce_add acc l) = S754_zero false.
Proof.
  revert acc. induction l as [ | x r IH]; intros acc Ha Hl; [exact Ha|].
  apply List.Forall_cons_iff in Hl as [[s Hx] Hr].
  change (reduce_add acc (x :: r)) with (reduce_add (acc + x)%float r).
  apply IH; [|exact Hr]. rewrite add_spec, Ha, Hx. now destruct s.
Qed.

Lemma sum_amounts_zeros (l : list Transaction) :
  List.Forall (fun t => is_zero (amount t)) l ->
  Prim2SF (sum_amounts l) = S754_zero false.
Proof.
  intros H. rewrite sum_amounts_reduce. apply reduce_add_zeros; [reflexivity|].
  apply List.Forall_map. exact H.
Qed.

(** X24: a statement whose debits all have the amount 0 still gets a
    chart: the centre reads ₹0 and every percentage of the legend reads
    "NaN" (0 / 0). *)
Theorem zero_debits_show_NaN (data : nullable StatementResult) :
  debits data <> [] ->
  List.Forall (fun t => is_zero (amount t)) (debits data) ->
  exists c, DonutAnalytics data = RenderChart c
    /\ chart_center_text c = "₹0"
    /\ chart_items c <> []
    /\ List.Forall (fun li => legend_percentage li = Some "NaN")
         (chart_legend c).
Proof.
  unfold debits. rewrite view_cases. intros Hne H.
  destruct (listed data) as [ | t0 r] eqn:El; [now destruct Hne|].
  assert (Hd : List.Forall (fun t => is_zero (amount t))
                 (debitTransactions (t0 :: r))).
  { revert H. apply Permutation_Forall. symmetry. apply sort_perm. }
  assert (Hlen : List.length (debitTransactions (t0 :: r))
                 = List.length (List.filter is_debit (t0 :: r)))
    by apply sort_length.
  destruct (debitTransactions (t0 :: r)) as [ | x s] eqn:E.
  { destruct (List.filter is_debit (t0 :: r)); [now destruct Hne|discriminate]. }
  exists (chart_of (x :: s)). split; [reflexivity|].
  pose proof (sum_amounts_zeros (x :: s) Hd) as HT.
  cbn [chart_of chart_center_text chart_items chart_legend].
  split; [|split].
  - unfold toLocaleString_enIN, totalSpent. now rewrite HT.
  - unfold chartItems, topItems. cbn [take map].
    destruct (0 <? _)%nat; discriminate.
  - apply List.Forall_forall. intros li Hli.
    apply list_elem_of_In, elem_of_lookup_imap_1 in Hli.
    destruct Hli as (k & i & -> & Hk).
    apply list_elem_of_lookup_2, list_elem_of_In in Hk.
    cbn [legend_item legend_percentage]. unfold percentage, totalSpent.
    assert (Hz : is_zero (item_amount i)).
    { destruct (Nat.le_gt_cases (List.length (x :: s)) 4) as [H4 | H4].
      - rewrite chartItems_small in Hk by exact H4.
        apply in_map_iff in Hk as (t & <- & Ht).
        rewrite List.Forall_forall in Hd. now apply Hd.
      - rewrite chartItems_large in Hk by exact H4.
        apply in_app_or in Hk as [Hk | [<- | []]].
        + apply in_map_iff in Hk as (t & <- & Ht).
          rewrite List.Forall_forall in Hd. apply Hd.
          rewrite <- (take_drop 4 (x :: s)). apply in_or_app. now left.
        + exists false. cbn [item_amount]. apply sum_amounts_zeros.
          rewrite <- (take_drop 4 (x :: s)) in Hd.
          now apply List.Forall_app in Hd as [_ Hd]. }
    rewrite percentage_of_zero by exact Hz. now rewrite HT.
Qed.

Lemma zero_debits_show_NaN_witness :
  let data := Val (statement_of [debit "Fee waiver" 0%float;
                                 credit "Refund" 50%float;
                                 debit "Reversal" (-0)%float]) in
  debits data <> []
  /\ List.Forall (fun t => is_zero (amount t)) (debits data)
  /\ exists c, DonutAnalytics data = RenderChart c
       /\ chart_center_text c = "₹0"
       /\ chart_items c <> []
       /\ List.Forall (fun li => legend_percentage li = Some "NaN")
            (chart_legend c).
Proof.
  intros data.
  assert (H1 : debits data <> []) by (vm_compute; discriminate).
  assert (H2 : List.Forall (fun t => is_zero (amount t)) (debits data)).
  { let l := eval vm_compute in (debits data) in change (debits data) with l.
    apply List.Forall_cons; [exists false; reflexivity|].
    apply List.Forall_cons; [exists true; reflexivity|].
    apply List.Forall_nil. }
  split; [exact H1|]. split; [exact H2|].
  exact (zero_debits_show_NaN data H1 H2).
Defined.

End ZeroDebits.

(** ** formatCurrency: amounts with two decimals *)

Section Paise.

Import Results.

Local Open Scope Z_scope.

(** The sign of a rounded number is the sign it is given. *)
Lemma binary_round_aux_opp (m e : Z) (l : location) :
  binary_round_aux prec emax true m e l
  = SFopp (binary_round_aux prec emax false m e l).
Proof.
  unfold binary_round_aux.
  destruct (shr_fexp prec emax m e l) as [r1 e1].
  destruct (shr_fexp prec emax _ e1 loc_Exact) as [r2 e2].
  destruct (shr_m r2); [reflexivity| |reflexivity].
  now destruct (e2 <=? emax - prec).
Qed.

(** Rounding is to a nearest number of the format: what
    [binary_round_aux] returns for the number [P / Dn * 2^e], when that is
    neither too small nor too large, is within half a unit in its last
    place of it. *)
Lemma binary_round_aux_near (m e : Z) (l : location) (P Dn : Z) :
  0 <= m -> 0 < Dn -> located l m P Dn ->
  let e1 := e + Z.max 0 (fexp prec emax (Zdigits2 m + e) - e) in
  e1 < 971 -> 2 ^ (e1 - e) * Dn < 2 * P ->
  exists (p : positive) (ex : Z),
    binary_round_aux prec emax false m e l = S754_finite false p ex
    /\ e1 <= ex <= e1 + 1
    /\ (2 * Z.pos p - 1) * (2 ^ (ex - e) * Dn) <= 2 * P
       <= (2 * Z.pos p + 1) * (2 ^ (ex - e) * Dn).
Proof.
  intros Hm H0 Hl e1 He1 Hbig.
  pose proof (binary_round_aux_shape m e l P Dn Hm H0 Hl) as Sh.
  destruct (shr_fexp_stands_for m e l P Dn Hm H0 Hl) as (_ & S1 & B1 & _ & Hlow).
  cbv zeta in Sh, S1, B1, Hlow. fold e1 in Sh, S1, Hlow.
  set (r1 := fst (shr_fexp prec emax m e l)) in *.
  pose proof (round_nearest_even_spec r1 _ _ S1) as (A & N & _). cbv zeta in A, N.
  set (m2 := round_nearest_even (shr_m r1) (loc_of_shr_record r1)) in *.
  set (D := 2 ^ (e1 - e) * Dn) in *.
  assert (HD : 0 < D).
  { unfold D. apply Z.mul_pos_pos; [|exact H0].
    apply Z.pow_pos_nonneg; unfold e1; lia. }
  assert (Hpos : 0 < m2) by nia.
  rewrite Sh. destruct m2 as [ | p | p] eqn:E2; try lia.
  destruct (Z.eqb_spec (Z.pos p) (2 ^ 53)) as [E53 | N53].
  - destruct (Z.leb_spec (e1 + 1) 971); [|lia].
    exists (2 ^ 52)%positive, (e1 + 1). split; [reflexivity|]. split; [lia|].
    replace (e1 + 1 - e) with (Z.succ (e1 - e)) by lia.
    rewrite Z.pow_succ_r by (unfold e1; lia). fold D.
    rewrite E53 in N.
    change (Z.pos (2 ^ 52)) with (2 ^ 52).
    change (2 ^ 53) with (2 * 2 ^ 52) in N. lia.
  - destruct (Z.leb_spec e1 971); [|lia].
    exists p, e1. split; [reflexivity|]. split; [lia|]. exact N.
Qed.

(** A whole number of paise, divided by 100: the quotient is the number of
    the format nearest to the number of rupees. *)
Lemma paise_to_rupees (a : number) (c : Z) :
  whole a = Some c -> 0 < c <= 10 ^ 15 ->
  exists (m : positive) (e : Z),
    Prim2SF (a / 100)%float = S754_finite false m e
    /\ e <= -7
    /\ 200 * Z.pos m - 100 <= 2 * c * 2 ^ (- e) <= 200 * Z.pos m + 100.
Proof.
  intros Hw Hc.
  pose proof (Prim2SF_valid a) as Va.
  apply whole_inv in Hw. rewrite div_spec.
  change (Prim2SF 100) with (S754_finite false 7036874417766400 (-46)).
  destruct (Prim2SF a) as [s | s | | s ma ea]; try contradiction; [lia|].
  pose proof (valid_finite _ _ _ Va) as (Hea & Hda & _).
  (* the amount is the integer c *)
  assert (Hv : s = false /\ forall t, 0 <= t -> 0 <= ea + t ->
                 Z.pos ma * 2 ^ (ea + t) = c * 2 ^ t).
  { destruct (Z.leb_spec 0 ea) as [L | L].
    - injection Hw as Hw.
      assert (0 < Z.pos ma * 2 ^ ea)
        by (apply Z.mul_pos_pos; [lia|apply Z.pow_pos_nonneg; lia]).
      destruct s; cbn [cond_Zopp] in Hw; [lia|]. split; [reflexivity|].
      intros t Ht _. rewrite Z.pow_add_r by lia. lia.
    - destruct (Z.eqb_spec (Z.pos ma mod 2 ^ (- ea)) 0) as [M | M];
        [|discriminate].
      injection Hw as Hw.
      assert (Hp : 0 < 2 ^ (- ea)) by (apply Z.pow_pos_nonneg; lia).
      pose proof (Z.div_mod (Z.pos ma) (2 ^ (- ea)) ltac:(lia)) as Dm.
      rewrite M, Z.add_0_r in Dm.
      assert (0 < Z.pos ma / 2 ^ (- ea)) by nia.
      destruct s; cbn [cond_Zopp] in Hw; [lia|]. split; [reflexivity|].
      intros t Ht Hs. rewrite Dm at 1. rewrite <- Hw.
      replace t with (- ea + (ea + t)) at 2 by lia.
      rewrite (Z.pow_add_r 2 (- ea)) by lia. ring. }
  destruct Hv as [-> Hv].
  unfold SF64div, SFdiv, SFdiv_core_binary. cbv zeta. cbn [xorb].
  change (Zdigits2 7036874417766400) with 53.
  set (d1 := Zdigits2 (Z.pos ma)).
  set (e' := Z.min (fexp prec emax (d1 + ea - (53 + -46))) (ea - -46)).
  set (s := ea - -46 - e').
  assert (Hs : 0 <= s) by (unfold s, e'; lia).
  (* the size of the amount *)
  assert (Hd1 : d1 + ea <= 50).
  { unfold d1. rewrite Zdigits2_log2 by lia.
    pose proof (Z.log2_spec (Z.pos ma) ltac:(lia)) as [L1 _].
    pose proof (Z.log2_nonneg (Z.pos ma)) as L0.
    specialize (Hv 1074 ltac:(lia) ltac:(lia)).
    assert (P0 : 0 < 2 ^ (ea + 1074)) by (apply Z.pow_pos_nonneg; lia).
    assert (A : 2 ^ (Z.log2 (Z.pos ma) + (ea + 1074)) < 2 ^ (50 + 1074)).
    { rewrite (Z.pow_add_r 2 (Z.log2 (Z.pos ma))), (Z.pow_add_r 2 50) by lia.
      assert (0 < 2 ^ 1074) by (apply Z.pow_pos_nonneg; lia).
      apply Z.le_lt_trans with (Z.pos ma * 2 ^ (ea + 1074));
        [apply Z.mul_le_mono_nonneg_r; lia|].
      rewrite Hv. apply Z.mul_lt_mono_pos_r; [lia|].
      apply Z.le_lt_trans with (10 ^ 15); [lia|]. now vm_compute. }
    apply Z.pow_lt_mono_r_iff in A; lia. }
  assert (He' : e' <= -10).
  { unfold e', fexp, SpecFloat.emin, prec, emax. lia. }
  set (m' := match s with Z.pos _ => Z.shiftl (Z.pos ma) s | 0 => Z.pos ma
             | Z.neg _ => 0 end).
  assert (Hm' : m' = c * 2 ^ (46 - e')).
  { rewrite <- (Hv (46 - e')) by (unfold s in Hs; lia).
    replace (ea + (46 - e')) with s by (unfold s; lia).
    unfold m'. destruct s as [ | p | p]; [simpl; lia| |lia].
    now rewrite Z.shiftl_mul_pow2 by lia. }
  pose proof (Z_div_mod m' 7036874417766400 ltac:(lia)) as Dq.
  destruct (Z.div_eucl m' 7036874417766400) as [q r]. destruct Dq as [Dq R].
  assert (Hq : 0 <= q) by nia.
  assert (Hl : located (new_location 7036874417766400 r) q m' 7036874417766400).
  { rewrite Dq, (Z.mul_comm 7036874417766400 q). now apply new_location_located. }
  assert (Pe : 0 < 2 ^ (- e')) by (apply Z.pow_pos_nonneg; lia).
  assert (E46 : 2 ^ (46 - e') = 70368744177664 * 2 ^ (- e')).
  { replace (46 - e') with (46 + - e') by lia.
    now rewrite Z.pow_add_r by lia. }
  (* the size of the quotient: q * 2^e' <= c / 100 < 2^44 *)
  assert (Hdq : Zdigits2 q + e' <= 44).
  { destruct (Z.eq_dec q 0) as [-> | Nq]; [simpl; lia|].
    rewrite Zdigits2_log2 by lia.
    pose proof (Z.log2_spec q ltac:(lia)) as [L1 _].
    pose proof (Z.log2_nonneg q) as L0.
    assert (A : 2 ^ Z.log2 q < 2 ^ (44 - e')).
    { replace (44 - e') with (44 + - e') by lia.
      rewrite (Z.pow_add_r 2 44) by lia.
      apply Z.le_lt_trans with q; [exact L1|].
      assert (B : 100 * q <= c * 2 ^ (- e')) by nia.
      assert (c < 100 * 2 ^ 44) by (apply Z.le_lt_trans with (10 ^ 15);
                                     [lia|now vm_compute]).
      nia. }
    apply Z.pow_lt_mono_r_iff in A; lia. }
  set (e1 := e' + Z.max 0 (fexp prec emax (Zdigits2 q + e') - e')).
  assert (He1 : e' <= e1 <= -9).
  { unfold e1, fexp, SpecFloat.emin, prec, emax. lia. }
  destruct (binary_round_aux_near q e' _ m' 7036874417766400 Hq ltac:(lia) Hl)
    as (p & ex & Er & Hex & Hn).
  { fold e1. lia. }
  { fold e1. rewrite Hm', E46.
    assert (E1 : 2 ^ (- e') = 2 ^ (e1 - e') * 2 ^ (- e1)).
    { rewrite <- Z.pow_add_r by lia. f_equal. lia. }
    assert (0 < 2 ^ (e1 - e')) by (apply Z.pow_pos_nonneg; lia).
    assert (2 ^ 9 <= 2 ^ (- e1)) by (apply Z.pow_le_mono_r; lia).
    change (2 ^ 9) with 512 in *. rewrite E1. nia. }
  fold e1 in Hex. exists p, ex. split; [exact Er|]. split; [lia|].
  rewrite Hm', E46 in Hn.
  assert (E2 : 2 ^ (- e') = 2 ^ (ex - e') * 2 ^ (- ex)).
  { rewrite <- Z.pow_add_r by lia. f_equal. lia. }
  assert (X : 0 < 2 ^ (ex - e')) by (apply Z.pow_pos_nonneg; lia).
  rewrite E2 in Hn.
  set (u := 2 ^ (ex - e')) in *. set (w := 2 ^ (- ex)) in *.
  nia.
Qed.

Lemma paise_to_rupees_signed (a : number) (k : Z) :
  whole a = Some k -> k <> 0 -> Z.abs k <= 10 ^ 15 ->
  exists (m : positive) (e : Z),
    Prim2SF (a / 100)%float = S754_finite (k <? 0) m e
    /\ e <= -7
    /\ 200 * Z.pos m - 100 <= 2 * Z.abs k * 2 ^ (- e) <= 200 * Z.pos m + 100.
Proof.
  intros Hw Hk Hb. destruct (Z.ltb_spec k 0) as [Neg | Pos].
  - pose proof (whole_inv a k Hw) as Hi.
    destruct (Prim2SF a) as [s | s | | s ma ea] eqn:Ea;
      first [contradiction | lia | idtac].
    assert (Hs : s = true).
    { destruct s; [reflexivity|exfalso]. cbn [cond_Zopp] in Hi.
      destruct (Z.leb_spec 0 ea).
      - injection Hi as Hi.
        assert (0 < 2 ^ ea) by (apply Z.pow_pos_nonneg; lia). nia.
      - destruct (_ =? 0); [|discriminate]. injection Hi as Hi.
        assert (0 < 2 ^ (- ea)) by (apply Z.pow_pos_nonneg; lia).
        assert (0 <= Z.pos ma / 2 ^ (- ea)) by (apply Z.div_pos; lia). lia. }
    subst s.
    assert (Hw' : whole (abs a) = Some (Z.abs k)).
    { unfold whole. rewrite abs_spec, Ea. cbn [SFabs].
      replace (Z.abs k) with (- k) by lia. rewrite <- (Z.opp_involutive k) in Hi.
      cbn [cond_Zopp] in Hi |- *.
      destruct (0 <=? ea); [injection Hi as Hi; f_equal; lia|].
      destruct (_ =? 0); [|discriminate]. injection Hi as Hi. f_equal. lia. }
    destruct (paise_to_rupees (abs a) (Z.abs k) Hw' ltac:(lia))
      as (m & e & Er & He & Hn).
    exists m, e. split; [|split; [exact He|exact Hn]].
    rewrite div_spec in Er |- *. rewrite abs_spec in Er. rewrite Ea in Er |- *.
    change (Prim2SF 100) with (S754_finite false 7036874417766400 (-46)) in *.
    unfold SF64div, SFdiv in Er |- *. cbn [SFabs xorb] in Er |- *.
    destruct (SFdiv_core_binary prec emax (Z.pos ma) ea 7036874417766400 (-46))
      as [[mz ez] lz].
    rewrite binary_round_aux_opp, Er. reflexivity.
  - replace (Z.abs k) with k in * by lia.
    apply (paise_to_rupees a k Hw). lia.
Qed.

(** A number within half a unit in its last place of [c] hundredths has
    [c] as its nearest whole number of hundredths. *)
Lemma nearest_scaled_near (m : positive) (e c : Z) :
  e <= -7 ->
  200 * Z.pos m - 100 <= 2 * c * 2 ^ (- e) <= 200 * Z.pos m + 100 ->
  nearest_scaled m e 100 = c.
Proof.
  intros He H. unfold nearest_scaled.
  destruct (Z.leb_spec 0 e); [lia|].
  assert (P : 2 ^ 7 <= 2 ^ (- e)) by (apply Z.pow_le_mono_r; lia).
  change (2 ^ 7) with 128 in P.
  replace (2 ^ (1 - e)) with (2 * 2 ^ (- e))
    by (rewrite <- Z.pow_succ_r by lia; f_equal; lia).
  set (E := 2 ^ (- e)) in *.
  symmetry. apply (Z.div_unique _ _ _ (2 * Z.pos m * 100 + E - 2 * E * c)); lia.
Qed.

(** Two fraction digits, written out. *)
Lemma toLocaleString_hundredths (x : number) (s : bool) (m : positive) (e : Z) :
  Prim2SF x = S754_finite s m e ->
  let n := nearest_scaled m e 100 in
  toLocaleString_enIN 2 2 x
  = ((if s then "-" else "") ++ group_enIN (digits (n / 100)) ++ "."
       ++ digits (n / 10 mod 10) ++ digits (n mod 10))%string.
Proof.
  intros Hx n. unfold toLocaleString_enIN. rewrite Hx.
  change (10 ^ Z.of_nat 2) with 100. fold n.
  pose proof (nearest_scaled_nonneg m e 100 ltac:(lia)) as Hn. fold n in Hn.
  pose proof (Z.mod_pos_bound n 100 ltac:(lia)) as Hfp.
  assert (F1 : n mod 100 / 10 mod 10 = n / 10 mod 10).
  { pose proof (Z.div_mod n 100 ltac:(lia)) as D.
    rewrite D at 2. replace (100 * (n / 100) + n mod 100)
      with (n mod 100 + (n / 100 * 10) * 10) by ring.
    rewrite Z.div_add by lia. rewrite Z.add_mod by lia.
    rewrite Z.mod_mul, Z.add_0_r, Z.mod_mod by lia. reflexivity. }
  assert (F2 : n mod 100 mod 10 = n mod 10).
  { pose proof (Z.div_mod n 100 ltac:(lia)) as D.
    rewrite D at 2. replace (100 * (n / 100) + n mod 100)
      with (n mod 100 + (n / 100 * 10) * 10) by ring.
    now rewrite Z.mod_add by lia. }
  destruct (digit_char (n / 10 mod 10)) as [c1 E1];
    [apply Z.mod_pos_bound; lia|].
  destruct (digit_char (n mod 10)) as [c2 E2];
    [apply Z.mod_pos_bound; lia|].
  cbn [fraction_digits]. rewrite F1, F2, E1, E2.
  cbn [list_ascii_of_string app rev strip_zeros List.length Nat.ltb Nat.leb].
  rewrite andb_false_r. reflexivity.
Qed.

(** X11: an amount of a whole number [k] of paise, that is the number
    [k / 100] (the number that a decimal text with two fraction digits
    denotes), is printed with exactly those digits: the rupee sign, a minus
    sign if [k] is negative, the rupees [|k| div 100] in the grouping of
    en-IN, a point and the two digits of [|k| mod 100].  Neither the
    rounding of the division nor that of the formatting shows, for all
    amounts up to 10^13 rupees. *)
Theorem formatCurrency_two_decimals (a : number) (k : Z) :
  whole a = Some k -> k <> 0 -> Z.abs k <= 10 ^ 15 ->
  formatCurrency (Val (a / 100)%float)
  = ("₹" ++ (if (k <? 0)%Z then "-" else "")
         ++ group_enIN (digits (Z.abs k / 100)) ++ "."
         ++ digits (Z.abs k / 10 mod 10) ++ digits (Z.abs k mod 10))%string.
Proof.
  intros Hw Hk Hb.
  destruct (paise_to_rupees_signed a k Hw Hk Hb) as (m & e & Er & He & Hn).
  unfold formatCurrency.
  rewrite (toLocaleString_hundredths _ _ _ _ Er). cbv zeta.
  now rewrite (nearest_scaled_near m e (Z.abs k) He Hn).
Qed.

Lemma formatCurrency_two_decimals_witness :
  whole 123456789%float = Some 123456789
  /\ 123456789 <> 0
  /\ Z.abs 123456789 <= 10 ^ 15
  /\ (123456789 / 100)%float = 1234567.89%float
  /\ formatCurrency (Val (123456789 / 100)%float) = "₹12,34,567.89"%string
  /\ formatCurrency (Val (123456789 / 100)%float)
     = ("₹" ++ (if (123456789 <? 0)%Z then "-" else "")
            ++ group_enIN (digits (Z.abs 123456789 / 100)) ++ "."
            ++ digits (Z.abs 123456789 / 10 mod 10)
            ++ digits (Z.abs 123456789 mod 10))%string.
Proof.
  assert (H1 : whole 123456789%float = Some 123456789) by reflexivity.
  assert (H2 : 123456789 <> 0) by discriminate.
  assert (H3 : Z.abs 123456789 <= 10 ^ 15) by (vm_compute; discriminate).
  split; [exact H1|]. split; [exact H2|]. split; [exact H3|].
  split; [reflexivity|]. split; [reflexivity|].
  exact (formatCurrency_two_decimals 123456789%float 123456789 H1 H2 H3).
Defined.

End Paise.
